(** * hexaimage: conversion of an image to a staggered-row ("hexagonal") grid

    A model of [convertToHexagonal] and [calculateHexagonalPixel] of
    src/hexaimage.js. JavaScript Numbers are binary64 floats ([PrimFloat.float]);
    typed arrays are lists of bytes; the canvas calls the converter makes are
    modelled after the HTML standard. *)

From Stdlib Require Import ZArith Lia List Bool Floats QArith Qpower Qround.
From stdpp Require Import base list strings.
#[local] Set Warnings "-inexact-float".
Local Open Scope Z_scope.

(** * Binary64 numbers as dyadic rationals *)

(** The record reached after [k + 1] one-bit shifts of an exact mantissa. *)
Definition shr_spec (m : Z) (k : Z) : shr_record :=
  Build_shr_record (m / 2 ^ k) (Z.odd (m / 2 ^ (k - 1))) (negb (m mod 2 ^ (k - 1) =? 0)).

(** Round to nearest, ties to even, of [m / 2 ^ k]. *)
Definition rne (m k : Z) : Z :=
  let q := m / 2 ^ k in
  match 2 * (m mod 2 ^ k) ?= 2 ^ k with
  | Lt => q
  | Eq => if Z.even q then q else q + 1
  | Gt => q + 1
  end.

(** A finite number of sign [s] whose exponent is at most [B]. *)
Definition finite_upto (s : bool) (B : Z) (x : spec_float) : Prop :=
  match x with
  | S754_zero s' => s' = s
  | S754_finite s' _ e => s' = s /\ e <= B
  | _ => False
  end.

(** [dyadic z k] is the binary64 number obtained from the dyadic [z * 2^(-k)]. *)
Definition dyadic (z k : Z) : spec_float := binary_normalize prec emax z (- k) false.

(** The canonical (53-digit) representation of [c * 2^(-k)], [0 < c < 2^53]. *)
Definition canon (s : bool) (c k : Z) : spec_float :=
  S754_finite s (Z.to_pos (c * 2 ^ (53 - Zdigits2 c))) (Zdigits2 c - 53 - k).

(** The scales [k] for which [z * 2^(-k)], [|z| < 2^53], is a normal or zero
    binary64 number well inside the exponent range. *)
Definition krange (k : Z) : Prop := -900 <= k <= 1000.

(** Comparison of canonical positive numbers: exponents first, then mantissas. *)
Definition cmp_pos (e1 : Z) (m1 : positive) (e2 : Z) (m2 : positive) : comparison :=
  match Z.compare e1 e2 with
  | Lt => Lt
  | Gt => Gt
  | Eq => Pos.compare_cont Eq m1 m2
  end.

(** * ECMAScript Numbers and the Math functions the converter uses *)

(** The Number nearest to [z * 2^(-k)], and the Number of an integer. *)
Definition D2F (z k : Z) : float := SF2Prim (dyadic z k).
Definition Z2F (z : Z) : float := D2F z 0.

(** The mathematical value of an integral Number. *)
Definition F2Z (x : float) : option Z :=
  match Prim2SF x with
  | S754_zero _ => Some 0
  | S754_finite s m e =>
      if 0 <=? e then Some (cond_Zopp s (Zpos m * 2 ^ e))
      else if Zpos m mod 2 ^ (- e) =? 0 then Some (cond_Zopp s (Zpos m / 2 ^ (- e)))
      else None
  | _ => None
  end.

(** [Math.floor]: integers, infinities, zeros and NaN are returned as they are. *)
Definition Math_floor (x : float) : float :=
  match Prim2SF x with
  | S754_finite s m e => if 0 <=? e then x else Z2F (cond_Zopp s (Zpos m) / 2 ^ (- e))
  | _ => x
  end.

(** [Math.round]: the integer nearest to [x], a half going up (towards
    +infinity); a result of zero keeps the sign of [x]. *)
Definition Math_round (x : float) : float :=
  match Prim2SF x with
  | S754_finite s m e =>
      if 0 <=? e then x
      else let n := (2 * cond_Zopp s (Zpos m) + 2 ^ (- e)) / 2 ^ (1 - e) in
           if n =? 0 then (if s then neg_zero else zero) else Z2F n
  | _ => x
  end.

(** [Math.min] and [Math.max] of two Numbers: NaN if either is NaN, and -0 is
    below +0. *)
Definition Math_min (a b : float) : float :=
  if is_nan a || is_nan b then nan
  else if (a <? b)%float then a
  else if (b <? a)%float then b
  else if get_sign a then a else b.

Definition Math_max (a b : float) : float :=
  if is_nan a || is_nan b then nan
  else if (a <? b)%float then b
  else if (b <? a)%float then a
  else if get_sign a then b else a.

(** [a % b]: the remainder of the truncating division, with the sign of [a]. *)
Definition Number_rem (a b : float) : float :=
  match Prim2SF a, Prim2SF b with
  | S754_nan, _ | _, S754_nan | S754_infinity _, _ | _, S754_zero _ => nan
  | S754_zero _, _ | S754_finite _ _ _, S754_infinity _ => a
  | S754_finite sa ma ea, S754_finite _ mb eb =>
      let e := Z.min ea eb in
      let r := Z.rem (cond_Zopp sa (Zpos ma * 2 ^ (ea - e))) (Zpos mb * 2 ^ (eb - e)) in
      SF2Prim (binary_normalize prec emax r e sa)
  end.

(** * Typed arrays *)

(** [a[i]] on a [Uint8ClampedArray]: [None] stands for [undefined]. *)
Definition typed_get (a : list Z) (i : float) : option Z :=
  match F2Z i with
  | Some n => if 0 <=? n then a !! Z.to_nat n else None
  | None => None
  end.

(** [undefined] becomes [NaN] in arithmetic. *)
Definition ToNumber (v : option Z) : float :=
  match v with Some b => Z2F b | None => nan end.

(** The byte a [Uint8ClampedArray] stores for a Number: NaN gives 0, the
    others are clamped to [0, 255] and rounded to nearest, ties to even. *)
Definition ToUint8Clamp (x : float) : Z :=
  match Prim2SF x with
  | S754_nan | S754_zero _ => 0
  | S754_infinity s => if s then 0 else 255
  | S754_finite true _ _ => 0
  | S754_finite false m e =>
      if 0 <=? e then Z.min 255 (Zpos m * 2 ^ e) else Z.min 255 (rne (Zpos m) (- e))
  end.

(** [a[i] = v] on a [Uint8ClampedArray]; a write outside the array is ignored. *)
Definition typed_set (a : list Z) (i : float) (v : float) : list Z :=
  match F2Z i with
  | Some n => if 0 <=? n then <[Z.to_nat n := ToUint8Clamp v]> a else a
  | None => a
  end.

(** * The converter *)

(** The object [calculateHexagonalPixel] returns. *)
Record rgb := { r : float; g : float; b : float }.

(** Lines 261-262. *)
Definition centerWeight : float := 0.5.
Definition outerWeight : float := (0.5 / 8)%float.

(** The four accumulators of lines 264-265. *)
Record totals := { totalR : float; totalG : float; totalB : float; totalWeight : float }.

Section Sampler.
Variable pixels : list Z.
Variables originalWidth originalHeight : float.

(** Lines 252-258: the mapping of an output pixel to its sampling centre. *)
Definition scaleX (hexWidth : float) : float := (originalWidth / hexWidth)%float.
Definition scaleY (hexHeight : float) : float := (originalHeight / hexHeight)%float.
Definition hexOffset (hexY : float) : float := (Number_rem hexY 2 * 0.5)%float.
(** The horizontal sampling centre before [Math.round]. *)
Definition preCenterX (hexX hexY hexWidth : float) : float :=
  ((hexX + hexOffset hexY) * scaleX hexWidth)%float.
Definition centerX (hexX hexY hexWidth : float) : float :=
  Math_round (preCenterX hexX hexY hexWidth).
Definition centerY (hexY hexHeight : float) : float :=
  Math_round (hexY * scaleY hexHeight)%float.

(** Lines 270-273: the clamped tap and the index of its red byte. *)
Definition sampleX (cx : float) (dx : Z) : float :=
  Math_max 0 (Math_min (originalWidth - 1) (cx + Z2F dx))%float.
Definition sampleY (cy : float) (dy : Z) : float :=
  Math_max 0 (Math_min (originalHeight - 1) (cy + Z2F dy))%float.
Definition pixelIndex (cx cy : float) (dx dy : Z) : float :=
  ((sampleY cy dy * originalWidth + sampleX cx dx) * 4)%float.

(** One pass through the body of the inner loop, lines 270-283. *)
Definition sample (cx cy : float) (t : totals) (d : Z * Z) : totals :=
  let '(dy, dx) := d in
  let i := pixelIndex cx cy dx dy in
  let r := ToNumber (typed_get pixels i) in
  let g := ToNumber (typed_get pixels (i + 1)%float) in
  let b := ToNumber (typed_get pixels (i + 2)%float) in
  let weight := if (dx =? 0) && (dy =? 0) then centerWeight else outerWeight in
  {| totalR := (totalR t + r * weight)%float;
     totalG := (totalG t + g * weight)%float;
     totalB := (totalB t + b * weight)%float;
     totalWeight := (totalWeight t + weight)%float |}.

(** The pairs [(dy, dx)] in the order the two nested loops visit them. *)
Definition window : list (Z * Z) :=
  dy ← [-1; 0; 1]; dx ← [-1; 0; 1]; [(dy, dx)].

(** The two nested loops over the 3x3 window. *)
Definition sampleWindow (cx cy : float) : totals :=
  fold_left (sample cx cy) window
    {| totalR := 0; totalG := 0; totalB := 0; totalWeight := 0 |}.

(** Lines 250-299. *)
Definition calculateHexagonalPixel (hexX hexY hexWidth hexHeight : float) : rgb :=
  let cx := centerX hexX hexY hexWidth in
  let cy := centerY hexY hexHeight in
  let t := sampleWindow cx cy in
  let t := if (0 <? totalWeight t)%float
           then {| totalR := Math_round (totalR t / totalWeight t);
                   totalG := Math_round (totalG t / totalWeight t);
                   totalB := Math_round (totalB t / totalWeight t);
                   totalWeight := totalWeight t |}
           else t in
  {| r := Math_max 0 (Math_min 255 (totalR t));
     g := Math_max 0 (Math_min 255 (totalG t));
     b := Math_max 0 (Math_min 255 (totalB t)) |}.
End Sampler.

(** * The canvas calls the converter relies on *)

Inductive exn := IndexSizeError | TypeError | RangeError.

Inductive completion (A : Type) : Type :=
  | Normal (a : A)
  | Throw (e : exn).
Arguments Normal {A} a.
Arguments Throw {A} e.

Record ImageData := { width : Z; height : Z; data : list Z }.

(** Conversion of a Number to a Web IDL [long] under [EnforceRange]. *)
Definition EnforceRange_long (x : float) : completion Z :=
  match Prim2SF x with
  | S754_nan | S754_infinity _ => Throw TypeError
  | S754_zero _ => Normal 0
  | S754_finite s m e =>
      let n := cond_Zopp s (if 0 <=? e then Zpos m * 2 ^ e else Zpos m / 2 ^ (- e)) in
      if (- 2 ^ 31 <=? n) && (n <=? 2 ^ 31 - 1) then Normal n else Throw TypeError
  end.

(** The largest length a typed array can have. *)
Definition maxByteLength : Z := 2 ^ 53 - 1.

(** [context.createImageData(sw, sh)]: a zero dimension is rejected with
    IndexSizeError; otherwise the result is transparent black. *)
Definition createImageData (sw sh : float) : completion ImageData :=
  match EnforceRange_long sw, EnforceRange_long sh with
  | Normal w, Normal h =>
      if (w =? 0) || (h =? 0) then Throw IndexSizeError
      else if maxByteLength <? 4 * Z.abs w * Z.abs h then Throw RangeError
      else Normal {| width := Z.abs w; height := Z.abs h;
                     data := replicate (Z.to_nat (4 * Z.abs w * Z.abs h)) 0 |}
  | Throw e, _ => Throw e
  | _, Throw e => Throw e
  end.

(** The values a counter takes in [for (let i = 0; i < n; i++)]; the bound is
    a [Math.floor] result here, so it is integral whenever the loop is reached. *)
Definition upto (n : float) : list Z :=
  match F2Z n with Some k => seqZ 0 k | None => [] end.

(** The output coordinates [(hexX, hexY)], rows first, as the nested loops visit them. *)
Definition grid (hexWidth hexHeight : float) : list (Z * Z) :=
  hexY ← upto hexHeight; hexX ← upto hexWidth; [(hexX, hexY)].

Section Writer.
Variable pixels : list Z.
Variables originalWidth originalHeight hexWidth hexHeight : float.

(** The body of the inner loop of [convertToHexagonal], lines 219-225. *)
Definition writePixel (hexPixels : list Z) (p : Z * Z) : list Z :=
  let '(hexX, hexY) := p in
  let hexColor := calculateHexagonalPixel pixels originalWidth originalHeight
                    (Z2F hexX) (Z2F hexY) hexWidth hexHeight in
  let hexIndex := ((Z2F hexY * hexWidth + Z2F hexX) * 4)%float in
  let hexPixels := typed_set hexPixels hexIndex (r hexColor) in
  let hexPixels := typed_set hexPixels (hexIndex + 1)%float (g hexColor) in
  let hexPixels := typed_set hexPixels (hexIndex + 2)%float (b hexColor) in
  typed_set hexPixels (hexIndex + 3)%float 255.

(** The loops, run over the output coordinates in the given order. *)
Definition fill (order : list (Z * Z)) (hexPixels : list Z) : list Z :=
  fold_left writePixel order hexPixels.
End Writer.

(** The size of the hexagonal grid, lines 209-210. *)
Definition hexDimensions (originalWidth originalHeight : float) : float * float :=
  (Math_floor (originalWidth * 0.85)%float, Math_floor (originalHeight * 0.9)%float).

(** What a run of the conversion does: the sampler invocations, in order, and
    how the run ends. *)
Record run := { calls : list (Z * Z); outcome : completion ImageData }.

(** Lines 207-232 of [convertToHexagonal]: from the pixel buffer read off the
    canvas, with the dimensions of the image, to the filled [hexImageData].
    The pauses of lines 229-231 only yield to the event loop and are left out. *)
Definition convertToHexagonal (pixels : list Z) (originalWidth originalHeight : float) : run :=
  let '(hexWidth, hexHeight) := hexDimensions originalWidth originalHeight in
  match createImageData hexWidth hexHeight with
  | Throw e => {| calls := []; outcome := Throw e |}
  | Normal hexImageData =>
      {| calls := grid hexWidth hexHeight;
         outcome := Normal {| width := width hexImageData; height := height hexImageData;
                              data := fill pixels originalWidth originalHeight hexWidth hexHeight
                                        (grid hexWidth hexHeight) (data hexImageData) |} |}
  end.

(** The same conversion with the output pixels visited in another order
    (for instance by workers that each take some rows). *)
Definition convertInOrder (schedule : list (Z * Z) -> list (Z * Z))
    (pixels : list Z) (originalWidth originalHeight : float) : run :=
  let '(hexWidth, hexHeight) := hexDimensions originalWidth originalHeight in
  match createImageData hexWidth hexHeight with
  | Throw e => {| calls := []; outcome := Throw e |}
  | Normal hexImageData =>
      {| calls := schedule (grid hexWidth hexHeight);
         outcome := Normal {| width := width hexImageData; height := height hexImageData;
                              data := fill pixels originalWidth originalHeight hexWidth hexHeight
                                        (schedule (grid hexWidth hexHeight)) (data hexImageData) |} |}
  end.

(** * Integer and rational counterparts of the float computations *)

(** An integer that a binary64 mantissa holds exactly. *)
Definition small (z : Z) : Prop := Z.abs z < 2 ^ 53.

(** A non-negative finite Number whose exponent is at most [B]. *)
Definition nonneg_upto (B : Z) (x : float) : Prop := finite_upto false B (Prim2SF x).

(** Rounding half away from zero, the rounding the specification names. *)
Definition round_half_away (x : float) : float :=
  match Prim2SF x with
  | S754_finite s m e =>
      if 0 <=? e then x
      else let n := (2 * Zpos m + 2 ^ (- e)) / 2 ^ (1 - e) in
           if n =? 0 then (if s then neg_zero else zero) else Z2F (cond_Zopp s n)
  | _ => x
  end.

(** What [Math.round] returns on a non-negative finite Number: an integer
    [v] held exactly, either at most [2^52] or with a non-negative exponent. *)
Definition is_center (c : float) (v : Z) : Prop :=
  0 <= v /\ F2Z c = Some v /\
  ((v <= 2 ^ 52 /\ c = Z2F v) \/
   (2 ^ 52 <= v /\ exists m e, Prim2SF c = S754_finite false m e /\ 0 <= e <= 900)).

Definition clampZ (lo hi v : Z) : Z := Z.max lo (Z.min hi v).

(** The index of the red byte of the tap at offset [(dx, dy)]. *)
Definition tapIndex (w h vx vy dx dy : Z) : Z :=
  (clampZ 0 (h - 1) (vy + dy) * w + clampZ 0 (w - 1) (vx + dx)) * 4.

(** The weights in sixteenths: 8 for the centre tap, 1 for the others. *)
Definition weight16 (d : Z * Z) : Z :=
  let '(dy, dx) := d in if (dx =? 0) && (dy =? 0) then 8 else 1.

Definition sumZ (l : list Z) : Z := foldr Z.add 0 l.

Definition texel (pixels : list Z) (i : Z) : Z := default 0 (pixels !! Z.to_nat i).

(** A decoded source image: positive dimensions, [4 * w * h] bytes, within
    the largest length a typed array can have. *)
Definition source_ok (pixels : list Z) (w h : Z) : Prop :=
  1 <= w /\ 1 <= h /\ 4 * w * h < 2 ^ 53 /\
  Z.of_nat (length pixels) = 4 * w * h /\ Forall (fun v => 0 <= v <= 255) pixels.

(** The weighted sum of channel [c] over the taps [l], in sixteenths. *)
Definition acc16 (pixels : list Z) (w h vx vy c : Z) (l : list (Z * Z)) : Z :=
  sumZ (map (fun d => weight16 d * texel pixels (tapIndex w h vx vy (snd d) (fst d) + c)) l).

Definition wsum (l : list (Z * Z)) : Z := sumZ (map weight16 l).

Definition totals16 (Sr Sg Sb Sw : Z) : totals :=
  {| totalR := D2F Sr 4; totalG := D2F Sg 4; totalB := D2F Sb 4; totalWeight := D2F Sw 4 |}.

Definition in_window (d : Z * Z) : Prop := -1 <= fst d <= 1 /\ -1 <= snd d <= 1.

(** The value of one colour channel, as the integer arithmetic gives it. *)
Definition channel16 (pixels : list Z) (w h vx vy c : Z) : Z :=
  clampZ 0 255 ((acc16 pixels w h vx vy c window + 8) / 16).

(** The output coordinates of a [wh] by [hh] grid. *)
Definition in_grid (wh hh : Z) (p : Z * Z) : Prop := 0 <= fst p < wh /\ 0 <= snd p < hh.

(** The four bytes the writer stores for the output pixel [(hexX, hexY)]. *)
Definition hexBytes (pixels : list Z) (W H hexWidth hexHeight : float) (p : Z * Z) (c : Z) : Z :=
  let hexColor := calculateHexagonalPixel pixels W H (Z2F (fst p)) (Z2F (snd p)) hexWidth hexHeight in
  match c with
  | 0 => ToUint8Clamp (r hexColor)
  | 1 => ToUint8Clamp (g hexColor)
  | 2 => ToUint8Clamp (b hexColor)
  | _ => 255
  end.

(** The row-major index of an output pixel. *)
Definition slot (wh : Z) (p : Z * Z) : Z := snd p * wh + fst p.

(** The value of a finite Number. *)
Definition F2Q (x : float) : Q :=
  match Prim2SF x with
  | S754_finite s m e => (inject_Z (cond_Zopp s (Zpos m)) * (2 # 1) ^ e)%Q
  | _ => 0%Q
  end.





(** The shape of a decoded source image, whatever its bytes are. *)
Definition source_shape (pixels : list Z) (w h : Z) : Prop :=
  1 <= w /\ 1 <= h /\ 4 * w * h < 2 ^ 53 /\ Z.of_nat (length pixels) = 4 * w * h.

(** Two buffers that agree on every red, green and blue byte. *)
Definition same_rgb (p1 p2 : list Z) : Prop :=
  length p1 = length p2 /\ forall i : nat, Z.of_nat i mod 4 <> 3 -> p1 !! i = p2 !! i.

(** Every pixel of the source has the colour [(R, G, B)]. *)
Definition uniform (pixels : list Z) (w h R G B : Z) : Prop :=
  forall k, 0 <= k < w * h ->
    texel pixels (4 * k) = R /\ texel pixels (4 * k + 1) = G /\ texel pixels (4 * k + 2) = B.

(** A 2x2 source used to instantiate the theorems below. *)
Definition sample2x2 : list Z :=
  [10; 20; 30; 255; 40; 50; 60; 128; 70; 80; 90; 0; 100; 110; 120; 255].

Definition sample1x1 : list Z := [10; 20; 30; 255].

Definition sample2x2_alpha : list Z :=
  [10; 20; 30; 0; 40; 50; 60; 1; 70; 80; 90; 2; 100; 110; 120; 3].

(** * Definitions for the further properties *)

(** The weight of the tap at offset [(dy, dx)], line 278. *)
Definition weight (d : Z * Z) : float :=
  if (snd d =? 0) && (fst d =? 0) then centerWeight else outerWeight.

(** What the tap at offset [d = (dy, dx)] of the centre [(vx, vy)] contributes:
    the byte of channel [c] at the clamped index, as a Number. *)
Definition readTap (pixels : list Z) (w h vx vy : Z) (d : Z * Z) (c : Z) : float :=
  ToNumber (pixels !! Z.to_nat (tapIndex w h vx vy (snd d) (fst d) + c)).

(** The four sums after that tap has been added with its weight. *)
Definition accumulate (pixels : list Z) (w h vx vy : Z) (t : totals) (d : Z * Z) : totals :=
  {| totalR := (totalR t + readTap pixels w h vx vy d 0 * weight d)%float;
     totalG := (totalG t + readTap pixels w h vx vy d 1 * weight d)%float;
     totalB := (totalB t + readTap pixels w h vx vy d 2 * weight d)%float;
     totalWeight := (totalWeight t + weight d)%float |}.

(** The three colour sums are NaN. *)
Definition all_nan (t : totals) : Prop := totalR t = nan /\ totalG t = nan /\ totalB t = nan.

(** A tap whose red byte lies past the end of the buffer. *)
Definition beyond (pixels : list Z) (w h vx vy : Z) (d : Z * Z) : Prop :=
  Z.of_nat (length pixels) <= tapIndex w h vx vy (snd d) (fst d).

(** * The view state: zoom and pan of the two canvases *)

Module View.

(** The object stored in [originalLastPanPoint] and [hexLastPanPoint]. *)
Record point := { x : float; y : float }.

(** What the handlers read of a mouse event or of a touch. *)
Record MouseEvent := { clientX : float; clientY : float }.

(** The fields of the converter that the zoom and pan methods use, lines 17-29. *)
Record HexaImageConverter := {
  originalZoom : float;
  originalPanX : float;
  originalPanY : float;
  originalIsPanning : bool;
  originalLastPanPoint : option point;
  hexZoom : float;
  hexPanX : float;
  hexPanY : float;
  hexIsPanning : bool;
  hexLastPanPoint : option point }.

Definition constructor : HexaImageConverter :=
  {| originalZoom := 1; originalPanX := 0; originalPanY := 0;
     originalIsPanning := false; originalLastPanPoint := None;
     hexZoom := 1; hexPanX := 0; hexPanY := 0;
     hexIsPanning := false; hexLastPanPoint := None |}.

(** Assignments to the fields. *)
Definition set_originalZoom (v : float) (this : HexaImageConverter) : HexaImageConverter :=
  {| originalZoom := v; originalPanX := originalPanX this; originalPanY := originalPanY this;
     originalIsPanning := originalIsPanning this; originalLastPanPoint := originalLastPanPoint this;
     hexZoom := hexZoom this; hexPanX := hexPanX this; hexPanY := hexPanY this;
     hexIsPanning := hexIsPanning this; hexLastPanPoint := hexLastPanPoint this |}.

Definition set_originalPanX (v : float) (this : HexaImageConverter) : HexaImageConverter :=
  {| originalZoom := originalZoom this; originalPanX := v; originalPanY := originalPanY this;
     originalIsPanning := originalIsPanning this; originalLastPanPoint := originalLastPanPoint this;
     hexZoom := hexZoom this; hexPanX := hexPanX this; hexPanY := hexPanY this;
     hexIsPanning := hexIsPanning this; hexLastPanPoint := hexLastPanPoint this |}.

Definition set_originalPanY (v : float) (this : HexaImageConverter) : HexaImageConverter :=
  {| originalZoom := originalZoom this; originalPanX := originalPanX this; originalPanY := v;
     originalIsPanning := originalIsPanning this; originalLastPanPoint := originalLastPanPoint this;
     hexZoom := hexZoom this; hexPanX := hexPanX this; hexPanY := hexPanY this;
     hexIsPanning := hexIsPanning this; hexLastPanPoint := hexLastPanPoint this |}.

Definition set_originalIsPanning (v : bool) (this : HexaImageConverter) : HexaImageConverter :=
  {| originalZoom := originalZoom this; originalPanX := originalPanX this;
     originalPanY := originalPanY this;
     originalIsPanning := v; originalLastPanPoint := originalLastPanPoint this;
     hexZoom := hexZoom this; hexPanX := hexPanX this; hexPanY := hexPanY this;
     hexIsPanning := hexIsPanning this; hexLastPanPoint := hexLastPanPoint this |}.

Definition set_originalLastPanPoint (v : option point) (this : HexaImageConverter) :
    HexaImageConverter :=
  {| originalZoom := originalZoom this; originalPanX := originalPanX this;
     originalPanY := originalPanY this;
     originalIsPanning := originalIsPanning this; originalLastPanPoint := v;
     hexZoom := hexZoom this; hexPanX := hexPanX this; hexPanY := hexPanY this;
     hexIsPanning := hexIsPanning this; hexLastPanPoint := hexLastPanPoint this |}.

Definition set_hexZoom (v : float) (this : HexaImageConverter) : HexaImageConverter :=
  {| originalZoom := originalZoom this; originalPanX := originalPanX this;
     originalPanY := originalPanY this;
     originalIsPanning := originalIsPanning this; originalLastPanPoint := originalLastPanPoint this;
     hexZoom := v; hexPanX := hexPanX this; hexPanY := hexPanY this;
     hexIsPanning := hexIsPanning this; hexLastPanPoint := hexLastPanPoint this |}.

Definition set_hexPanX (v : float) (this : HexaImageConverter) : HexaImageConverter :=
  {| originalZoom := originalZoom this; originalPanX := originalPanX this;
     originalPanY := originalPanY this;
     originalIsPanning := originalIsPanning this; originalLastPanPoint := originalLastPanPoint this;
     hexZoom := hexZoom this; hexPanX := v; hexPanY := hexPanY this;
     hexIsPanning := hexIsPanning this; hexLastPanPoint := hexLastPanPoint this |}.

Definition set_hexPanY (v : float) (this : HexaImageConverter) : HexaImageConverter :=
  {| originalZoom := originalZoom this; originalPanX := originalPanX this;
     originalPanY := originalPanY this;
     originalIsPanning := originalIsPanning this; originalLastPanPoint := originalLastPanPoint this;
     hexZoom := hexZoom this; hexPanX := hexPanX this; hexPanY := v;
     hexIsPanning := hexIsPanning this; hexLastPanPoint := hexLastPanPoint this |}.

Definition set_hexIsPanning (v : bool) (this : HexaImageConverter) : HexaImageConverter :=
  {| originalZoom := originalZoom this; originalPanX := originalPanX this;
     originalPanY := originalPanY this;
     originalIsPanning := originalIsPanning this; originalLastPanPoint := originalLastPanPoint this;
     hexZoom := hexZoom this; hexPanX := hexPanX this; hexPanY := hexPanY this;
     hexIsPanning := v; hexLastPanPoint := hexLastPanPoint this |}.

Definition set_hexLastPanPoint (v : option point) (this : HexaImageConverter) :
    HexaImageConverter :=
  {| originalZoom := originalZoom this; originalPanX := originalPanX this;
     originalPanY := originalPanY this;
     originalIsPanning := originalIsPanning this; originalLastPanPoint := originalLastPanPoint this;
     hexZoom := hexZoom this; hexPanX := hexPanX this; hexPanY := hexPanY this;
     hexIsPanning := hexIsPanning this; hexLastPanPoint := v |}.

(** [this[prop]] and [this[prop] = v] for a property whose name is chosen by
    [type === 'original' ? 'original...' : 'hex...']. *)
Definition is_original (type : string) : bool := String.eqb type "original".

Definition get_isPanning (type : string) (this : HexaImageConverter) : bool :=
  if is_original type then originalIsPanning this else hexIsPanning this.
Definition get_lastPanPoint (type : string) (this : HexaImageConverter) : option point :=
  if is_original type then originalLastPanPoint this else hexLastPanPoint this.
Definition get_panX (type : string) (this : HexaImageConverter) : float :=
  if is_original type then originalPanX this else hexPanX this.
Definition get_panY (type : string) (this : HexaImageConverter) : float :=
  if is_original type then originalPanY this else hexPanY this.

Definition set_isPanning (type : string) (v : bool) (this : HexaImageConverter) :=
  if is_original type then set_originalIsPanning v this else set_hexIsPanning v this.
Definition set_lastPanPoint (type : string) (v : option point) (this : HexaImageConverter) :=
  if is_original type then set_originalLastPanPoint v this else set_hexLastPanPoint v this.
Definition set_panX (type : string) (v : float) (this : HexaImageConverter) :=
  if is_original type then set_originalPanX v this else set_hexPanX v this.
Definition set_panY (type : string) (v : float) (this : HexaImageConverter) :=
  if is_original type then set_originalPanY v this else set_hexPanY v this.

(** Lines 431-468. The redrawing and the zoom label do not change the fields. *)
Definition zoomOriginal (factor : float) (this : HexaImageConverter) : HexaImageConverter :=
  set_originalZoom (Math_max 0.1 (Math_min 5 (originalZoom this * factor))) this.

Definition resetOriginalView (this : HexaImageConverter) : HexaImageConverter :=
  set_originalPanY 0 (set_originalPanX 0 (set_originalZoom 1 this)).

Definition zoomHex (factor : float) (this : HexaImageConverter) : HexaImageConverter :=
  set_hexZoom (Math_max 0.1 (Math_min 5 (hexZoom this * factor))) this.

Definition resetHexView (this : HexaImageConverter) : HexaImageConverter :=
  set_hexPanY 0 (set_hexPanX 0 (set_hexZoom 1 this)).

(** The percentage shown by [updateOriginalZoomDisplay] and [updateHexZoomDisplay]. *)
Definition zoomPercent (zoom : float) : float := Math_round (zoom * 100).

(** Lines 471-504. *)
Definition startPan (event : MouseEvent) (type : string) (this : HexaImageConverter) :
    HexaImageConverter :=
  set_lastPanPoint type (Some {| x := clientX event; y := clientY event |})
    (set_isPanning type true this).

Definition pan (event : MouseEvent) (type : string) (this : HexaImageConverter) :
    HexaImageConverter :=
  match get_isPanning type this, get_lastPanPoint type this with
  | true, Some last =>
      let deltaX := (clientX event - x last)%float in
      let deltaY := (clientY event - y last)%float in
      let this := set_panX type (get_panX type this + deltaX) this in
      let this := set_panY type (get_panY type this + deltaY) this in
      set_lastPanPoint type (Some {| x := clientX event; y := clientY event |}) this
  | _, _ => this
  end.

Definition endPan (type : string) (this : HexaImageConverter) : HexaImageConverter :=
  set_lastPanPoint type None (set_isPanning type false this).

(** Lines 506-531. *)
Definition handleWheel (deltaY : float) (type : string) (this : HexaImageConverter) :
    HexaImageConverter :=
  let factor := if (0 <? deltaY)%float then 0.9%float else 1.1%float in
  if is_original type then zoomOriginal factor this else zoomHex factor this.

Definition handleTouchStart (touches : list MouseEvent) (type : string)
    (this : HexaImageConverter) : HexaImageConverter :=
  match touches with
  | [touch] => startPan {| clientX := clientX touch; clientY := clientY touch |} type this
  | _ => this
  end.

Definition handleTouchMove (touches : list MouseEvent) (type : string)
    (this : HexaImageConverter) : HexaImageConverter :=
  match touches with
  | [touch] =>
      if get_isPanning type this
      then pan {| clientX := clientX touch; clientY := clientY touch |} type this
      else this
  | _ => this
  end.

(** Lines 542-569, as far as the zoom and pan fields go. *)
Definition reset (this : HexaImageConverter) : HexaImageConverter :=
  set_hexPanY 0 (set_hexPanX 0 (set_hexZoom 1
    (set_originalPanY 0 (set_originalPanX 0 (set_originalZoom 1 this))))).

(** The user events the converter listens to (lines 41-97). *)
Inductive canvas := originalCanvas | hexCanvas.

Definition type_of (c : canvas) : string :=
  match c with originalCanvas => "original" | hexCanvas => "hex" end.

Inductive event :=
  | click_zoomIn (c : canvas)
  | click_zoomOut (c : canvas)
  | click_resetView (c : canvas)
  | click_reset
  | mousedown (c : canvas) (e : MouseEvent)
  | mousemove (c : canvas) (e : MouseEvent)
  | mouseup (c : canvas)
  | mouseleave (c : canvas)
  | wheel (c : canvas) (deltaY : float)
  | touchstart (c : canvas) (touches : list MouseEvent)
  | touchmove (c : canvas) (touches : list MouseEvent)
  | touchend (c : canvas).

(** The listener that each event runs. *)
Definition dispatch (this : HexaImageConverter) (ev : event) : HexaImageConverter :=
  match ev with
  | click_zoomIn originalCanvas => zoomOriginal 1.2 this
  | click_zoomOut originalCanvas => zoomOriginal 0.8 this
  | click_resetView originalCanvas => resetOriginalView this
  | click_zoomIn hexCanvas => zoomHex 1.2 this
  | click_zoomOut hexCanvas => zoomHex 0.8 this
  | click_resetView hexCanvas => resetHexView this
  | click_reset => reset this
  | mousedown c e => startPan e (type_of c) this
  | mousemove c e => pan e (type_of c) this
  | mouseup c | mouseleave c | touchend c => endPan (type_of c) this
  | wheel c deltaY => handleWheel deltaY (type_of c) this
  | touchstart c touches => handleTouchStart touches (type_of c) this
  | touchmove c touches => handleTouchMove touches (type_of c) this
  end.

(** The state after a sequence of events, from a freshly constructed converter. *)
Definition after (evs : list event) : HexaImageConverter := fold_left dispatch evs constructor.

(** A zoom level within the limits of [zoomOriginal] and [zoomHex]. *)
Definition zoom_ok (zoom : float) : Prop :=
  (0.1 <=? zoom)%float = true /\ (zoom <=? 5)%float = true.

(** The zoom levels a sequence of events can reach. *)
Definition zooms_ok (this : HexaImageConverter) : Prop :=
  zoom_ok (originalZoom this) /\ zoom_ok (hexZoom this).

(** The flag and the last point of a canvas go together. *)
Definition pan_state_ok (this : HexaImageConverter) : Prop :=
  (originalIsPanning this = true <-> originalLastPanPoint this <> None) /\
  (hexIsPanning this = true <-> hexLastPanPoint this <> None).

Definition view_of (c : canvas) (this : HexaImageConverter) :
    float * float * float * bool * option point :=
  match c with
  | originalCanvas => (originalZoom this, originalPanX this, originalPanY this,
                       originalIsPanning this, originalLastPanPoint this)
  | hexCanvas => (hexZoom this, hexPanX this, hexPanY this,
                  hexIsPanning this, hexLastPanPoint this)
  end.

(** The canvas an event belongs to; the reset button belongs to none. *)
Definition canvas_of (ev : event) : option canvas :=
  match ev with
  | click_reset => None
  | click_zoomIn c | click_zoomOut c | click_resetView c
  | mousedown c _ | mousemove c _ | mouseup c | mouseleave c | wheel c _
  | touchstart c _ | touchmove c _ | touchend c => Some c
  end.

(** A mouse or touch move on canvas [c]. *)
Definition is_move (c : canvas) (ev : event) : Prop :=
  match ev with
  | mousemove d _ | touchmove d _ => d = c
  | _ => False
  end.

(** The mouse positions of a drag, as integers. *)
Definition at_point (p : Z * Z) : MouseEvent := {| clientX := Z2F (fst p); clientY := Z2F (snd p) |}.

(** A point whose coordinates are at most [B] in size. *)
Definition near (B : Z) (p : Z * Z) : Prop := Z.abs (fst p) <= B /\ Z.abs (snd p) <= B.

End View.

(** * Rounding in binary64 *)

Lemma digits2_bounds (p : positive) :
  2 ^ (Zpos (digits2_pos p) - 1) <= Zpos p < 2 ^ Zpos (digits2_pos p).
Proof.
  induction p as [p IH | p IH |]; cbn [digits2_pos].
  - rewrite Pos2Z.inj_succ.
    replace (Z.succ (Z.pos (digits2_pos p)) - 1) with (Z.succ (Z.pos (digits2_pos p) - 1)) by lia.
    rewrite !Z.pow_succ_r by lia. lia.
  - rewrite Pos2Z.inj_succ.
    replace (Z.succ (Z.pos (digits2_pos p)) - 1) with (Z.succ (Z.pos (digits2_pos p) - 1)) by lia.
    rewrite !Z.pow_succ_r by lia. lia.
  - cbn. lia.
Qed.

(** The number of binary digits is characterised by the enclosing powers of two. *)
Lemma digits2_unique (p : positive) (d : Z) :
  2 ^ (d - 1) <= Zpos p < 2 ^ d -> Zpos (digits2_pos p) = d.
Proof.
  intros [Hlo Hhi]. pose proof (digits2_bounds p) as [Blo Bhi].
  assert (0 < d).
  { destruct (Z_lt_le_dec 0 d); [assumption|].
    assert (2 ^ d <= 2 ^ 0) by (destruct (Z_lt_le_dec d 0);
      [rewrite Z.pow_neg_r by lia; cbn; lia | apply Z.pow_le_mono_r; lia]).
    cbn in *. lia. }
  destruct (Z_lt_le_dec (Zpos (digits2_pos p)) d) as [Hlt|Hge].
  - assert (2 ^ Zpos (digits2_pos p) <= 2 ^ (d - 1)) by (apply Z.pow_le_mono_r; lia). lia.
  - destruct (Z_lt_le_dec d (Zpos (digits2_pos p))) as [Hlt|Hge']; [|lia].
    assert (2 ^ d <= 2 ^ (Zpos (digits2_pos p) - 1)) by (apply Z.pow_le_mono_r; lia). lia.
Qed.

Lemma iter_pos_nat {A} (f : A -> A) (p : positive) (x : A) :
  SpecFloat.iter_pos f p x = Nat.iter (Pos.to_nat p) f x.
Proof.
  revert x. induction p as [p IH | p IH |]; intros x; cbn [SpecFloat.iter_pos].
  - rewrite !IH, Pos2Nat.inj_xI, Nat.iter_succ_r.
    replace (2 * Pos.to_nat p)%nat with (Pos.to_nat p + Pos.to_nat p)%nat by lia.
    rewrite Nat.iter_add. reflexivity.
  - rewrite !IH, Pos2Nat.inj_xO.
    replace (2 * Pos.to_nat p)%nat with (Pos.to_nat p + Pos.to_nat p)%nat by lia.
    rewrite Nat.iter_add. reflexivity.
  - reflexivity.
Qed.

Lemma shr_1_nonneg (m : Z) (r s : bool) :
  0 <= m ->
  shr_1 (Build_shr_record m r s) = Build_shr_record (m / 2) (Z.odd m) (r || s).
Proof.
  intros Hm. destruct m as [|p|p]; [reflexivity| |lia].
  destruct p as [p|p|]; cbn [shr_1].
  - replace (Z.pos p~1 / 2) with (Z.pos p); [reflexivity|].
    apply Z.div_unique with (r := 1); lia.
  - replace (Z.pos p~0 / 2) with (Z.pos p); [reflexivity|].
    apply Z.div_unique with (r := 0); lia.
  - reflexivity.
Qed.

Lemma shr_iter_exact (m : Z) (j : nat) :
  0 <= m ->
  Nat.iter (S j) shr_1 (Build_shr_record m false false) = shr_spec m (Z.of_nat (S j)).
Proof.
  intros Hm. induction j as [|j IH].
  - cbn [Nat.iter]. rewrite shr_1_nonneg by assumption. unfold shr_spec.
    change (Z.of_nat 1 - 1) with 0. change (2 ^ 0) with 1.
    rewrite Z.div_1_r, Z.mod_1_r. reflexivity.
  - rewrite Nat.iter_succ, IH. unfold shr_spec.
    assert (Hp : 0 < 2 ^ Z.of_nat (S j)) by (apply Z.pow_pos_nonneg; lia).
    rewrite shr_1_nonneg by (apply Z.div_pos; lia).
    replace (Z.of_nat (S (S j)) - 1) with (Z.of_nat (S j)) by lia.
    replace (Z.of_nat (S (S j))) with (Z.of_nat (S j) + 1) by lia.
    rewrite Z.pow_add_r, Z.pow_1_r by lia.
    rewrite Z.div_div by lia. f_equal.
    set (k := Z.of_nat (S j)) in *.
    assert (Hk : 2 ^ k = 2 ^ (k - 1) * 2).
    { replace k with ((k - 1) + 1) at 1 by lia. rewrite Z.pow_add_r by lia. reflexivity. }
    assert (Hq : 0 < 2 ^ (k - 1)) by (apply Z.pow_pos_nonneg; lia).
    rewrite Hk. rewrite Z.rem_mul_r by lia.
    rewrite <- Z.negb_even, Zeven_mod.
    pose proof (Z.mod_pos_bound m (2 ^ (k - 1)) Hq).
    assert (Hb : (m / 2 ^ (k - 1)) mod 2 = 0 \/ (m / 2 ^ (k - 1)) mod 2 = 1)
      by (pose proof (Z.mod_pos_bound (m / 2 ^ (k - 1)) 2 ltac:(lia)); lia).
    destruct Hb as [E|E]; rewrite E; cbn [Z.eqb negb orb].
    + rewrite Z.mul_0_r, Z.add_0_r. reflexivity.
    + destruct (Z.eqb_spec (m mod 2 ^ (k - 1) + 2 ^ (k - 1) * 1) 0); [lia|reflexivity].
Qed.

Lemma rne_shr (m : Z) (p : positive) :
  0 <= m ->
  let mrs := SpecFloat.iter_pos shr_1 p (Build_shr_record m false false) in
  shr_m mrs = m / 2 ^ Zpos p /\
  round_nearest_even (shr_m mrs) (loc_of_shr_record mrs) = rne m (Zpos p).
Proof.
  intros Hm mrs. subst mrs. rewrite iter_pos_nat.
  destruct (Pos2Nat.is_succ p) as [j Hj]. rewrite Hj.
  rewrite shr_iter_exact by assumption.
  replace (Z.of_nat (S j)) with (Zpos p) by lia.
  unfold shr_spec. cbn [shr_m]. split; [reflexivity|].
  unfold rne, loc_of_shr_record.
  set (k := Zpos p).
  assert (Hk : 2 ^ k = 2 ^ (k - 1) * 2).
  { replace k with ((k - 1) + 1) at 1 by lia. rewrite Z.pow_add_r by lia. reflexivity. }
  assert (Hq : 0 < 2 ^ (k - 1)) by (apply Z.pow_pos_nonneg; lia).
  pose proof (Z.mod_pos_bound m (2 ^ (k - 1)) Hq) as B1.
  pose proof (Z.mod_pos_bound (m / 2 ^ (k - 1)) 2 ltac:(lia)) as B2.
  assert (Hmod : m mod 2 ^ k = m mod 2 ^ (k - 1) + 2 ^ (k - 1) * ((m / 2 ^ (k - 1)) mod 2)).
  { rewrite Hk. apply Z.rem_mul_r; lia. }
  rewrite Hmod. rewrite <- Z.negb_even, Zeven_mod.
  assert (Hb : (m / 2 ^ (k - 1)) mod 2 = 0 \/ (m / 2 ^ (k - 1)) mod 2 = 1) by lia.
  destruct Hb as [E|E]; rewrite E; cbn [Z.eqb negb];
  rewrite ?Z.mul_0_r, ?Z.add_0_r, ?Z.mul_1_r;
  destruct (Z.eqb_spec (m mod 2 ^ (k - 1)) 0) as [E'|E']; cbn [negb round_nearest_even];
  match goal with |- _ = match ?c with _ => _ end => destruct c eqn:C end;
  try reflexivity;
  try (apply Z.compare_eq in C); try (rewrite Z.compare_lt_iff in C); try (rewrite Z.compare_gt_iff in C);
  lia.
Qed.

Lemma fexp64 (e : Z) : fexp prec emax e = Z.max (e - 53) (-1074).
Proof. reflexivity. Qed.

Lemma pow2_pos (k : Z) : 0 <= k -> 0 < 2 ^ k.
Proof. intros; apply Z.pow_pos_nonneg; lia. Qed.

Lemma pow2_split (a b : Z) : 0 <= a -> 0 <= b -> 2 ^ (a + b) = 2 ^ a * 2 ^ b.
Proof. intros; apply Z.pow_add_r; lia. Qed.

Lemma pow2_le (a b : Z) : 0 <= a <= b -> 2 ^ a <= 2 ^ b.
Proof. intros; apply Z.pow_le_mono_r; lia. Qed.

Lemma pow2_lt (a b : Z) : 0 <= a < b -> 2 ^ a < 2 ^ b.
Proof. intros; apply Z.pow_lt_mono_r; lia. Qed.

Lemma Zdigits2_le (x D : Z) : 0 <= x < 2 ^ D -> 0 <= D -> 0 <= Zdigits2 x <= D.
Proof.
  intros [H0 H1] HD. destruct x as [|p|p]; cbn [Zdigits2]; [lia| |lia].
  pose proof (digits2_bounds p) as [Blo _]. split; [lia|].
  destruct (Z_lt_le_dec D (Zpos (digits2_pos p))) as [Hlt|]; [|lia].
  assert (2 ^ D <= 2 ^ (Zpos (digits2_pos p) - 1)) by (apply pow2_le; lia). lia.
Qed.

Lemma rne_bounds (m k : Z) : m / 2 ^ k <= rne m k <= m / 2 ^ k + 1.
Proof.
  unfold rne. destruct (2 * (m mod 2 ^ k) ?= 2 ^ k); [destruct (Z.even _)| |]; lia.
Qed.

Lemma rne_exact (m k : Z) : 0 <= k -> m mod 2 ^ k = 0 -> rne m k = m / 2 ^ k.
Proof.
  intros Hk E. unfold rne. rewrite E. pose proof (pow2_pos k Hk).
  destruct (Z.compare_spec (2 * 0) (2 ^ k)); [lia|reflexivity|lia].
Qed.

(** The rounded quotient is within half a unit of the exact one. *)
Lemma rne_near (m k : Z) : 0 <= k -> 2 * Z.abs (rne m k * 2 ^ k - m) <= 2 ^ k.
Proof.
  intros Hk. pose proof (pow2_pos k Hk) as Hp.
  pose proof (Z.mod_pos_bound m (2 ^ k) Hp) as Hb.
  pose proof (Z.div_mod m (2 ^ k) ltac:(lia)) as Hd.
  unfold rne. destruct (Z.compare_spec (2 * (m mod 2 ^ k)) (2 ^ k)) as [E|L|G];
    [destruct (Z.even _)| |]; nia.
Qed.

Lemma pos_iter_xO (m p : positive) : Zpos (Pos.iter xO m p) = Zpos m * 2 ^ Zpos p.
Proof.
  induction p as [|p IH] using Pos.peano_ind.
  - cbn. lia.
  - rewrite Pos.iter_succ, Pos2Z.inj_xO, IH, Pos2Z.inj_succ, Z.pow_succ_r by lia. lia.
Qed.

(** Shifting a record whose mantissa is non-negative divides the mantissa,
    whatever the round and sticky bits are. *)
Lemma shr_m_iter (k : nat) (mrs : shr_record) :
  0 <= shr_m mrs -> shr_m (Nat.iter k shr_1 mrs) = shr_m mrs / 2 ^ Z.of_nat k.
Proof.
  intros Hm. induction k as [|k IH].
  - cbn. now rewrite Z.div_1_r.
  - rewrite Nat.iter_succ.
    assert (H0 : 0 <= shr_m (Nat.iter k shr_1 mrs)).
    { rewrite IH. apply Z.div_pos; [lia| apply pow2_pos; lia]. }
    destruct (Nat.iter k shr_1 mrs) as [m' r' s'] eqn:E. cbn [shr_m] in *.
    rewrite shr_1_nonneg by assumption. cbn [shr_m]. rewrite IH.
    rewrite Nat2Z.inj_succ, Z.pow_succ_r, Z.div_div by (try apply pow2_pos; lia).
    f_equal. lia.
Qed.

Lemma shr_m_shr (mrs : shr_record) (e n : Z) :
  0 <= shr_m mrs ->
  shr_m (fst (shr mrs e n)) = shr_m mrs / 2 ^ Z.max 0 n /\ snd (shr mrs e n) = e + Z.max 0 n.
Proof.
  intros Hm. destruct n as [|p|p]; cbn [shr fst snd].
  - cbn. rewrite Z.div_1_r. lia.
  - rewrite iter_pos_nat, shr_m_iter by assumption. rewrite positive_nat_Z.
    replace (Z.max 0 (Zpos p)) with (Zpos p) by lia. lia.
  - cbn. rewrite Z.div_1_r. lia.
Qed.

Lemma round_nearest_even_bounds (m : Z) (l : location) :
  m <= round_nearest_even m l <= m + 1.
Proof. destruct l as [|[| |]]; cbn; [|destruct (Z.even m)| |]; lia. Qed.

Lemma shr_record_of_loc_m (m : Z) (l : location) : shr_m (shr_record_of_loc m l) = m.
Proof. destruct l as [|[| |]]; reflexivity. Qed.

(** Rounding a positive mantissa never produces NaN, keeps the sign, and stays
    finite, with a bounded exponent, when the magnitude is away from overflow. *)
Lemma bra_range (s : bool) (m : positive) (e : Z) (l : location) (B : Z) :
  e <= B -> Zpos (digits2_pos m) + e - 52 <= B -> -1074 <= B <= 971 ->
  finite_upto s B (binary_round_aux prec emax s (Zpos m) e l).
Proof.
  intros He Hd HB. unfold binary_round_aux, shr_fexp.
  set (d := Zpos (digits2_pos m)) in *. cbn [Zdigits2]. fold d. rewrite fexp64.
  pose proof (digits2_bounds m) as [Blo Bhi]. fold d in Blo, Bhi.
  assert (Hd1 : 1 <= d) by (subst d; lia).
  set (n1 := Z.max (d + e - 53) (-1074) - e).
  pose proof (shr_m_shr (shr_record_of_loc (Zpos m) l) e n1) as [Hm1 He1];
    [rewrite shr_record_of_loc_m; lia|].
  rewrite shr_record_of_loc_m in Hm1.
  destruct (shr (shr_record_of_loc (Zpos m) l) e n1) as [mrs1 e1]. cbn [fst snd] in Hm1, He1.
  set (m1 := round_nearest_even (shr_m mrs1) (loc_of_shr_record mrs1)).
  pose proof (round_nearest_even_bounds (shr_m mrs1) (loc_of_shr_record mrs1)) as Hr. fold m1 in Hr.
  set (N := Z.max 0 n1) in *.
  assert (Hp1 : 0 < 2 ^ N) by (apply pow2_pos; lia).
  assert (Hq0 : 0 <= shr_m mrs1) by (rewrite Hm1; apply Z.div_pos; lia).
  assert (Hq1 : shr_m mrs1 < 2 ^ Z.max (d - N) 0).
  { rewrite Hm1. apply Z.div_lt_upper_bound; [lia|].
    rewrite <- pow2_split by lia.
    assert (2 ^ d <= 2 ^ (N + Z.max (d - N) 0)) by (apply pow2_le; lia). lia. }
  assert (Hm1' : 0 <= m1 < 2 ^ (Z.max (d - N) 0 + 1)).
  { rewrite pow2_split, Z.pow_1_r by lia. lia. }
  pose proof (Zdigits2_le m1 _ Hm1' ltac:(lia)) as Hd1'.
  rewrite fexp64.
  set (n2 := Z.max (Zdigits2 m1 + e1 - 53) (-1074) - e1).
  pose proof (shr_m_shr (shr_record_of_loc m1 loc_Exact) e1 n2) as [Hm2 He2]; [cbn; lia|].
  destruct (shr (shr_record_of_loc m1 loc_Exact) e1 n2) as [mrs2 e2]. cbn [fst snd] in Hm2, He2.
  cbn [shr_record_of_loc shr_m] in Hm2.
  assert (0 <= shr_m mrs2) by (rewrite Hm2; apply Z.div_pos; [lia|apply pow2_pos; lia]).
  destruct (shr_m mrs2) as [|p|p]; [reflexivity| |lia].
  assert (Hle : e2 <= B) by lia.
  change (emax - prec) with 971.
  replace (e2 <=? 971) with true by (symmetry; apply Z.leb_le; lia).
  cbn [finite_upto]. split; [reflexivity|exact Hle].
Qed.

(** A mantissa of at most 53 digits passes through rounding unchanged. *)
Lemma bra_keep (s : bool) (m : positive) (e : Z) :
  Zpos (digits2_pos m) <= 53 -> -1074 <= e <= 971 ->
  binary_round_aux prec emax s (Zpos m) e loc_Exact = S754_finite s m e.
Proof.
  intros Hd He. unfold binary_round_aux, shr_fexp. cbn [Zdigits2 shr_record_of_loc].
  rewrite fexp64.
  assert (Hn : Z.max (Zpos (digits2_pos m) + e - 53) (-1074) - e <= 0) by lia.
  destruct (Z.max (Zpos (digits2_pos m) + e - 53) (-1074) - e) as [|p|p] eqn:En; [| lia |];
    cbn [shr shr_m loc_of_shr_record round_nearest_even Zdigits2 shr_record_of_loc];
    rewrite fexp64, En; cbn [shr shr_m];
    change (emax - prec) with 971;
    (replace (e <=? 971) with true by (symmetry; apply Z.leb_le; lia)); reflexivity.
Qed.

(** Rounding to nearest even of a mantissa with more than 53 digits, in the
    range of normal numbers and away from overflow. *)
Lemma bra_round (s : bool) (m : positive) (e : Z) :
  let d := Zpos (digits2_pos m) in
  53 < d -> -1074 <= e + d - 53 -> e + d - 53 < 971 ->
  binary_round_aux prec emax s (Zpos m) e loc_Exact =
    if rne (Zpos m) (d - 53) =? 2 ^ 53
    then S754_finite s (Z.to_pos (2 ^ 52)) (e + d - 53 + 1)
    else S754_finite s (Z.to_pos (rne (Zpos m) (d - 53))) (e + d - 53).
Proof.
  intros d Hd Hlo Hhi.
  pose proof (digits2_bounds m) as [Blo Bhi]. fold d in Blo, Bhi.
  unfold binary_round_aux, shr_fexp. cbn [Zdigits2 shr_record_of_loc]. fold d.
  rewrite fexp64.
  replace (Z.max (d + e - 53) (-1074) - e) with (d - 53) by lia.
  replace (e + d - 53) with (e + (d - 53)) by lia.
  destruct (d - 53) as [|p|p] eqn:En; [lia| |lia].
  cbn [shr].
  pose proof (rne_shr (Zpos m) p ltac:(lia)) as [Hq Hr]. cbv zeta in Hq, Hr.
  rewrite Hr. clear Hr Hq.
  set (q := rne (Zpos m) (Zpos p)).
  assert (Hpp : 0 < 2 ^ Zpos p) by (apply pow2_pos; lia).
  assert (Hq : 2 ^ 52 <= q <= 2 ^ 53).
  { pose proof (rne_bounds (Zpos m) (Zpos p)) as Hb. fold q in Hb.
    assert (Hsplit : 2 ^ d = 2 ^ Zpos p * 2 ^ 53).
    { rewrite <- pow2_split by lia. f_equal. lia. }
    assert (Hsplit' : 2 ^ (d - 1) = 2 ^ Zpos p * 2 ^ 52).
    { rewrite <- pow2_split by lia. f_equal. lia. }
    assert (2 ^ 52 <= Zpos m / 2 ^ Zpos p) by (apply Z.div_le_lower_bound; lia).
    assert (Zpos m / 2 ^ Zpos p < 2 ^ 53) by (apply Z.div_lt_upper_bound; lia).
    lia. }
  destruct (Z.eqb_spec q (2 ^ 53)) as [E|E].
  - rewrite E. change (2 ^ 53) with 9007199254740992. change (2 ^ 52) with 4503599627370496.
    cbn [Zdigits2 Z.to_pos]. rewrite fexp64.
    change (Zpos (digits2_pos 9007199254740992)) with 54.
    replace (Z.max (54 + (e + Zpos p) - 53) (-1074) - (e + Zpos p)) with 1 by lia.
    cbn [shr SpecFloat.iter_pos shr_1 shr_m]. change (emax - prec) with 971.
    replace (e + Zpos p + 1 <=? 971) with true by (symmetry; apply Z.leb_le; lia).
    reflexivity.
  - assert (Hq' : 2 ^ 52 <= q < 2 ^ 53) by lia.
    destruct q as [|pq|pq] eqn:Eq; [cbn in Hq'; lia| |lia].
    pose proof (digits2_unique pq 53 Hq') as Hdq.
    cbn [Zdigits2]. rewrite Hdq, fexp64.
    replace (Z.max (53 + (e + Zpos p) - 53) (-1074) - (e + Zpos p)) with 0 by lia.
    cbn [shr shr_m]. change (emax - prec) with 971.
    replace (e + Zpos p <=? 971) with true by (symmetry; apply Z.leb_le; lia).
    reflexivity.
Qed.

(** [binary_round] first aligns short mantissas to 53 digits. *)
Lemma br_short (s : bool) (m : positive) (e : Z) :
  let d := Zpos (digits2_pos m) in
  d <= 53 -> -1074 <= e + d - 53 <= 971 ->
  binary_round prec emax s m e = S754_finite s (Z.to_pos (Zpos m * 2 ^ (53 - d))) (e + d - 53).
Proof.
  intros d Hd He. pose proof (digits2_bounds m) as [Blo Bhi]. fold d in Blo, Bhi.
  unfold binary_round, shl_align. fold d. rewrite fexp64.
  replace (Z.max (d + e - 53) (-1074) - e) with (d - 53) by lia.
  destruct (d - 53) as [|p|p] eqn:En; [|lia|].
  - replace (53 - d) with 0 by lia. replace (e + d - 53) with e by lia.
    rewrite Z.mul_1_r. cbn [Z.to_pos]. apply bra_keep; lia.
  - replace (Z.max (d + e - 53) (-1074)) with (e + d - 53) by lia.
    assert (Hm' : Zpos (Pos.iter xO m p) = Zpos m * 2 ^ (53 - d)).
    { rewrite pos_iter_xO. f_equal. f_equal. lia. }
    rewrite <- Hm'. cbn [Z.to_pos]. apply bra_keep; [|lia].
    assert (Hb : 2 ^ (53 - 1) <= Zpos (Pos.iter xO m p) < 2 ^ 53).
    { rewrite Hm'.
      assert (E1 : 2 ^ 53 = 2 ^ d * 2 ^ (53 - d)) by (rewrite <- pow2_split by lia; f_equal; lia).
      assert (E2 : 2 ^ (53 - 1) = 2 ^ (d - 1) * 2 ^ (53 - d)) by (rewrite <- pow2_split by lia; f_equal; lia).
      assert (0 < 2 ^ (53 - d)) by (apply pow2_pos; lia).
      rewrite E1, E2. nia. }
    rewrite (digits2_unique _ 53 Hb). lia.
Qed.

Lemma br_long (s : bool) (m : positive) (e : Z) :
  53 <= Zpos (digits2_pos m) -> -1074 <= e + Zpos (digits2_pos m) - 53 ->
  binary_round prec emax s m e = binary_round_aux prec emax s (Zpos m) e loc_Exact.
Proof.
  intros Hd He. unfold binary_round, shl_align. rewrite fexp64.
  destruct (Z.max (Zpos (digits2_pos m) + e - 53) (-1074) - e) as [|p|p] eqn:En;
    [reflexivity|reflexivity|lia].
Qed.

(** ** Dyadic numbers that binary64 represents exactly *)

Lemma Zdigits2_pos_bounds (c : Z) :
  0 < c -> 2 ^ (Zdigits2 c - 1) <= c < 2 ^ Zdigits2 c /\ 1 <= Zdigits2 c.
Proof.
  intros Hc. destruct c as [|p|p]; try lia. cbn [Zdigits2].
  split; [apply digits2_bounds | lia].
Qed.

Lemma digits2_scaled (m : positive) (c t : Z) :
  Zpos m = c * 2 ^ t -> 0 <= t -> 0 < c -> Zpos (digits2_pos m) = Zdigits2 c + t.
Proof.
  intros Hm Ht Hc. destruct (Zdigits2_pos_bounds c Hc) as [[Blo Bhi] Hd].
  apply digits2_unique. rewrite Hm.
  replace (Zdigits2 c + t - 1) with ((Zdigits2 c - 1) + t) by lia.
  rewrite !pow2_split by lia. pose proof (pow2_pos t Ht). nia.
Qed.

Lemma canon_mantissa (c : Z) :
  0 < c < 2 ^ 53 ->
  2 ^ 52 <= c * 2 ^ (53 - Zdigits2 c) < 2 ^ 53 /\ Zdigits2 c <= 53.
Proof.
  intros [Hc Hc']. destruct (Zdigits2_pos_bounds c Hc) as [[Blo Bhi] Hd].
  assert (Hle : Zdigits2 c <= 53).
  { destruct (Z_lt_le_dec 53 (Zdigits2 c)); [|lia].
    assert (2 ^ 53 <= 2 ^ (Zdigits2 c - 1)) by (apply pow2_le; lia). lia. }
  split; [|exact Hle].
  assert (E1 : 2 ^ 53 = 2 ^ Zdigits2 c * 2 ^ (53 - Zdigits2 c))
    by (rewrite <- pow2_split by lia; f_equal; lia).
  assert (E2 : 2 ^ 52 = 2 ^ (Zdigits2 c - 1) * 2 ^ (53 - Zdigits2 c))
    by (rewrite <- pow2_split by lia; f_equal; lia).
  assert (0 < 2 ^ (53 - Zdigits2 c)) by (apply pow2_pos; lia).
  rewrite E1, E2. nia.
Qed.

(** All the ways of writing a representable dyadic round to its canonical form. *)
Lemma br_exact (s : bool) (m : positive) (e c k t : Z) :
  Zpos m = c * 2 ^ t -> 0 <= t -> e = - k - t -> 0 < c < 2 ^ 53 -> krange k ->
  binary_round prec emax s m e = canon s c k.
Proof.
  intros Hm Ht He Hc Hk. unfold krange in Hk.
  pose proof (digits2_scaled m c t Hm Ht ltac:(lia)) as Hd.
  destruct (canon_mantissa c Hc) as [Hcm Hdc].
  destruct (Zdigits2_pos_bounds c ltac:(lia)) as [_ Hd1].
  unfold canon. destruct (Z_lt_le_dec 53 (Zpos (digits2_pos m))) as [Hlong|Hshort].
  - rewrite br_long by lia. rewrite bra_round by lia.
    assert (Hsplit : t = (Zpos (digits2_pos m) - 53) + (53 - Zdigits2 c)) by lia.
    assert (Hdiv : Zpos m = c * 2 ^ (53 - Zdigits2 c) * 2 ^ (Zpos (digits2_pos m) - 53)).
    { rewrite Hm. rewrite Hsplit at 1. rewrite pow2_split by lia. ring. }
    assert (Hp : 0 < 2 ^ (Zpos (digits2_pos m) - 53)) by (apply pow2_pos; lia).
    rewrite rne_exact by (try lia; rewrite Hdiv; apply Z.mod_mul; lia).
    replace (Zpos m / 2 ^ (Zpos (digits2_pos m) - 53)) with (c * 2 ^ (53 - Zdigits2 c))
      by (rewrite Hdiv at 1; rewrite Z.div_mul by lia; reflexivity).
    destruct (Z.eqb_spec (c * 2 ^ (53 - Zdigits2 c)) (2 ^ 53)); [lia|].
    f_equal. lia.
  - rewrite br_short by lia. f_equal; [|lia].
    f_equal. rewrite Hm, Hd. rewrite <- Z.mul_assoc, <- pow2_split by lia. f_equal. f_equal. lia.
Qed.

Lemma bra_exact (s : bool) (m : positive) (e c k t : Z) :
  Zpos m = c * 2 ^ t -> 0 <= t -> e = - k - t -> 0 < c < 2 ^ 53 -> krange k ->
  53 <= Zdigits2 c + t ->
  binary_round_aux prec emax s (Zpos m) e loc_Exact = canon s c k.
Proof.
  intros Hm Ht He Hc Hk Hd.
  pose proof (digits2_scaled m c t Hm Ht ltac:(lia)) as Hd'.
  destruct (canon_mantissa c Hc) as [Hcm Hdc]. unfold krange in Hk.
  destruct (Zdigits2_pos_bounds c ltac:(lia)) as [_ Hd1].
  rewrite <- br_long by lia. eapply br_exact; eassumption.
Qed.

Lemma dy_zero (k : Z) : dyadic 0 k = S754_zero false.
Proof. reflexivity. Qed.

Lemma dy_pos (z k : Z) : 0 < z < 2 ^ 53 -> krange k -> dyadic z k = canon false z k.
Proof.
  intros Hz Hk. destruct z as [|p|p]; try lia. unfold dyadic. cbn [binary_normalize].
  apply br_exact with (t := 0); try lia; try assumption.
Qed.

Lemma dy_neg (z k : Z) : 0 < z < 2 ^ 53 -> krange k -> dyadic (- z) k = canon true z k.
Proof.
  intros Hz Hk. destruct z as [|p|p]; try lia. unfold dyadic. cbn [binary_normalize Z.opp].
  apply br_exact with (t := 0); try lia; try assumption.
Qed.

Lemma dy_canon (z k : Z) :
  z <> 0 -> Z.abs z < 2 ^ 53 -> krange k -> dyadic z k = canon (z <? 0) (Z.abs z) k.
Proof.
  intros Hz Hb Hk. destruct (Z.ltb_spec z 0).
  - replace z with (- (- z)) at 1 by lia. rewrite dy_neg by (try assumption; lia).
    f_equal; lia.
  - rewrite dy_pos by (try assumption; lia). f_equal; lia.
Qed.

(** The same dyadic written with a finer unit. *)
Lemma bn_scaled (c k t : Z) :
  Z.abs c < 2 ^ 53 -> 0 <= t -> krange k ->
  binary_normalize prec emax (c * 2 ^ t) (- k - t) false = dyadic c k.
Proof.
  intros Hc Ht Hk. pose proof (pow2_pos t Ht) as Hp.
  destruct (Z.lt_trichotomy c 0) as [Hn|[->|Hp']].
  - replace c with (- (- c)) at 2 by lia.
    rewrite (dy_neg (- c)) by (try assumption; lia).
    destruct (c * 2 ^ t) as [|p|p] eqn:E; try nia.
    cbn [binary_normalize].
    apply br_exact with (t := t); try lia; try assumption.
  - reflexivity.
  - rewrite (dy_pos c) by (try assumption; lia).
    destruct (c * 2 ^ t) as [|p|p] eqn:E; try nia.
    cbn [binary_normalize].
    apply br_exact with (t := t); try lia; try assumption.
Qed.

Lemma shl_align_fst (m : positive) (e ez : Z) :
  ez <= e -> Zpos (fst (shl_align m e ez)) = Zpos m * 2 ^ (e - ez).
Proof.
  intros H. unfold shl_align. destruct (ez - e) as [|p|p] eqn:E; cbn [fst]; [|lia|].
  - replace (e - ez) with 0 by lia. lia.
  - rewrite pos_iter_xO. f_equal. f_equal. lia.
Qed.

Lemma canon_align (s : bool) (c k ez : Z) :
  0 < c < 2 ^ 53 -> ez <= Zdigits2 c - 53 - k ->
  cond_Zopp s (Zpos (fst (shl_align (Z.to_pos (c * 2 ^ (53 - Zdigits2 c)))
                                    (Zdigits2 c - 53 - k) ez)))
  = cond_Zopp s c * 2 ^ (- k - ez).
Proof.
  intros Hc Hez. destruct (canon_mantissa c Hc) as [Hcm Hdc].
  rewrite shl_align_fst by assumption.
  rewrite Z2Pos.id by (change (2 ^ 52) with 4503599627370496 in Hcm; lia).
  rewrite <- Z.mul_assoc, <- pow2_split by lia.
  replace (53 - Zdigits2 c + (Zdigits2 c - 53 - k - ez)) with (- k - ez) by lia.
  destruct s; cbn [cond_Zopp]; lia.
Qed.

Lemma cond_Zopp_abs (z : Z) : cond_Zopp (z <? 0) (Z.abs z) = z.
Proof. destruct (Z.ltb_spec z 0); cbn [cond_Zopp]; lia. Qed.

(** Addition is exact when the sum is representable. *)
Lemma SFadd_dy (a b k : Z) :
  Z.abs a < 2 ^ 53 -> Z.abs b < 2 ^ 53 -> Z.abs (a + b) < 2 ^ 53 -> krange k ->
  SFadd prec emax (dyadic a k) (dyadic b k) = dyadic (a + b) k.
Proof.
  intros Ha Hb Hab Hk.
  destruct (Z.eq_dec a 0) as [->|Ha0]; [|destruct (Z.eq_dec b 0) as [->|Hb0]].
  - rewrite dy_zero, Z.add_0_l. destruct (Z.eq_dec b 0) as [->|Hb0]; [reflexivity|].
    rewrite dy_canon by assumption. reflexivity.
  - rewrite dy_zero, Z.add_0_r. rewrite dy_canon by assumption. reflexivity.
  - rewrite (dy_canon a), (dy_canon b) by assumption. unfold canon at 1 2. cbn [SFadd].
    set (ez := Z.min (Zdigits2 (Z.abs a) - 53 - k) (Zdigits2 (Z.abs b) - 53 - k)).
    rewrite !canon_align by lia. rewrite !cond_Zopp_abs.
    rewrite <- Z.mul_add_distr_r.
    destruct (Zdigits2_pos_bounds (Z.abs a) ltac:(lia)) as [_ Hda].
    destruct (canon_mantissa (Z.abs a) ltac:(lia)) as [_ Hda'].
    replace ez with (- k - (- k - ez)) at 2 by lia.
    apply bn_scaled; [assumption|lia|assumption].
Qed.

Lemma SFsub_dy (a b k : Z) :
  Z.abs a < 2 ^ 53 -> Z.abs b < 2 ^ 53 -> Z.abs (a - b) < 2 ^ 53 -> krange k ->
  SFsub prec emax (dyadic a k) (dyadic b k) = dyadic (a - b) k.
Proof.
  intros Ha Hb Hab Hk.
  destruct (Z.eq_dec a 0) as [->|Ha0]; [|destruct (Z.eq_dec b 0) as [->|Hb0]].
  - rewrite dy_zero, Z.sub_0_l. destruct (Z.eq_dec b 0) as [->|Hb0]; [reflexivity|].
    rewrite (dy_canon b), (dy_canon (- b)) by (try assumption; lia).
    unfold canon. cbn [SFsub]. rewrite Z.abs_opp. f_equal.
    destruct (Z.ltb_spec b 0), (Z.ltb_spec (- b) 0); try reflexivity; lia.
  - rewrite dy_zero, Z.sub_0_r. rewrite dy_canon by assumption. reflexivity.
  - rewrite (dy_canon a), (dy_canon b) by assumption. unfold canon at 1 2. cbn [SFsub].
    set (ez := Z.min (Zdigits2 (Z.abs a) - 53 - k) (Zdigits2 (Z.abs b) - 53 - k)).
    rewrite !canon_align by lia. rewrite !cond_Zopp_abs.
    rewrite <- Z.mul_sub_distr_r.
    destruct (Zdigits2_pos_bounds (Z.abs a) ltac:(lia)) as [_ Hda].
    destruct (canon_mantissa (Z.abs a) ltac:(lia)) as [_ Hda'].
    replace ez with (- k - (- k - ez)) at 2 by lia.
    apply bn_scaled; [assumption|lia|assumption].
Qed.

(** Multiplication of non-negative numbers is exact when the product is representable. *)
Lemma SFmul_dy (a b k j : Z) :
  0 <= a < 2 ^ 53 -> 0 <= b < 2 ^ 53 -> a * b < 2 ^ 53 ->
  krange k -> krange j -> krange (k + j) ->
  SFmul prec emax (dyadic a k) (dyadic b j) = dyadic (a * b) (k + j).
Proof.
  intros Ha Hb Hab Hk Hj Hkj.
  destruct (Z.eq_dec a 0) as [->|Ha0]; [|destruct (Z.eq_dec b 0) as [->|Hb0]].
  - rewrite Z.mul_0_l, dy_zero. destruct (Z.eq_dec b 0) as [->|Hb0]; [reflexivity|].
    rewrite dy_pos by (try assumption; lia). reflexivity.
  - rewrite Z.mul_0_r, dy_zero. rewrite dy_pos by (try assumption; lia). reflexivity.
  - rewrite (dy_pos a), (dy_pos b), (dy_pos (a * b)) by (try assumption; nia).
    unfold canon at 1 2. cbn [SFmul xorb].
    destruct (canon_mantissa a ltac:(lia)) as [Hma Hda].
    destruct (canon_mantissa b ltac:(lia)) as [Hmb Hdb].
    destruct (Zdigits2_pos_bounds a ltac:(lia)) as [_ Hda1].
    destruct (Zdigits2_pos_bounds b ltac:(lia)) as [_ Hdb1].
    destruct (Zdigits2_pos_bounds (a * b) ltac:(nia)) as [[Blo Bhi] Hd1].
    change (2 ^ 52) with 4503599627370496 in Hma, Hmb.
    set (t := (53 - Zdigits2 a) + (53 - Zdigits2 b)).
    assert (Hprod : Zpos (Z.to_pos (a * 2 ^ (53 - Zdigits2 a)) * Z.to_pos (b * 2 ^ (53 - Zdigits2 b)))
                    = a * b * 2 ^ t).
    { rewrite Pos2Z.inj_mul, !Z2Pos.id by lia. unfold t. rewrite pow2_split by lia. ring. }
    apply bra_exact with (t := t); try assumption; try (unfold t; lia).
    (* the product of two 53-digit mantissas has at least 105 digits *)
    assert (H104 : 2 ^ 104 <= a * b * 2 ^ t).
    { rewrite <- Hprod, Pos2Z.inj_mul, !Z2Pos.id by lia.
      change (2 ^ 104) with (4503599627370496 * 4503599627370496). nia. }
    destruct (Z_lt_le_dec (Zdigits2 (a * b) + t) 53) as [Hlt|]; [|lia].
    assert (2 ^ (Zdigits2 (a * b) + t) <= 2 ^ 53) by (apply pow2_le; unfold t; lia).
    rewrite pow2_split in H by (unfold t; lia).
    assert (0 < 2 ^ t) by (apply pow2_pos; unfold t; lia).
    change (2 ^ 104) with (2 ^ 53 * 2 ^ 51) in H104.
    assert (0 < 2 ^ 51) by (apply pow2_pos; lia). nia.
Qed.

Lemma canon_cmp_pos (a b k : Z) :
  0 < a < 2 ^ 53 -> 0 < b < 2 ^ 53 ->
  cmp_pos (Zdigits2 a - 53 - k) (Z.to_pos (a * 2 ^ (53 - Zdigits2 a)))
          (Zdigits2 b - 53 - k) (Z.to_pos (b * 2 ^ (53 - Zdigits2 b))) = (a ?= b).
Proof.
  intros Ha Hb. unfold cmp_pos.
  destruct (canon_mantissa a Ha) as [Hma Hda].
  destruct (canon_mantissa b Hb) as [Hmb Hdb].
  destruct (Zdigits2_pos_bounds a ltac:(lia)) as [[Alo Ahi] Hda1].
  destruct (Zdigits2_pos_bounds b ltac:(lia)) as [[Blo Bhi] Hdb1].
  change (2 ^ 52) with 4503599627370496 in Hma, Hmb.
  destruct (Z.compare_spec (Zdigits2 a - 53 - k) (Zdigits2 b - 53 - k)) as [E|L|G].
  - assert (Ed : Zdigits2 a = Zdigits2 b) by lia.
    change (Pos.compare_cont Eq ?x ?y) with (Pos.compare x y).
    rewrite Pos2Z.inj_compare, !Z2Pos.id by lia. rewrite Ed.
    assert (0 < 2 ^ (53 - Zdigits2 b)) by (apply pow2_pos; lia).
    destruct (Z.compare_spec a b) as [E'|L|G];
      [apply Z.compare_eq_iff | apply Z.compare_lt_iff | apply Z.compare_gt_iff]; nia.
  - symmetry. apply Z.compare_lt_iff.
    assert (2 ^ Zdigits2 a <= 2 ^ (Zdigits2 b - 1)) by (apply pow2_le; lia). lia.
  - symmetry. apply Z.compare_gt_iff.
    assert (2 ^ Zdigits2 b <= 2 ^ (Zdigits2 a - 1)) by (apply pow2_le; lia). lia.
Qed.

Lemma SFcompare_dy (a b k : Z) :
  Z.abs a < 2 ^ 53 -> Z.abs b < 2 ^ 53 -> krange k ->
  SFcompare (dyadic a k) (dyadic b k) = Some (a ?= b).
Proof.
  intros Ha Hb Hk.
  destruct (Z.eq_dec a 0) as [->|Ha0]; destruct (Z.eq_dec b 0) as [->|Hb0];
    rewrite ?dy_zero.
  - reflexivity.
  - rewrite dy_canon by assumption. unfold canon. cbn [SFcompare]. f_equal.
    destruct (Z.ltb_spec b 0); symmetry;
      [apply Z.compare_gt_iff | apply Z.compare_lt_iff]; lia.
  - rewrite dy_canon by assumption. unfold canon. cbn [SFcompare]. f_equal.
    destruct (Z.ltb_spec a 0); symmetry;
      [apply Z.compare_lt_iff | apply Z.compare_gt_iff]; lia.
  - rewrite (dy_canon a), (dy_canon b) by assumption. unfold canon. cbn [SFcompare]. f_equal.
    pose proof (canon_cmp_pos (Z.abs a) (Z.abs b) k ltac:(lia) ltac:(lia)) as Hc.
    unfold cmp_pos in Hc.
    destruct (Z.ltb_spec a 0); destruct (Z.ltb_spec b 0).
    + transitivity (CompOpp (Z.abs a ?= Z.abs b)).
      * rewrite <- Hc. destruct (_ ?= _); reflexivity.
      * rewrite <- Z.compare_antisym. rewrite !Z.abs_neq by lia. apply Z.compare_opp.
    + symmetry; apply Z.compare_lt_iff; lia.
    + symmetry; apply Z.compare_gt_iff; lia.
    + rewrite Hc, !Z.abs_eq by lia. reflexivity.
Qed.

(** Division by one is exact. *)
Lemma SFdiv_dy_one (a k : Z) :
  0 <= a < 2 ^ 53 -> krange k ->
  SFdiv prec emax (dyadic a k) (dyadic 1 0) = dyadic a k.
Proof.
  intros Ha Hk. destruct (Z.eq_dec a 0) as [->|Ha0]; [reflexivity|].
  rewrite (dy_pos a) by (try assumption; lia).
  change (dyadic 1 0) with (S754_finite false 4503599627370496 (-52)).
  unfold canon at 1. cbn [SFdiv xorb].
  destruct (canon_mantissa a ltac:(lia)) as [Hma Hda].
  destruct (Zdigits2_pos_bounds a ltac:(lia)) as [_ Hda1].
  change (2 ^ 52) with 4503599627370496 in Hma.
  set (ma := Z.to_pos (a * 2 ^ (53 - Zdigits2 a))).
  assert (Hma' : Zpos ma = a * 2 ^ (53 - Zdigits2 a)) by (unfold ma; rewrite Z2Pos.id; lia).
  assert (Hdm : Zpos (digits2_pos ma) = 53).
  { apply digits2_unique. rewrite Hma'. change (2 ^ (53 - 1)) with 4503599627370496. lia. }
  unfold SFdiv_core_binary. cbn [Zdigits2]. rewrite Hdm, fexp64.
  change (Zpos (digits2_pos 4503599627370496)) with 53.
  unfold krange in Hk.
  replace (Z.min (Z.max (53 + (Zdigits2 a - 53 - k) - (53 + -52) - 53) (-1074))
                 (Zdigits2 a - 53 - k - -52)) with (Zdigits2 a - 53 - k - 1) by lia.
  replace (Zdigits2 a - 53 - k - -52 - (Zdigits2 a - 53 - k - 1)) with 53 by lia.
  assert (Hq : Z.div_eucl (Z.shiftl (Zpos ma) 53) 4503599627370496 = (Zpos ma * 2, 0)).
  { rewrite Z.shiftl_mul_pow2 by lia.
    pose proof (Z_div_mod (Zpos ma * 2 ^ 53) 4503599627370496 ltac:(lia)) as Hdm'.
    destruct (Z.div_eucl _ _) as [q r]. destruct Hdm' as [E B].
    change (2 ^ 53) with (4503599627370496 * 2) in E. f_equal; nia. }
  rewrite Hq. cbn [new_location Z.even new_location_even Z.eqb].
  assert (Hm2 : Zpos ma * 2 = Zpos (ma~0)) by lia. rewrite Hm2.
  apply bra_exact with (t := 54 - Zdigits2 a); try lia; try assumption.
  rewrite Pos2Z.inj_xO, Hma'.
  replace (54 - Zdigits2 a) with ((53 - Zdigits2 a) + 1) by lia.
  rewrite pow2_split by lia. lia.
Qed.

Lemma valid_canon (s : bool) (c k : Z) :
  0 < c < 2 ^ 53 -> krange k -> valid_binary (canon s c k) = true.
Proof.
  intros Hc Hk. unfold krange in Hk. unfold canon, SpecFloat.valid_binary, bounded, canonical_mantissa.
  destruct (canon_mantissa c Hc) as [Hcm Hdc].
  destruct (Zdigits2_pos_bounds c ltac:(lia)) as [_ Hd1].
  change (2 ^ 52) with 4503599627370496 in Hcm.
  assert (Hd : Zpos (digits2_pos (Z.to_pos (c * 2 ^ (53 - Zdigits2 c)))) = 53).
  { apply digits2_unique. rewrite Z2Pos.id by lia. change (2 ^ (53 - 1)) with 4503599627370496. lia. }
  rewrite Hd, fexp64. apply andb_true_intro; split; [apply Z.eqb_eq | apply Z.leb_le].
  - lia.
  - change (emax - prec) with 971. lia.
Qed.

Lemma valid_dy (z k : Z) :
  Z.abs z < 2 ^ 53 -> krange k -> valid_binary (dyadic z k) = true.
Proof.
  intros Hz Hk. destruct (Z.eq_dec z 0) as [->|Hz0]; [reflexivity|].
  rewrite dy_canon by assumption. apply valid_canon; [lia|assumption].
Qed.

(** What validity says about a finite number. *)
Lemma valid_finite (s : bool) (m : positive) (e : Z) :
  valid_binary (S754_finite s m e) = true ->
  Zpos (digits2_pos m) <= 53 /\ -1074 <= e <= 971 /\
  (Zpos (digits2_pos m) = 53 \/ e = -1074).
Proof.
  unfold SpecFloat.valid_binary, bounded, canonical_mantissa. rewrite fexp64.
  change (emax - prec) with 971.
  intros H. apply andb_prop in H as [H1 H2].
  apply Z.eqb_eq in H1. apply Z.leb_le in H2. lia.
Qed.

Lemma rne_scale (x g j : Z) :
  0 <= x -> 0 <= g -> 0 <= j -> rne (x * 2 ^ j) (g + j) = rne x g.
Proof.
  intros Hx Hg Hj. unfold rne.
  pose proof (pow2_pos g Hg) as Pg. pose proof (pow2_pos j Hj) as Pj.
  rewrite pow2_split by lia.
  rewrite Z.div_mul_cancel_r by lia.
  rewrite Z.mul_mod_distr_r by lia.
  replace (2 * (x mod 2 ^ g * 2 ^ j) ?= 2 ^ g * 2 ^ j) with (2 * (x mod 2 ^ g) ?= 2 ^ g);
    [reflexivity|].
  destruct (Z.compare_spec (2 * (x mod 2 ^ g)) (2 ^ g)) as [E|L|G]; symmetry;
    [apply Z.compare_eq_iff | apply Z.compare_lt_iff | apply Z.compare_gt_iff]; nia.
Qed.

(** Rounding the product of an integer [W] and a 53-digit mantissa [M]: the
    shift [g], the unit [G = 2^g] and the distance to the exact product. *)
Lemma rne_product (W M : Z) :
  1 <= W < 2 ^ 48 -> 2 ^ 52 <= M < 2 ^ 53 ->
  let g := Zdigits2 (W * M) - 53 in
  0 <= g <= 48 /\ 2 ^ (53 - g) * 2 ^ g = 2 ^ 53 /\ 0 < 2 ^ g /\ 0 < 2 ^ (53 - g) /\
  W < 2 * 2 ^ g /\ 2 ^ g <= 2 * W /\
  2 * Z.abs (rne (W * M) g * 2 ^ g - W * M) <= 2 ^ g.
Proof.
  intros HW HM g.
  change (2 ^ 48) with 281474976710656 in HW.
  change (2 ^ 52) with 4503599627370496 in HM.
  change (2 ^ 53) with 9007199254740992 in HM |- *.
  set (X := W * M) in *.
  assert (HXlo : W * 4503599627370496 <= X) by (unfold X; apply Z.mul_le_mono_nonneg_l; lia).
  assert (HXhi : X <= W * 9007199254740992) by (unfold X; apply Z.mul_le_mono_nonneg_l; lia).
  assert (HX : 0 < X) by lia.
  destruct (Zdigits2_pos_bounds X HX) as [[Xlo Xhi] Hd1].
  assert (Hg0 : 0 <= g).
  { unfold g. destruct (Z_lt_le_dec (Zdigits2 X) 53) as [Hlt|]; [|lia].
    assert (2 ^ Zdigits2 X <= 2 ^ 52) by (apply pow2_le; lia).
    change (2 ^ 52) with 4503599627370496 in *. lia. }
  assert (Hg48 : g <= 48).
  { unfold g. destruct (Z_lt_le_dec 101 (Zdigits2 X)) as [Hgt|]; [|lia].
    assert (2 ^ 101 <= 2 ^ (Zdigits2 X - 1)) by (apply pow2_le; lia).
    change (2 ^ 101) with 2535301200456458802993406410752 in *. lia. }
  assert (XloG : 2 ^ g * 4503599627370496 <= X).
  { change 4503599627370496 with (2 ^ 52). rewrite <- pow2_split by lia.
    replace (g + 52) with (Zdigits2 X - 1) by (unfold g; lia). exact Xlo. }
  assert (XhiG : X < 2 ^ g * 9007199254740992).
  { change 9007199254740992 with (2 ^ 53). rewrite <- pow2_split by lia.
    replace (g + 53) with (Zdigits2 X) by (unfold g; lia). exact Xhi. }
  assert (PG : 0 < 2 ^ g) by (apply pow2_pos; lia).
  split; [lia|]. split.
  { rewrite <- pow2_split by lia. replace (53 - g + g) with 53 by lia. reflexivity. }
  split; [exact PG|]. split; [apply pow2_pos; lia|].
  split; [lia|]. split; [lia|]. apply rne_near; lia.
Qed.

(** [floor (fl (W * 0.85)) = floor (17 W / 20)]: the mantissa of 0.85 is
    [(17 * 2^53 - 4) / 20]. *)
Lemma rne_floor_085 (W : Z) :
  1 <= W < 2 ^ 48 ->
  let g := Zdigits2 (W * 7656119366529843) - 53 in
  0 <= g <= 48 /\ rne (W * 7656119366529843) g / 2 ^ (53 - g) = 17 * W / 20.
Proof.
  intros HW g.
  destruct (rne_product W 7656119366529843 HW ltac:(cbn; lia))
    as (Hg & HGT & PG & PT & HGW & HWG & Hnear).
  fold g in Hg, HGT, PG, PT, HGW, HWG, Hnear.
  split; [exact Hg|].
  change (2 ^ 48) with 281474976710656 in HW.
  change (2 ^ 53) with 9007199254740992 in HGT.
  set (G := 2 ^ g) in *. set (T := 2 ^ (53 - g)) in *.
  set (q := rne (W * 7656119366529843) g) in *.
  pose proof (Z.div_mod (17 * W) 20 ltac:(lia)) as Hk.
  pose proof (Z.mod_pos_bound (17 * W) 20 ltac:(lia)) as Hrho.
  set (k := 17 * W / 20) in *. set (rho := (17 * W) mod 20) in *.
  assert (HkTG : k * T * G = k * 9007199254740992) by (rewrite <- HGT; ring).
  symmetry. apply Z.div_unique with (r := q - k * T); [left; split|lia].
  - destruct (Z_lt_le_dec q (k * T)) as [Hlt|]; [exfalso|lia].
    assert (q * G <= (k * T - 1) * G) by (apply Z.mul_le_mono_nonneg_r; lia).
    lia.
  - destruct (Z_lt_le_dec (q - k * T) T) as [|Hge]; [assumption|exfalso].
    assert ((k * T + T) * G <= q * G) by (apply Z.mul_le_mono_nonneg_r; lia).
    lia.
Qed.

(** [floor (fl (H * 0.9)) = floor (9 H / 10)]: the mantissa of 0.9 is
    [(9 * 2^53 + 2) / 10]. *)
Lemma rne_floor_09 (H : Z) :
  1 <= H < 2 ^ 48 ->
  let g := Zdigits2 (H * 8106479329266893) - 53 in
  0 <= g <= 48 /\ rne (H * 8106479329266893) g / 2 ^ (53 - g) = 9 * H / 10.
Proof.
  intros HH g.
  destruct (rne_product H 8106479329266893 HH ltac:(cbn; lia))
    as (Hg & HGT & PG & PT & HGW & HWG & Hnear).
  fold g in Hg, HGT, PG, PT, HGW, HWG, Hnear.
  split; [exact Hg|].
  change (2 ^ 48) with 281474976710656 in HH.
  change (2 ^ 53) with 9007199254740992 in HGT.
  set (G := 2 ^ g) in *. set (T := 2 ^ (53 - g)) in *.
  set (q := rne (H * 8106479329266893) g) in *.
  pose proof (Z.div_mod (9 * H) 10 ltac:(lia)) as Hk.
  pose proof (Z.mod_pos_bound (9 * H) 10 ltac:(lia)) as Hrho.
  set (k := 9 * H / 10) in *. set (rho := (9 * H) mod 10) in *.
  assert (HkTG : k * T * G = k * 9007199254740992) by (rewrite <- HGT; ring).
  symmetry. apply Z.div_unique with (r := q - k * T); [left; split|lia].
  - destruct (Z_lt_le_dec q (k * T)) as [Hlt|]; [exfalso|lia].
    assert (q * G <= (k * T - 1) * G) by (apply Z.mul_le_mono_nonneg_r; lia).
    lia.
  - destruct (Z_lt_le_dec (q - k * T) T) as [|Hge]; [assumption|exfalso].
    assert ((k * T + T) * G <= q * G) by (apply Z.mul_le_mono_nonneg_r; lia).
    lia.
Qed.

(** The product of a positive integer and a constant in [[1/2, 1)], as computed. *)
Lemma SFmul_const (W : Z) (M : positive) :
  1 <= W < 2 ^ 48 -> 2 ^ 52 <= Zpos M < 2 ^ 53 ->
  let g := Zdigits2 (W * Zpos M) - 53 in
  exists m e,
    SFmul prec emax (dyadic W 0) (S754_finite false M (-53)) = S754_finite false m e /\
    e < 0 /\ Zpos m / 2 ^ (- e) = rne (W * Zpos M) g / 2 ^ (53 - g).
Proof.
  intros HW HM g.
  destruct (rne_product W (Zpos M) HW HM) as (Hg & HGT & PG & PT & HGW & HWG & Hnear).
  fold g in Hg, HGT, PG, PT, HGW, HWG, Hnear.
  assert (HW53 : 0 < W < 2 ^ 53).
  { change (2 ^ 48) with 281474976710656 in HW. change (2 ^ 53) with 9007199254740992. lia. }
  rewrite dy_pos by (try assumption; unfold krange; lia).
  unfold canon. cbn [SFmul xorb].
  destruct (canon_mantissa W HW53) as [HmW HdW].
  destruct (Zdigits2_pos_bounds W ltac:(lia)) as [_ HdW1].
  pose proof (Zdigits2_le W 48 ltac:(lia) ltac:(lia)) as [_ HdW48].
  set (j := 53 - Zdigits2 W) in *.
  set (mW := Z.to_pos (W * 2 ^ j)).
  assert (HmW' : Zpos mW = W * 2 ^ j).
  { unfold mW. rewrite Z2Pos.id; [reflexivity|]. change (2 ^ 52) with 4503599627370496 in HmW. lia. }
  assert (HP : Zpos (mW * M) = (W * Zpos M) * 2 ^ j) by (rewrite Pos2Z.inj_mul, HmW'; ring).
  assert (HdP : Zpos (digits2_pos (mW * M)) = Zdigits2 (W * Zpos M) + j).
  { apply digits2_scaled; [exact HP | unfold j; lia | lia]. }
  assert (Hn : Zpos (digits2_pos (mW * M)) - 53 = g + j) by (unfold g; lia).
  rewrite bra_round by (rewrite HdP; unfold j, g in *; lia).
  rewrite Hn, HP. rewrite rne_scale by (unfold j; lia).
  set (q := rne (W * Zpos M) g) in *.
  assert (Hq : 2 ^ 52 <= q <= 2 ^ 53).
  { (* the rounded mantissa has 53 digits, or is 2^53 *)
    assert (HX : 0 < W * Zpos M) by lia.
    destruct (Zdigits2_pos_bounds _ HX) as [[Xlo Xhi] _].
    pose proof (rne_bounds (W * Zpos M) g) as Hb. fold q in Hb.
    assert (E1 : 2 ^ Zdigits2 (W * Zpos M) = 2 ^ g * 2 ^ 53)
      by (rewrite <- pow2_split by lia; f_equal; unfold g; lia).
    assert (E2 : 2 ^ (Zdigits2 (W * Zpos M) - 1) = 2 ^ g * 2 ^ 52)
      by (rewrite <- pow2_split by lia; f_equal; unfold g; lia).
    assert (2 ^ 52 <= W * Zpos M / 2 ^ g) by (apply Z.div_le_lower_bound; lia).
    assert (W * Zpos M / 2 ^ g < 2 ^ 53) by (apply Z.div_lt_upper_bound; lia).
    lia. }
  destruct (Z.eqb_spec q (2 ^ 53)) as [E|E].
  - exists (Z.to_pos (2 ^ 52)), (Zdigits2 W - 53 - 0 + -53 + Zpos (digits2_pos (mW * M)) - 53 + 1).
    split; [reflexivity|]. rewrite E.
    replace (Zdigits2 W - 53 - 0 + -53 + Zpos (digits2_pos (mW * M)) - 53 + 1) with (g - 52)
      by (unfold j in *; lia).
    split; [lia|].
    replace (- (g - 52)) with (52 - g) by lia.
    change (Zpos (Z.to_pos (2 ^ 52))) with (2 ^ 52).
    replace (2 ^ 52) with (2 ^ g * 2 ^ (52 - g)) by (rewrite <- pow2_split by lia; f_equal; lia).
    replace (2 ^ 53) with (2 ^ g * 2 ^ (53 - g)) by (rewrite <- pow2_split by lia; f_equal; lia).
    rewrite !Z.div_mul by (apply Z.neq_sym, Z.lt_neq, pow2_pos; lia). reflexivity.
  - exists (Z.to_pos q), (Zdigits2 W - 53 - 0 + -53 + Zpos (digits2_pos (mW * M)) - 53).
    split; [reflexivity|].
    replace (Zdigits2 W - 53 - 0 + -53 + Zpos (digits2_pos (mW * M)) - 53) with (g - 53)
      by (unfold j in *; lia).
    split; [lia|].
    replace (- (g - 53)) with (53 - g) by lia.
    rewrite Z2Pos.id by (change (2 ^ 52) with 4503599627370496 in Hq; lia). reflexivity.
Qed.

Lemma digits2_mul_le (a b : positive) :
  Zpos (digits2_pos (a * b)) <= Zpos (digits2_pos a) + Zpos (digits2_pos b).
Proof.
  pose proof (digits2_bounds a) as [_ Ha]. pose proof (digits2_bounds b) as [_ Hb].
  assert (H : 0 <= Zpos (a * b) < 2 ^ (Zpos (digits2_pos a) + Zpos (digits2_pos b))).
  { rewrite pow2_split, Pos2Z.inj_mul by lia. split; [lia|].
    apply Z.mul_lt_mono_nonneg; lia. }
  apply (Zdigits2_le _ _ H). lia.
Qed.

(** The product of two non-negative finite numbers of moderate size is a
    non-negative finite number. *)
Lemma SFmul_finite_upto (x y : spec_float) (B1 B2 : Z) :
  valid_binary x = true -> valid_binary y = true ->
  finite_upto false B1 x -> finite_upto false B2 y ->
  -1074 <= B1 + B2 + 54 <= 971 ->
  finite_upto false (B1 + B2 + 54) (SFmul prec emax x y).
Proof.
  intros Vx Vy Hx Hy HB.
  destruct x as [sx|sx| |sx mx ex]; try contradiction;
  destruct y as [sy|sy| |sy my ey]; try contradiction; cbn [finite_upto] in Hx, Hy.
  - subst. reflexivity.
  - destruct Hy as [-> _]. subst. reflexivity.
  - destruct Hx as [-> _]. subst. reflexivity.
  - destruct Hx as [-> Hex], Hy as [-> Hey]. cbn [SFmul xorb].
    apply valid_finite in Vx as (Dx & _ & _). apply valid_finite in Vy as (Dy & _ & _).
    pose proof (digits2_mul_le mx my).
    apply bra_range; lia.
Qed.

(** The quotient of a non-negative representable integer by a positive one. *)
Lemma SFdiv_finite_upto (a b : Z) :
  0 <= a < 2 ^ 53 -> 0 < b < 2 ^ 53 ->
  finite_upto false 60 (SFdiv prec emax (dyadic a 0) (dyadic b 0)).
Proof.
  intros Ha Hb. assert (K0 : krange 0) by (unfold krange; lia).
  rewrite (dy_pos b) by assumption.
  destruct (Z.eq_dec a 0) as [->|Ha0]; [reflexivity|].
  rewrite (dy_pos a) by (try assumption; lia).
  unfold canon. cbn [SFdiv xorb].
  destruct (canon_mantissa a ltac:(lia)) as [Hma Hda].
  destruct (canon_mantissa b ltac:(lia)) as [Hmb Hdb].
  destruct (Zdigits2_pos_bounds a ltac:(lia)) as [_ Hda1].
  destruct (Zdigits2_pos_bounds b ltac:(lia)) as [_ Hdb1].
  change (2 ^ 52) with 4503599627370496 in Hma, Hmb.
  change (2 ^ 53) with 9007199254740992 in Hma, Hmb.
  set (ma := Z.to_pos (a * 2 ^ (53 - Zdigits2 a))).
  set (mb := Z.to_pos (b * 2 ^ (53 - Zdigits2 b))).
  assert (Hma' : 4503599627370496 <= Zpos ma < 9007199254740992) by (unfold ma; rewrite Z2Pos.id; lia).
  assert (Hmb' : 4503599627370496 <= Zpos mb < 9007199254740992) by (unfold mb; rewrite Z2Pos.id; lia).
  assert (Hdma : Zpos (digits2_pos ma) = 53) by (apply digits2_unique; cbn; lia).
  assert (Hdmb : Zpos (digits2_pos mb) = 53) by (apply digits2_unique; cbn; lia).
  unfold SFdiv_core_binary. cbn [Zdigits2]. rewrite Hdma, Hdmb, fexp64.
  set (ea := Zdigits2 a - 53 - 0). set (eb := Zdigits2 b - 53 - 0).
  replace (Z.min (Z.max (53 + ea - (53 + eb) - 53) (-1074)) (ea - eb)) with (ea - eb - 53)
    by (unfold ea, eb; lia).
  replace (ea - eb - (ea - eb - 53)) with 53 by lia.
  rewrite Z.shiftl_mul_pow2 by lia. change (2 ^ 53) with 9007199254740992.
  pose proof (Z_div_mod (Zpos ma * 9007199254740992) (Zpos mb) ltac:(lia)) as Hdm.
  destruct (Z.div_eucl (Zpos ma * 9007199254740992) (Zpos mb)) as [q r].
  destruct Hdm as [Hq Hr].
  assert (Hq1 : 0 < q).
  { destruct (Z_lt_le_dec 0 q); [assumption|exfalso].
    assert (Zpos mb * q <= 0) by (apply Z.mul_nonneg_nonpos; lia).
    assert (4503599627370496 * 9007199254740992 <= Zpos ma * 9007199254740992)
      by (apply Z.mul_le_mono_nonneg_r; lia). lia. }
  assert (Hq2 : q < 2 ^ 54).
  { destruct (Z_lt_le_dec q (2 ^ 54)); [assumption|exfalso].
    assert (Zpos mb * 2 ^ 54 <= Zpos mb * q) by (apply Z.mul_le_mono_nonneg_l; lia).
    assert (4503599627370496 * 2 ^ 54 <= Zpos mb * 2 ^ 54) by (apply Z.mul_le_mono_nonneg_r; cbn; lia).
    assert (Zpos ma * 9007199254740992 < 9007199254740992 * 9007199254740992)
      by (apply Z.mul_lt_mono_pos_r; lia).
    change (2 ^ 54) with 18014398509481984 in *. lia. }
  destruct q as [|pq|pq]; try lia.
  pose proof (Zdigits2_le (Zpos pq) 54 ltac:(lia) ltac:(lia)) as [_ Hdq]. cbn [Zdigits2] in Hdq.
  apply bra_range; unfold ea, eb; lia.
Qed.

Lemma bra_round_expo (s : bool) (m : positive) (e : Z) :
  let d := Zpos (digits2_pos m) in
  53 < d -> -1074 <= e + d - 53 -> e + d - 53 < 971 ->
  exists m' e', binary_round_aux prec emax s (Zpos m) e loc_Exact = S754_finite s m' e' /\
                e + d - 53 <= e' <= e + d - 52.
Proof.
  intros d Hd Hlo Hhi. rewrite bra_round by assumption. fold d.
  destruct (_ =? _); eexists _, _; (split; [reflexivity|lia]).
Qed.

(** Adding -1, 0 or 1 to a number of at least [2^52] leaves a number of at
    least [2^51]. *)
Lemma SFadd_big (m : positive) (e b : Z) :
  valid_binary (S754_finite false m e) = true -> 0 <= e <= 900 -> -1 <= b <= 1 ->
  exists m' e', SFadd prec emax (S754_finite false m e) (dyadic b 0) = S754_finite false m' e' /\
                -1 <= e'.
Proof.
  intros V He Hb. apply valid_finite in V as (Dm & _ & [D53|]); [|lia].
  pose proof (digits2_bounds m) as [Mlo Mhi]. rewrite D53 in Mlo, Mhi.
  change (2 ^ (53 - 1)) with 4503599627370496 in Mlo. change (2 ^ 53) with 9007199254740992 in Mhi.
  assert (Hcases : b = 0 \/ b = 1 \/ b = -1) by lia.
  destruct Hcases as [->|Hb'].
  - exists m, e. split; [reflexivity|lia].
  - assert (Hdy : exists s, dyadic b 0 = S754_finite s 4503599627370496 (-52)).
    { destruct Hb' as [->| ->]; [exists false|exists true]; reflexivity. }
    destruct Hdy as [sb ->]. cbn [SFadd].
    replace (Z.min e (-52)) with (-52) by lia.
    rewrite shl_align_fst by lia.
    change (fst (shl_align 4503599627370496 (-52) (-52))) with 4503599627370496%positive.
    set (P := 2 ^ (e - -52)).
    assert (HP : 2 ^ 52 <= P) by (apply pow2_le; lia).
    assert (HP' : P < 2 ^ 953) by (apply pow2_lt; lia).
    change (2 ^ 52) with 4503599627370496 in HP.
    assert (HmP : 4503599627370496 * P <= Zpos m * P) by (apply Z.mul_le_mono_nonneg_r; lia).
    assert (HmP' : Zpos m * P <= 9007199254740992 * P) by (apply Z.mul_le_mono_nonneg_r; lia).
    set (M := cond_Zopp false (Zpos m * P) + cond_Zopp sb 4503599627370496).
    assert (HM : 2 ^ 103 <= M < 2 ^ 1007).
    { change (2 ^ 103) with 10141204801825835211973625643008.
      change (2 ^ 1007) with (2 ^ 54 * 2 ^ 953). change (2 ^ 54) with 18014398509481984.
      unfold M. destruct sb; cbn [cond_Zopp]; lia. }
    destruct M as [|pM|pM] eqn:EM; [cbn in HM; lia| |lia].
    cbn [binary_normalize].
    assert (HdM : 104 <= Zpos (digits2_pos pM) <= 1007).
    { pose proof (digits2_bounds pM) as [Dlo Dhi]. split.
      - destruct (Z_lt_le_dec (Zpos (digits2_pos pM)) 104); [|lia].
        assert (2 ^ Zpos (digits2_pos pM) <= 2 ^ 103) by (apply pow2_le; lia). lia.
      - apply (Zdigits2_le (Zpos pM) 1007); lia. }
    rewrite br_long by lia.
    destruct (bra_round_expo false pM (-52) ltac:(lia) ltac:(lia) ltac:(lia)) as (m' & e' & E & He').
    exists m', e'. split; [exact E|lia].
Qed.

(** A representable integer below [2^51] is less than any number whose
    exponent is at least -1. *)
Lemma SFcompare_small_big (w : Z) (m : positive) (e : Z) :
  0 <= w < 2 ^ 51 -> -1 <= e ->
  SFcompare (dyadic w 0) (S754_finite false m e) = Some Lt.
Proof.
  intros Hw He. destruct (Z.eq_dec w 0) as [->|Hw0]; [reflexivity|].
  change (2 ^ 51) with 2251799813685248 in Hw.
  rewrite dy_pos by (unfold krange; cbn; lia). unfold canon. cbn [SFcompare].
  pose proof (Zdigits2_le w 51 ltac:(cbn; lia) ltac:(lia)) as [_ Hd].
  destruct (Z.compare_spec (Zdigits2 w - 53 - 0) e); try lia. reflexivity.
Qed.

Lemma SFcompare_refl_finite (s : bool) (m : positive) (e : Z) :
  SFcompare (S754_finite s m e) (S754_finite s m e) = Some Eq.
Proof.
  cbn [SFcompare]. rewrite Z.compare_refl.
  change (Pos.compare_cont Eq m m) with (Pos.compare m m). rewrite Pos.compare_refl.
  destruct s; reflexivity.
Qed.

(** * Exact arithmetic on Numbers that hold small dyadics *)

Lemma Prim2SF_D2F (z k : Z) : small z -> krange k -> Prim2SF (D2F z k) = dyadic z k.
Proof. intros Hz Hk. apply Prim2SF_SF2Prim, valid_dy; assumption. Qed.

Lemma D2F_add (a b k : Z) :
  small a -> small b -> small (a + b) -> krange k ->
  (D2F a k + D2F b k)%float = D2F (a + b) k.
Proof.
  intros Ha Hb Hab Hk. apply Prim2SF_inj.
  rewrite add_spec, !Prim2SF_D2F by assumption. apply SFadd_dy; assumption.
Qed.

Lemma D2F_sub (a b k : Z) :
  small a -> small b -> small (a - b) -> krange k ->
  (D2F a k - D2F b k)%float = D2F (a - b) k.
Proof.
  intros Ha Hb Hab Hk. apply Prim2SF_inj.
  rewrite sub_spec, !Prim2SF_D2F by assumption. apply SFsub_dy; assumption.
Qed.

Lemma D2F_mul (a b k j : Z) :
  0 <= a < 2 ^ 53 -> 0 <= b < 2 ^ 53 -> a * b < 2 ^ 53 ->
  krange k -> krange j -> krange (k + j) ->
  (D2F a k * D2F b j)%float = D2F (a * b) (k + j).
Proof.
  intros Ha Hb Hab Hk Hj Hkj. apply Prim2SF_inj.
  rewrite mul_spec, !Prim2SF_D2F by (try assumption; unfold small; nia).
  apply SFmul_dy; assumption.
Qed.

Lemma D2F_div_one (a k : Z) :
  0 <= a < 2 ^ 53 -> krange k -> (D2F a k / 1)%float = D2F a k.
Proof.
  intros Ha Hk. apply Prim2SF_inj.
  rewrite div_spec, !Prim2SF_D2F by (try assumption; unfold small; lia).
  change (Prim2SF 1) with (dyadic 1 0). apply SFdiv_dy_one; assumption.
Qed.

Lemma D2F_compare (a b k : Z) :
  small a -> small b -> krange k ->
  SFcompare (Prim2SF (D2F a k)) (Prim2SF (D2F b k)) = Some (a ?= b).
Proof. intros Ha Hb Hk. rewrite !Prim2SF_D2F by assumption. apply SFcompare_dy; assumption. Qed.

Lemma D2F_ltb (a b k : Z) :
  small a -> small b -> krange k -> (D2F a k <? D2F b k)%float = (a <? b).
Proof.
  intros Ha Hb Hk. rewrite FloatAxioms.ltb_spec. unfold SFltb. rewrite D2F_compare by assumption.
  unfold Z.ltb. destruct (a ?= b); reflexivity.
Qed.

Lemma D2F_is_nan (a k : Z) : small a -> krange k -> is_nan (D2F a k) = false.
Proof.
  intros Ha Hk. unfold is_nan. rewrite FloatAxioms.eqb_spec. unfold SFeqb.
  rewrite D2F_compare, Z.compare_refl by assumption. reflexivity.
Qed.

Lemma D2F_scale (z k j : Z) :
  small z -> 0 <= j -> krange k -> D2F (z * 2 ^ j) (k + j) = D2F z k.
Proof.
  intros Hz Hj Hk. unfold D2F. f_equal. unfold dyadic at 1.
  replace (- (k + j)) with (- k - j) by lia. apply bn_scaled; assumption.
Qed.

Lemma Math_min_D2F (a b k : Z) :
  small a -> small b -> krange k -> Math_min (D2F a k) (D2F b k) = D2F (Z.min a b) k.
Proof.
  intros Ha Hb Hk. unfold Math_min. rewrite !D2F_is_nan, !D2F_ltb by assumption. cbn [orb].
  destruct (Z.ltb_spec a b); [f_equal; lia|].
  destruct (Z.ltb_spec b a); [f_equal; lia|].
  assert (a = b) by lia. subst. rewrite Z.min_id. destruct (get_sign _); reflexivity.
Qed.

Lemma Math_max_D2F (a b k : Z) :
  small a -> small b -> krange k -> Math_max (D2F a k) (D2F b k) = D2F (Z.max a b) k.
Proof.
  intros Ha Hb Hk. unfold Math_max. rewrite !D2F_is_nan, !D2F_ltb by assumption. cbn [orb].
  destruct (Z.ltb_spec a b); [f_equal; lia|].
  destruct (Z.ltb_spec b a); [f_equal; lia|].
  assert (a = b) by lia. subst. rewrite Z.max_id. destruct (get_sign _); reflexivity.
Qed.

(** * The dimension calculation *)

Lemma small_of_range (z b : Z) : 0 <= z < b -> b <= 2 ^ 53 -> small z.
Proof. unfold small. lia. Qed.

Lemma krange_0 : krange 0.
Proof. unfold krange; lia. Qed.
#[local] Hint Resolve krange_0 : core.

Lemma Math_floor_const (W num den : Z) (M : positive) (c : float) :
  Prim2SF c = S754_finite false M (-53) ->
  2 ^ 52 <= Zpos M < 2 ^ 53 ->
  (1 <= W < 2 ^ 48 ->
     rne (W * Zpos M) (Zdigits2 (W * Zpos M) - 53) / 2 ^ (53 - (Zdigits2 (W * Zpos M) - 53))
     = num * W / den) ->
  0 <= W < 2 ^ 48 ->
  Math_floor (Z2F W * c) = Z2F (num * W / den).
Proof.
  intros Hc HM Hrne HW.
  assert (HWs : small W) by (apply small_of_range with (b := 2 ^ 48); [lia | cbn; lia]).
  destruct (Z.eq_dec W 0) as [->|HW0].
  - rewrite Z.mul_0_r. cbn [Z.div].
    assert (E : (Z2F 0 * c)%float = Z2F 0).
    { apply Prim2SF_inj. rewrite mul_spec, Hc. reflexivity. }
    rewrite E. reflexivity.
  - destruct (SFmul_const W M ltac:(lia) HM) as (m & e & Hmul & He & Hval).
    unfold Math_floor. unfold Z2F at 1. rewrite mul_spec, Prim2SF_D2F, Hc by auto.
    unfold SF64mul. rewrite Hmul.
    destruct (Z.leb_spec 0 e); [lia|].
    cbn [cond_Zopp]. rewrite Hval, Hrne by lia. reflexivity.
Qed.

Lemma Math_floor_085 (W : Z) :
  0 <= W < 2 ^ 48 -> Math_floor (Z2F W * 0.85) = Z2F (17 * W / 20).
Proof.
  apply Math_floor_const with (M := 7656119366529843%positive);
    [reflexivity | cbn; lia | intros H; apply (rne_floor_085 W H)].
Qed.

Lemma Math_floor_09 (H : Z) :
  0 <= H < 2 ^ 48 -> Math_floor (Z2F H * 0.9) = Z2F (9 * H / 10).
Proof.
  apply Math_floor_const with (M := 8106479329266893%positive);
    [reflexivity | cbn; lia | intros H'; apply (rne_floor_09 H H')].
Qed.

(** * Numbers that hold integers *)

Lemma F2Z_Z2F (z : Z) : small z -> F2Z (Z2F z) = Some z.
Proof.
  intros Hz. unfold F2Z, Z2F. rewrite Prim2SF_D2F by auto.
  destruct (Z.eq_dec z 0) as [->|Hz0]; [reflexivity|].
  rewrite dy_canon by auto. unfold canon.
  destruct (canon_mantissa (Z.abs z) ltac:(unfold small in Hz; lia)) as [Hm Hd].
  destruct (Zdigits2_pos_bounds (Z.abs z) ltac:(lia)) as [_ Hd1].
  change (2 ^ 52) with 4503599627370496 in Hm.
  rewrite Z2Pos.id by lia.
  set (j := 53 - Zdigits2 (Z.abs z)) in *.
  replace (Zdigits2 (Z.abs z) - 53 - 0) with (- j) by (unfold j; lia).
  rewrite Z.opp_involutive.
  destruct (Z.leb_spec 0 (- j)).
  - replace j with 0 by lia. cbn [Z.opp]. change (2 ^ 0) with 1. rewrite !Z.mul_1_r.
    f_equal. apply cond_Zopp_abs.
  - rewrite Z.mod_mul by (apply Z.neq_sym, Z.lt_neq, pow2_pos; lia). cbn [Z.eqb].
    rewrite Z.div_mul by (apply Z.neq_sym, Z.lt_neq, pow2_pos; lia).
    f_equal. apply cond_Zopp_abs.
Qed.

Lemma Number_rem_2 (y : Z) : 0 <= y < 2 ^ 53 -> Number_rem (Z2F y) 2 = Z2F (y mod 2).
Proof.
  intros Hy. unfold Number_rem, Z2F at 1. rewrite Prim2SF_D2F by (auto; unfold small; lia).
  change (Prim2SF 2) with (S754_finite false 4503599627370496 (-51)).
  destruct (Z.eq_dec y 0) as [->|Hy0]; [reflexivity|].
  rewrite dy_pos by (auto; lia). unfold canon.
  destruct (canon_mantissa y ltac:(lia)) as [Hm Hd].
  destruct (Zdigits2_pos_bounds y ltac:(lia)) as [_ Hd1].
  change (2 ^ 52) with 4503599627370496 in Hm.
  rewrite Z2Pos.id by lia.
  set (e := Z.min (Zdigits2 y - 53 - 0) (-51)).
  cbn [cond_Zopp].
  assert (He : e <= -51) by (unfold e; lia).
  assert (He' : -53 <= e) by (unfold e; lia).
  assert (Hp : 0 < 2 ^ (- e)) by (apply pow2_pos; lia).
  assert (E1 : y * 2 ^ (53 - Zdigits2 y) * 2 ^ (Zdigits2 y - 53 - 0 - e) = y * 2 ^ (- e)).
  { rewrite <- Z.mul_assoc, <- pow2_split by (unfold e; lia). f_equal. f_equal. lia. }
  assert (E2 : 4503599627370496 * 2 ^ (-51 - e) = 2 * 2 ^ (- e)).
  { replace (- e) with (51 + (-51 - e)) by lia. rewrite pow2_split by lia.
    change (2 ^ 51) with 2251799813685248. lia. }
  rewrite E1, E2.
  rewrite Z.rem_mod_nonneg by lia.
  rewrite Z.mul_mod_distr_r by lia.
  unfold Z2F, D2F. f_equal.
  replace e with (- 0 - (- e)) at 2 by lia.
  apply bn_scaled; [|lia|auto].
  pose proof (Z.mod_pos_bound y 2 ltac:(lia)). cbn. lia.
Qed.

Lemma Z2F_D2F_1 (x : Z) : small x -> Z2F x = D2F (2 * x) 1.
Proof.
  intros Hx. unfold Z2F. rewrite <- (D2F_scale x 0 1) by (auto; lia).
  f_equal. change (2 ^ 1) with 2. lia.
Qed.

(** The staggered output abscissa [hexX + (hexY % 2) * 0.5] is exact. *)
Lemma stagger_exact (x y : Z) :
  0 <= x < 2 ^ 52 -> 0 <= y < 2 ^ 53 ->
  (Z2F x + hexOffset (Z2F y))%float = D2F (2 * x + y mod 2) 1.
Proof.
  intros Hx Hy. unfold hexOffset. rewrite Number_rem_2 by assumption.
  pose proof (Z.mod_pos_bound y 2 ltac:(lia)) as Hp.
  change (2 ^ 52) with 4503599627370496 in Hx.
  assert (K1 : krange 1) by (unfold krange; lia).
  change 0.5%float with (D2F 1 1). unfold Z2F at 2.
  rewrite D2F_mul by (auto; cbn; lia). rewrite Z.mul_1_r. cbn [Z.add].
  rewrite Z2F_D2F_1 by (unfold small; cbn; lia).
  apply D2F_add; auto; unfold small; cbn; lia.
Qed.

(** * Non-negative finite Numbers *)

Lemma nonneg_upto_D2F (z k : Z) :
  0 <= z < 2 ^ 53 -> 0 <= k <= 1000 -> nonneg_upto 0 (D2F z k).
Proof.
  intros Hz Hk. unfold nonneg_upto.
  assert (K : krange k) by (unfold krange; lia).
  rewrite Prim2SF_D2F by (auto; unfold small; lia).
  destruct (Z.eq_dec z 0) as [->|Hz0]; [reflexivity|].
  rewrite dy_pos by (auto; lia). unfold canon. cbn [finite_upto].
  destruct (canon_mantissa z ltac:(lia)) as [_ Hd]. split; [reflexivity|lia].
Qed.

Lemma nonneg_upto_div (a b : Z) :
  0 <= a < 2 ^ 53 -> 0 < b < 2 ^ 53 -> nonneg_upto 60 (Z2F a / Z2F b).
Proof.
  intros Ha Hb. unfold nonneg_upto, Z2F.
  rewrite div_spec, !Prim2SF_D2F by (auto; unfold small; lia).
  apply SFdiv_finite_upto; assumption.
Qed.

Lemma nonneg_upto_mul (x y : float) (B1 B2 : Z) :
  nonneg_upto B1 x -> nonneg_upto B2 y -> -1074 <= B1 + B2 + 54 <= 971 ->
  nonneg_upto (B1 + B2 + 54) (x * y).
Proof.
  intros Hx Hy HB. unfold nonneg_upto. rewrite mul_spec.
  apply SFmul_finite_upto; auto using Prim2SF_valid.
Qed.

Lemma Math_round_nonneg (x : float) (B : Z) :
  nonneg_upto B x -> Math_round x = round_half_away x.
Proof.
  unfold nonneg_upto, Math_round, round_half_away.
  destruct (Prim2SF x) as [s|s| |s m e]; cbn [finite_upto]; try reflexivity.
  intros [-> _]. reflexivity.
Qed.

Lemma Math_round_center (p : float) (B : Z) :
  nonneg_upto B p -> B <= 900 -> exists v, is_center (Math_round p) v.
Proof.
  unfold nonneg_upto. intros Hp HB. pose proof (Prim2SF_valid p) as V.
  unfold Math_round. destruct (Prim2SF p) as [s|s| |s m e] eqn:E; cbn [finite_upto] in Hp;
    try contradiction.
  - subst s. exists 0. split; [lia|].
    assert (Ep : p = Z2F 0) by (apply Prim2SF_inj; rewrite E; reflexivity).
    rewrite Ep. split; [reflexivity|]. left. split; [cbn; lia|reflexivity].
  - destruct Hp as [-> He]. apply valid_finite in V as (Dm & Hr & Hc).
    pose proof (digits2_bounds m) as [Mlo Mhi].
    assert (Mhi' : Zpos m < 2 ^ 53).
    { assert (2 ^ Zpos (digits2_pos m) <= 2 ^ 53) by (apply pow2_le; lia). lia. }
    destruct (Z.leb_spec 0 e).
    + exists (Zpos m * 2 ^ e).
      assert (Hd : Zpos (digits2_pos m) = 53) by lia. rewrite Hd in Mlo.
      assert (0 < 2 ^ e) by (apply pow2_pos; lia).
      assert (Hv : 2 ^ 52 <= Zpos m * 2 ^ e).
      { change (2 ^ (53 - 1)) with (2 ^ 52) in Mlo.
        assert (2 ^ 52 * 1 <= Zpos m * 2 ^ e) by (apply Z.mul_le_mono_nonneg; cbn; lia). lia. }
      split; [lia|]. split.
      * unfold F2Z. rewrite E. destruct (Z.leb_spec 0 e); [reflexivity|lia].
      * right. split; [exact Hv|]. exists m, e. split; [exact E|lia].
    + cbn [cond_Zopp]. set (n := (2 * Zpos m + 2 ^ (- e)) / 2 ^ (1 - e)).
      assert (Hpe : 0 < 2 ^ (- e)) by (apply pow2_pos; lia).
      assert (Hpe1 : 2 ^ (1 - e) = 2 * 2 ^ (- e)).
      { replace (1 - e) with (1 + - e) by lia. rewrite pow2_split by lia. reflexivity. }
      assert (Hn : 0 <= n <= 2 ^ 52).
      { unfold n. rewrite Hpe1. split.
        - apply Z.div_pos; lia.
        - apply Z.div_le_upper_bound; [lia|].
          assert (2 ^ 1 <= 2 ^ (- e)) by (apply pow2_le; lia).
          change (2 ^ 1) with 2 in *.
          change (2 ^ 53) with 9007199254740992 in Mhi'. change (2 ^ 52) with 4503599627370496.
          lia. }
      exists n. split; [lia|].
      assert (Hres : (if n =? 0 then zero else Z2F n) = Z2F n).
      { destruct (Z.eqb_spec n 0) as [->|]; reflexivity. }
      rewrite Hres. split.
      * apply F2Z_Z2F. unfold small. change (2 ^ 52) with 4503599627370496 in Hn. cbn. lia.
      * left. split; [lia|reflexivity].
Qed.

(** * Clamped sample coordinates *)

Lemma is_nan_finite (y : float) (s : bool) (m : positive) (e : Z) :
  Prim2SF y = S754_finite s m e -> is_nan y = false.
Proof.
  intros E. unfold is_nan. rewrite FloatAxioms.eqb_spec, E. unfold SFeqb.
  rewrite SFcompare_refl_finite. reflexivity.
Qed.

(** [Math.max(0, Math.min(hi, c + d))] on a rounded centre [c] and an offset
    [d] in {-1, 0, 1} is the clamp of the integers. *)
Lemma clamp_center (c : float) (v hi d : Z) :
  is_center c v -> 0 <= hi < 2 ^ 51 -> -1 <= d <= 1 ->
  Math_max 0 (Math_min (Z2F hi) (c + Z2F d)) = Z2F (clampZ 0 hi (v + d)).
Proof.
  intros (Hv & Hf & Hc) Hhi Hd. change (2 ^ 51) with 2251799813685248 in Hhi.
  assert (Shi : small hi) by (unfold small; cbn; lia).
  change 0%float with (Z2F 0). unfold clampZ.
  destruct Hc as [[Hv52 ->] | [Hv52 (m & e & E & He)]];
    change (2 ^ 52) with 4503599627370496 in Hv52.
  - unfold Z2F. rewrite D2F_add by (auto; unfold small; cbn; lia).
    rewrite Math_min_D2F, Math_max_D2F by (auto; unfold small; cbn; lia). reflexivity.
  - pose proof (Prim2SF_valid c) as V. rewrite E in V.
    destruct (SFadd_big m e d V He Hd) as (m' & e' & Eadd & He').
    assert (Ey : Prim2SF (c + Z2F d) = S754_finite false m' e').
    { rewrite add_spec, E. unfold Z2F. rewrite Prim2SF_D2F by (auto; unfold small; cbn; lia).
      exact Eadd. }
    assert (Emin : Math_min (Z2F hi) (c + Z2F d) = Z2F hi).
    { unfold Math_min. unfold Z2F at 1. rewrite D2F_is_nan by auto.
      rewrite (is_nan_finite _ _ _ _ Ey). cbn [orb].
      rewrite FloatAxioms.ltb_spec, Ey. unfold Z2F at 1. rewrite Prim2SF_D2F by auto.
      unfold SFltb. rewrite SFcompare_small_big by (cbn; lia). reflexivity. }
    rewrite Emin. unfold Z2F. rewrite Math_max_D2F by (auto; unfold small; cbn; lia).
    f_equal. lia.
Qed.

Section Taps.
Variables (pixels : list Z) (w h : Z).
Hypothesis Hw : 1 <= w.
Hypothesis Hh : 1 <= h.
Hypothesis Hlen : 4 * w * h < 2 ^ 53.

Let Hw51 : w < 2 ^ 51.
Proof. change (2 ^ 51) with 2251799813685248. change (2 ^ 53) with 9007199254740992 in Hlen. nia. Qed.
Let Hh51 : h < 2 ^ 51.
Proof. change (2 ^ 51) with 2251799813685248. change (2 ^ 53) with 9007199254740992 in Hlen. nia. Qed.

Lemma sampleX_exact (c : float) (v d : Z) :
  is_center c v -> -1 <= d <= 1 ->
  sampleX (Z2F w) c d = Z2F (clampZ 0 (w - 1) (v + d)).
Proof.
  intros Hc Hd. unfold sampleX. change 1%float with (Z2F 1). unfold Z2F at 1 2.
  change (2 ^ 51) with 2251799813685248 in Hw51.
  rewrite D2F_sub by (auto; unfold small; cbn; lia).
  apply clamp_center; auto. cbn; lia.
Qed.

Lemma sampleY_exact (c : float) (v d : Z) :
  is_center c v -> -1 <= d <= 1 ->
  sampleY (Z2F h) c d = Z2F (clampZ 0 (h - 1) (v + d)).
Proof.
  intros Hc Hd. unfold sampleY. change 1%float with (Z2F 1). unfold Z2F at 1 2.
  change (2 ^ 51) with 2251799813685248 in Hh51.
  rewrite D2F_sub by (auto; unfold small; cbn; lia).
  apply clamp_center; auto. cbn; lia.
Qed.

Lemma tapIndex_bounds (vx vy dx dy : Z) :
  0 <= tapIndex w h vx vy dx dy /\ tapIndex w h vx vy dx dy + 3 < 4 * w * h /\
  tapIndex w h vx vy dx dy mod 4 = 0.
Proof.
  unfold tapIndex, clampZ.
  set (sy := Z.max 0 (Z.min (h - 1) (vy + dy))). set (sx := Z.max 0 (Z.min (w - 1) (vx + dx))).
  assert (0 <= sy <= h - 1) by (unfold sy; lia). assert (0 <= sx <= w - 1) by (unfold sx; lia).
  assert (sy * w <= (h - 1) * w) by (apply Z.mul_le_mono_nonneg_r; lia).
  assert (0 <= sy * w) by (apply Z.mul_nonneg_nonneg; lia).
  split; [lia|]. split; [lia|]. apply Z.mod_mul; lia.
Qed.

Lemma pixelIndex_exact (cx cy : float) (vx vy dx dy : Z) :
  is_center cx vx -> is_center cy vy -> -1 <= dx <= 1 -> -1 <= dy <= 1 ->
  pixelIndex (Z2F w) (Z2F h) cx cy dx dy = Z2F (tapIndex w h vx vy dx dy).
Proof.
  intros Hcx Hcy Hdx Hdy. unfold pixelIndex.
  rewrite (sampleX_exact cx vx dx), (sampleY_exact cy vy dy) by assumption.
  pose proof (tapIndex_bounds vx vy dx dy) as (B0 & B1 & _). unfold tapIndex in *.
  set (sy := clampZ 0 (h - 1) (vy + dy)) in *. set (sx := clampZ 0 (w - 1) (vx + dx)) in *.
  assert (0 <= sy <= h - 1) by (unfold sy, clampZ; lia).
  assert (0 <= sx <= w - 1) by (unfold sx, clampZ; lia).
  assert (0 <= sy * w) by (apply Z.mul_nonneg_nonneg; lia).
  change (2 ^ 53) with 9007199254740992 in *. change (2 ^ 51) with 2251799813685248 in *.
  change 4%float with (Z2F 4). unfold Z2F.
  rewrite D2F_mul by (auto; cbn; lia). cbn [Z.add].
  rewrite D2F_add by (auto; unfold small; cbn; lia).
  rewrite D2F_mul by (auto; cbn; lia). reflexivity.
Qed.
End Taps.

(** * Reads of the source buffer *)

Lemma typed_get_Z2F (a : list Z) (i : Z) :
  0 <= i < 2 ^ 53 -> typed_get a (Z2F i) = a !! Z.to_nat i.
Proof.
  intros Hi. unfold typed_get. rewrite F2Z_Z2F by (unfold small; lia).
  destruct (Z.leb_spec 0 i); [reflexivity|lia].
Qed.

Lemma Z2F_add (a b : Z) : small a -> small b -> small (a + b) -> (Z2F a + Z2F b)%float = Z2F (a + b).
Proof. intros; unfold Z2F; apply D2F_add; auto. Qed.

Lemma Math_round_D2F (z k : Z) :
  0 <= z < 2 ^ 53 -> 1 <= k <= 900 ->
  Math_round (D2F z k) = Z2F ((z + 2 ^ (k - 1)) / 2 ^ k).
Proof.
  intros Hz Hk. assert (K : krange k) by (unfold krange; lia).
  assert (Pk : 0 < 2 ^ (k - 1)) by (apply pow2_pos; lia).
  assert (Ek : 2 ^ k = 2 * 2 ^ (k - 1)).
  { replace k with (1 + (k - 1)) at 1 by lia. rewrite pow2_split by lia. reflexivity. }
  unfold Math_round. rewrite Prim2SF_D2F by (auto; unfold small; lia).
  destruct (Z.eq_dec z 0) as [->|Hz0].
  - cbn [dyadic binary_normalize]. rewrite Z.add_0_l, Z.div_small by lia. reflexivity.
  - rewrite dy_pos by (auto; lia). unfold canon.
    destruct (canon_mantissa z ltac:(lia)) as [Hm Hd].
    destruct (Zdigits2_pos_bounds z ltac:(lia)) as [_ Hd1].
    change (2 ^ 52) with 4503599627370496 in Hm.
    rewrite Z2Pos.id by lia. set (j := 53 - Zdigits2 z) in *.
    destruct (Z.leb_spec 0 (Zdigits2 z - 53 - k)); [lia|].
    cbn [cond_Zopp].
    assert (Pj : 0 < 2 ^ j) by (apply pow2_pos; unfold j; lia).
    replace (- (Zdigits2 z - 53 - k)) with (k + j) by (unfold j; lia).
    replace (1 - (Zdigits2 z - 53 - k)) with (k + j + 1) by (unfold j; lia).
    rewrite (pow2_split (k + j) 1), (pow2_split k j) by (unfold j; lia).
    change (2 ^ 1) with 2.
    replace (2 * (z * 2 ^ j) + 2 ^ k * 2 ^ j) with ((2 * z + 2 ^ k) * 2 ^ j) by ring.
    replace (2 ^ k * 2 ^ j * 2) with ((2 ^ k * 2) * 2 ^ j) by ring.
    rewrite Z.div_mul_cancel_r by lia.
    assert (En : (2 * z + 2 ^ k) / (2 ^ k * 2) = (z + 2 ^ (k - 1)) / 2 ^ k).
    { rewrite Ek at 1. replace (2 * z + 2 * 2 ^ (k - 1)) with ((z + 2 ^ (k - 1)) * 2) by ring.
      apply Z.div_mul_cancel_r; lia. }
    rewrite En.
    destruct (Z.eqb_spec ((z + 2 ^ (k - 1)) / 2 ^ k) 0) as [->|]; reflexivity.
Qed.

(** Side conditions of the exact-arithmetic lemmas. *)
Ltac exact_side :=
  first [ assumption | apply krange_0 | unfold krange; lia
        | unfold small; change (2 ^ 53) with 9007199254740992; first [lia | nia]
        | change (2 ^ 53) with 9007199254740992; first [lia | nia] ].

(** * The weighted sums *)

Lemma source_read (pixels : list Z) (w h i : Z) :
  source_ok pixels w h -> 0 <= i < 4 * w * h ->
  pixels !! Z.to_nat i = Some (texel pixels i) /\ 0 <= texel pixels i <= 255.
Proof.
  intros (_ & _ & _ & Hlen & Hb) Hi. unfold texel.
  destruct (lookup_lt_is_Some_2 pixels (Z.to_nat i) ltac:(lia)) as [v Hv].
  rewrite Hv. cbn. split; [reflexivity|].
  exact (Forall_lookup_1 _ _ _ _ Hb Hv).
Qed.

Section Sums.
Variables (pixels : list Z) (w h : Z).
Hypothesis Hsrc : source_ok pixels w h.
Variables (cx cy : float) (vx vy : Z).
Hypothesis Hcx : is_center cx vx.
Hypothesis Hcy : is_center cy vy.

Lemma weight16_range (d : Z * Z) : 1 <= weight16 d <= 8.
Proof. destruct d as [dy dx]. unfold weight16. destruct (_ && _); lia. Qed.

Lemma weight_exact (dy dx : Z) :
  (if (dx =? 0) && (dy =? 0) then centerWeight else outerWeight) = D2F (weight16 (dy, dx)) 4.
Proof. unfold weight16. destruct (_ && _); reflexivity. Qed.

Lemma sample_exact (Sr Sg Sb Sw : Z) (d : Z * Z) :
  in_window d ->
  0 <= Sr < 2 ^ 40 -> 0 <= Sg < 2 ^ 40 -> 0 <= Sb < 2 ^ 40 -> 0 <= Sw < 2 ^ 40 ->
  sample pixels (Z2F w) (Z2F h) cx cy (totals16 Sr Sg Sb Sw) d =
  totals16 (Sr + acc16 pixels w h vx vy 0 [d]) (Sg + acc16 pixels w h vx vy 1 [d]) (Sb + acc16 pixels w h vx vy 2 [d]) (Sw + wsum [d]).
Proof.
  destruct d as [dy dx]. intros [Hdy Hdx] HSr HSg HSb HSw. cbn [fst snd] in Hdy, Hdx.
  destruct Hsrc as (Hw & Hh & Hlen & _).
  unfold sample. rewrite (pixelIndex_exact w h Hw Hh Hlen cx cy vx vy dx dy) by assumption.
  pose proof (tapIndex_bounds w h Hw Hh vx vy dx dy) as (B0 & B1 & _).
  set (i := tapIndex w h vx vy dx dy) in *.
  change (2 ^ 53) with 9007199254740992 in Hlen. change (2 ^ 40) with 1099511627776 in *.
  change 1%float with (Z2F 1). change 2%float with (Z2F 2).
  rewrite !Z2F_add by (unfold small; cbn; lia).
  rewrite !typed_get_Z2F by (cbn; lia).
  destruct (source_read pixels w h i Hsrc ltac:(lia)) as [-> Hr].
  destruct (source_read pixels w h (i + 1) Hsrc ltac:(lia)) as [-> Hg].
  destruct (source_read pixels w h (i + 2) Hsrc ltac:(lia)) as [-> Hb].
  rewrite weight_exact. pose proof (weight16_range (dy, dx)) as Hwt.
  assert (K4 : krange 4) by (unfold krange; lia).
  cbn [ToNumber totalR totalG totalB totalWeight totals16]. unfold Z2F.
  rewrite !D2F_mul by exact_side. cbn [Z.add].
  unfold totals16, acc16, wsum. unfold sumZ; cbn [map fold_right fst snd]. fold i.
  rewrite !Z.add_0_r.
  rewrite !D2F_add by exact_side.
  f_equal; f_equal; ring.
Qed.

Lemma acc16_cons (c : Z) (d : Z * Z) (l : list (Z * Z)) :
  acc16 pixels w h vx vy c (d :: l) = acc16 pixels w h vx vy c [d] + acc16 pixels w h vx vy c l.
Proof. unfold acc16. unfold sumZ; cbn [map fold_right]. lia. Qed.

Lemma wsum_cons (d : Z * Z) (l : list (Z * Z)) : wsum (d :: l) = wsum [d] + wsum l.
Proof. unfold wsum. unfold sumZ; cbn [map fold_right]. lia. Qed.

Lemma acc16_one_range (c : Z) (d : Z * Z) :
  in_window d -> 0 <= c <= 2 -> 0 <= acc16 pixels w h vx vy c [d] <= 2040.
Proof.
  intros [Hdy Hdx] Hc. destruct Hsrc as (Hw & Hh & Hlen & _).
  pose proof (tapIndex_bounds w h Hw Hh vx vy (snd d) (fst d)) as (B0 & B1 & _).
  destruct (source_read pixels w h (tapIndex w h vx vy (snd d) (fst d) + c) Hsrc ltac:(lia)) as [_ Hr].
  pose proof (weight16_range d). unfold acc16. unfold sumZ; cbn [map fold_right]. nia.
Qed.

Lemma fold_sample_exact (l : list (Z * Z)) (Sr Sg Sb Sw : Z) :
  Forall in_window l ->
  0 <= Sr -> Sr + 2040 * Z.of_nat (length l) < 2 ^ 40 ->
  0 <= Sg -> Sg + 2040 * Z.of_nat (length l) < 2 ^ 40 ->
  0 <= Sb -> Sb + 2040 * Z.of_nat (length l) < 2 ^ 40 ->
  0 <= Sw -> Sw + 2040 * Z.of_nat (length l) < 2 ^ 40 ->
  fold_left (sample pixels (Z2F w) (Z2F h) cx cy) l (totals16 Sr Sg Sb Sw) =
  totals16 (Sr + acc16 pixels w h vx vy 0 l) (Sg + acc16 pixels w h vx vy 1 l) (Sb + acc16 pixels w h vx vy 2 l) (Sw + wsum l).
Proof.
  revert Sr Sg Sb Sw. induction l as [|d l IH]; intros Sr Sg Sb Sw Hl Hr Hr' Hg Hg' Hb Hb' Hw Hw'.
  - unfold acc16, wsum. unfold sumZ; cbn [map fold_right]. rewrite !Z.add_0_r. reflexivity.
  - apply Forall_cons_1 in Hl as [Hd Hl]. cbn [fold_left].
    cbn [length] in *. rewrite Nat2Z.inj_succ in *.
    pose proof (acc16_one_range 0 d Hd ltac:(lia)).
    pose proof (acc16_one_range 1 d Hd ltac:(lia)).
    pose proof (acc16_one_range 2 d Hd ltac:(lia)).
    assert (1 <= wsum [d] <= 8) by (pose proof (weight16_range d); unfold wsum; unfold sumZ; cbn [map fold_right]; lia).
    rewrite sample_exact by (try assumption; lia).
    rewrite IH by (try assumption; lia).
    rewrite (acc16_cons 0 d l), (acc16_cons 1 d l), (acc16_cons 2 d l), (wsum_cons d l).
    f_equal; ring.
Qed.
End Sums.

(** * The sampler, in integers *)

Lemma window_in_window : Forall in_window window.
Proof. repeat constructor; cbn; lia. Qed.

Lemma acc16_range (pixels : list Z) (w h vx vy c : Z) (l : list (Z * Z)) :
  source_ok pixels w h -> Forall in_window l -> 0 <= c <= 2 ->
  0 <= acc16 pixels w h vx vy c l <= 2040 * Z.of_nat (length l).
Proof.
  intros Hsrc Hl Hc. induction Hl as [|d l Hd Hl IH].
  - unfold acc16, sumZ. cbn. lia.
  - rewrite acc16_cons. pose proof (acc16_one_range pixels w h Hsrc vx vy c d Hd Hc).
    cbn [length]. lia.
Qed.

Lemma centers_exist (w h x y wh hh : Z) :
  0 <= w < 2 ^ 53 -> 0 <= h < 2 ^ 53 -> 0 <= x < 2 ^ 52 -> 0 <= y < 2 ^ 52 ->
  1 <= wh < 2 ^ 53 -> 1 <= hh < 2 ^ 53 ->
  (exists vx, is_center (centerX (Z2F w) (Z2F x) (Z2F y) (Z2F wh)) vx) /\
  (exists vy, is_center (centerY (Z2F h) (Z2F y) (Z2F hh)) vy).
Proof.
  intros Hw Hh Hx Hy Hwh Hhh.
  change (2 ^ 52) with 4503599627370496 in *. change (2 ^ 53) with 9007199254740992 in *.
  split.
  - unfold centerX, preCenterX, scaleX. rewrite stagger_exact by (cbn; lia).
    apply Math_round_center with (B := 0 + 60 + 54); [|lia].
    apply nonneg_upto_mul; [| apply nonneg_upto_div; cbn; lia | lia].
    pose proof (Z.mod_pos_bound y 2 ltac:(lia)).
    apply nonneg_upto_D2F; cbn; lia.
  - unfold centerY, scaleY.
    apply Math_round_center with (B := 0 + 60 + 54); [|lia].
    apply nonneg_upto_mul; [| apply nonneg_upto_div; cbn; lia | lia].
    apply nonneg_upto_D2F; cbn; lia.
Qed.

Lemma Z2F_clamp_byte (n : Z) :
  0 <= n < 2 ^ 52 -> Math_max 0 (Math_min 255 (Z2F n)) = Z2F (clampZ 0 255 n).
Proof.
  intros Hn. change (2 ^ 52) with 4503599627370496 in Hn.
  change 255%float with (Z2F 255). change 0%float with (Z2F 0). unfold Z2F, clampZ.
  rewrite Math_min_D2F, Math_max_D2F by exact_side. reflexivity.
Qed.

Lemma sampleWindow_exact (pixels : list Z) (w h : Z) (cx cy : float) (vx vy : Z) :
  source_ok pixels w h -> is_center cx vx -> is_center cy vy ->
  sampleWindow pixels (Z2F w) (Z2F h) cx cy =
  totals16 (acc16 pixels w h vx vy 0 window) (acc16 pixels w h vx vy 1 window)
           (acc16 pixels w h vx vy 2 window) 16.
Proof.
  intros Hsrc Hcx Hcy. unfold sampleWindow.
  change {| totalR := 0; totalG := 0; totalB := 0; totalWeight := 0 |} with (totals16 0 0 0 0).
  rewrite (fold_sample_exact pixels w h Hsrc cx cy vx vy Hcx Hcy) by
    (try apply window_in_window; cbn; lia).
  reflexivity.
Qed.

Lemma calculateHexagonalPixel_exact (pixels : list Z) (w h x y wh hh vx vy : Z) :
  source_ok pixels w h ->
  is_center (centerX (Z2F w) (Z2F x) (Z2F y) (Z2F wh)) vx ->
  is_center (centerY (Z2F h) (Z2F y) (Z2F hh)) vy ->
  calculateHexagonalPixel pixels (Z2F w) (Z2F h) (Z2F x) (Z2F y) (Z2F wh) (Z2F hh) =
  {| r := Z2F (channel16 pixels w h vx vy 0);
     g := Z2F (channel16 pixels w h vx vy 1);
     b := Z2F (channel16 pixels w h vx vy 2) |}.
Proof.
  intros Hsrc Hcx Hcy. unfold calculateHexagonalPixel.
  rewrite (sampleWindow_exact pixels w h _ _ vx vy Hsrc Hcx Hcy).
  pose proof (acc16_range pixels w h vx vy 0 window Hsrc window_in_window ltac:(lia)) as Hr.
  pose proof (acc16_range pixels w h vx vy 1 window Hsrc window_in_window ltac:(lia)) as Hg.
  pose proof (acc16_range pixels w h vx vy 2 window Hsrc window_in_window ltac:(lia)) as Hb.
  change (Z.of_nat (length window)) with 9 in Hr, Hg, Hb.
  set (Sr := acc16 pixels w h vx vy 0 window) in *.
  set (Sg := acc16 pixels w h vx vy 1 window) in *.
  set (Sb := acc16 pixels w h vx vy 2 window) in *.
  unfold totals16. cbn [totalR totalG totalB totalWeight].
  change (D2F 16 4) with 1%float.
  change (0 <? 1)%float with true. cbn [totalR totalG totalB totalWeight].
  rewrite !D2F_div_one by exact_side.
  rewrite !Math_round_D2F by (try lia; exact_side).
  change (2 ^ (4 - 1)) with 8. change (2 ^ 4) with 16.
  assert (Hq : forall S, 0 <= S <= 2040 * 9 -> 0 <= (S + 8) / 16 < 2 ^ 52).
  { intros S HS. split; [apply Z.div_pos; lia|].
    apply Z.div_lt_upper_bound; [lia|]. change (2 ^ 52) with 4503599627370496. lia. }
  rewrite !Z2F_clamp_byte by (apply Hq; assumption).
  reflexivity.
Qed.

(** * The canvas calls on integral arguments *)

Lemma Prim2SF_Z2F_value (a : Z) :
  0 < a < 2 ^ 53 ->
  exists m e, Prim2SF (Z2F a) = S754_finite false m e /\ e <= 0 /\
              Zpos m = a * 2 ^ (- e) /\ (e = 0 \/ Zpos m mod 2 ^ (- e) = 0).
Proof.
  intros Ha. unfold Z2F. rewrite Prim2SF_D2F by exact_side.
  rewrite dy_pos by exact_side. unfold canon.
  destruct (canon_mantissa a Ha) as [Hm Hd].
  change (2 ^ 52) with 4503599627370496 in Hm.
  eexists _, _. split; [reflexivity|].
  replace (- (Zdigits2 a - 53 - 0)) with (53 - Zdigits2 a) by lia.
  split; [lia|]. rewrite Z2Pos.id by lia. split; [reflexivity|].
  right. apply Z.mod_mul. apply Z.neq_sym, Z.lt_neq, pow2_pos; lia.
Qed.

Lemma EnforceRange_long_Z2F (a : Z) :
  0 <= a < 2 ^ 53 ->
  EnforceRange_long (Z2F a) = if a <=? 2 ^ 31 - 1 then Normal a else Throw TypeError.
Proof.
  intros Ha. destruct (Z.eq_dec a 0) as [->|Ha0]; [reflexivity|].
  destruct (Prim2SF_Z2F_value a ltac:(lia)) as (m & e & E & He & Hm & _).
  unfold EnforceRange_long. rewrite E. cbn [cond_Zopp].
  assert (Hp : 0 < 2 ^ (- e)) by (apply pow2_pos; lia).
  assert (Hn : (if 0 <=? e then Zpos m * 2 ^ e else Zpos m / 2 ^ (- e)) = a).
  { destruct (Z.leb_spec 0 e).
    - replace e with 0 in * by lia. cbn in Hm |- *. lia.
    - rewrite Hm. apply Z.div_mul. lia. }
  rewrite Hn.
  replace (- 2 ^ 31 <=? a) with true by (symmetry; apply Z.leb_le; cbn; lia).
  reflexivity.
Qed.

Lemma createImageData_Z2F (a b : Z) :
  0 <= a < 2 ^ 53 -> 0 <= b < 2 ^ 53 ->
  createImageData (Z2F a) (Z2F b) =
    if (a <=? 2 ^ 31 - 1) && (b <=? 2 ^ 31 - 1) then
      if (a =? 0) || (b =? 0) then Throw IndexSizeError
      else if maxByteLength <? 4 * a * b then Throw RangeError
      else Normal {| width := a; height := b; data := replicate (Z.to_nat (4 * a * b)) 0 |}
    else Throw TypeError.
Proof.
  intros Ha Hb. unfold createImageData. rewrite !EnforceRange_long_Z2F by assumption.
  destruct (a <=? 2 ^ 31 - 1), (b <=? 2 ^ 31 - 1); cbn [andb]; try reflexivity.
  rewrite !Z.abs_eq by lia. reflexivity.
Qed.

Lemma upto_Z2F (n : Z) : 0 <= n < 2 ^ 53 -> upto (Z2F n) = seqZ 0 n.
Proof. intros Hn. unfold upto. rewrite F2Z_Z2F by exact_side. reflexivity. Qed.

Lemma ToUint8Clamp_Z2F (n : Z) : 0 <= n <= 255 -> ToUint8Clamp (Z2F n) = n.
Proof.
  intros Hn. destruct (Z.eq_dec n 0) as [->|Hn0]; [reflexivity|].
  destruct (Prim2SF_Z2F_value n ltac:(cbn; lia)) as (m & e & E & He & Hm & Hmod).
  unfold ToUint8Clamp. rewrite E.
  assert (Hp : 0 < 2 ^ (- e)) by (apply pow2_pos; lia).
  destruct (Z.leb_spec 0 e).
  - replace e with 0 in * by lia. cbn in Hm |- *. lia.
  - destruct Hmod as [|Hmod]; [lia|].
    rewrite rne_exact by (try lia; assumption).
    rewrite Hm, Z.div_mul by lia. lia.
Qed.

Lemma typed_set_Z2F (a : list Z) (i : Z) (v : float) :
  0 <= i < 2 ^ 53 -> typed_set a (Z2F i) v = <[Z.to_nat i := ToUint8Clamp v]> a.
Proof.
  intros Hi. unfold typed_set. rewrite F2Z_Z2F by exact_side.
  destruct (Z.leb_spec 0 i); [reflexivity|lia].
Qed.

Lemma typed_set_length (a : list Z) (i v : float) : length (typed_set a i v) = length a.
Proof.
  unfold typed_set. destruct (F2Z i) as [n|]; [|reflexivity].
  destruct (0 <=? n); [apply length_insert|reflexivity].
Qed.

(** * The buffer writer *)

Lemma elem_of_grid (wh hh : Z) (p : Z * Z) :
  0 <= wh < 2 ^ 53 -> 0 <= hh < 2 ^ 53 ->
  p ∈ grid (Z2F wh) (Z2F hh) <-> in_grid wh hh p.
Proof.
  intros Hw Hh. unfold grid, in_grid. rewrite !upto_Z2F by assumption.
  rewrite list_elem_of_bind. split.
  - intros (y & Hp & Hy). apply list_elem_of_bind in Hp as (x & Hp & Hx).
    apply list_elem_of_singleton in Hp as ->. cbn.
    apply elem_of_seqZ in Hy, Hx. lia.
  - intros [Hx Hy]. exists (snd p). split; [|apply elem_of_seqZ; lia].
    apply list_elem_of_bind. exists (fst p). split; [|apply elem_of_seqZ; lia].
    destruct p. apply list_elem_of_singleton. reflexivity.
Qed.

Section Writes.
Variables (pixels : list Z) (W H hexHeight : float) (wh hh : Z).
Hypothesis Hwh : 0 <= wh.
Hypothesis Hhh : 0 <= hh.
Hypothesis Hlen : 4 * wh * hh < 2 ^ 53.

Lemma slot_bounds (p : Z * Z) : in_grid wh hh p -> 0 <= slot wh p /\ slot wh p < wh * hh.
Proof.
  intros [Hx Hy]. unfold slot.
  assert (0 <= snd p * wh) by (apply Z.mul_nonneg_nonneg; lia).
  assert (snd p * wh <= (hh - 1) * wh) by (apply Z.mul_le_mono_nonneg_r; lia).
  lia.
Qed.

Lemma slot_inj (p q : Z * Z) : in_grid wh hh p -> in_grid wh hh q -> slot wh p = slot wh q -> p = q.
Proof.
  intros [Hpx Hpy] [Hqx Hqy] E. unfold slot in E. destruct p as [px py], q as [qx qy].
  cbn [fst snd] in *.
  assert (py = qy) by nia. subst. f_equal. lia.
Qed.

Lemma writePixel_eq (buf : list Z) (p : Z * Z) :
  in_grid wh hh p ->
  writePixel pixels W H (Z2F wh) hexHeight buf p =
  <[Z.to_nat (slot wh p * 4 + 3) := hexBytes pixels W H (Z2F wh) hexHeight p 3]>
    (<[Z.to_nat (slot wh p * 4 + 2) := hexBytes pixels W H (Z2F wh) hexHeight p 2]>
      (<[Z.to_nat (slot wh p * 4 + 1) := hexBytes pixels W H (Z2F wh) hexHeight p 1]>
        (<[Z.to_nat (slot wh p * 4) := hexBytes pixels W H (Z2F wh) hexHeight p 0]> buf))).
Proof.
  intros Hp. pose proof (slot_bounds p Hp) as [S0 S1]. destruct Hp as [Hx Hy].
  destruct p as [x y]. unfold slot in *. cbn [fst snd] in *.
  assert (4 * (y * wh + x) + 3 < 4 * wh * hh) by lia.
  assert (0 <= y * wh) by (apply Z.mul_nonneg_nonneg; lia).
  change (2 ^ 53) with 9007199254740992 in Hlen.
  assert (wh < 9007199254740992 /\ hh < 9007199254740992) as [Hwh' Hhh'] by nia.
  assert (Eidx : ((Z2F y * Z2F wh + Z2F x) * 4)%float = Z2F ((y * wh + x) * 4)).
  { change 4%float with (Z2F 4). unfold Z2F.
    rewrite D2F_mul by exact_side. cbn [Z.add].
    rewrite D2F_add by exact_side.
    rewrite D2F_mul by exact_side. reflexivity. }
  unfold writePixel. cbv zeta. rewrite Eidx.
  change 1%float with (Z2F 1). change 2%float with (Z2F 2). change 3%float with (Z2F 3).
  rewrite !Z2F_add by exact_side.
  rewrite !typed_set_Z2F by exact_side.
  change (ToUint8Clamp 255) with 255.
  unfold hexBytes. cbv beta iota zeta. cbn [fst snd]. reflexivity.
Qed.

Lemma writePixel_length (buf : list Z) (p : Z * Z) (hexWidth : float) :
  length (writePixel pixels W H hexWidth hexHeight buf p) = length buf.
Proof. destruct p. unfold writePixel. rewrite !typed_set_length. reflexivity. Qed.

Lemma fill_length (order : list (Z * Z)) (buf : list Z) (hexWidth : float) :
  length (fill pixels W H hexWidth hexHeight order buf) = length buf.
Proof.
  revert buf. induction order as [|p order IH]; intros buf; [reflexivity|].
  cbn [fill fold_left]. unfold fill in IH. rewrite IH. apply writePixel_length.
Qed.

(** A write changes exactly the four bytes of its own pixel. *)
Lemma writePixel_lookup (buf : list Z) (p : Z * Z) (j : nat) :
  in_grid wh hh p -> Z.of_nat (length buf) = 4 * wh * hh ->
  writePixel pixels W H (Z2F wh) hexHeight buf p !! j =
  if Z.of_nat j / 4 =? slot wh p
  then (if decide (j < length buf)%nat
        then Some (hexBytes pixels W H (Z2F wh) hexHeight p (Z.of_nat j mod 4)) else None)
  else buf !! j.
Proof.
  intros Hp Hbuf. rewrite writePixel_eq by assumption.
  pose proof (slot_bounds p Hp) as [S0 S1]. set (k := slot wh p) in *.
  pose proof (Z.div_mod (Z.of_nat j) 4 ltac:(lia)) as Hdm.
  pose proof (Z.mod_pos_bound (Z.of_nat j) 4 ltac:(lia)) as Hmod.
  destruct (Z.eqb_spec (Z.of_nat j / 4) k) as [E|E].
  - assert (Hj : (j < length buf)%nat) by lia.
    destruct (decide (j < length buf)%nat); [|lia].
    assert (Hc : Z.of_nat j mod 4 = 0 \/ Z.of_nat j mod 4 = 1 \/
                 Z.of_nat j mod 4 = 2 \/ Z.of_nat j mod 4 = 3) by lia.
    destruct Hc as [Hc|[Hc|[Hc|Hc]]]; rewrite Hc.
    + rewrite !list_lookup_insert_ne by lia.
      replace (Z.to_nat (k * 4)) with j by lia.
      apply list_lookup_insert_eq. lia.
    + rewrite !list_lookup_insert_ne by lia.
      replace (Z.to_nat (k * 4 + 1)) with j by lia.
      apply list_lookup_insert_eq. rewrite !length_insert. lia.
    + rewrite !list_lookup_insert_ne by lia.
      replace (Z.to_nat (k * 4 + 2)) with j by lia.
      apply list_lookup_insert_eq. rewrite !length_insert. lia.
    + replace (Z.to_nat (k * 4 + 3)) with j by lia.
      apply list_lookup_insert_eq. rewrite !length_insert. lia.
  - rewrite !list_lookup_insert_ne by lia. reflexivity.
Qed.

Lemma fill_snoc (order : list (Z * Z)) (p : Z * Z) (buf : list Z) (hexWidth : float) :
  fill pixels W H hexWidth hexHeight (order ++ [p]) buf =
  writePixel pixels W H hexWidth hexHeight (fill pixels W H hexWidth hexHeight order buf) p.
Proof. unfold fill. rewrite fold_left_app. reflexivity. Qed.

(** A pixel that the loops do not visit is left unchanged. *)
Lemma fill_lookup_other (order : list (Z * Z)) (buf : list Z) (j : nat) :
  Forall (in_grid wh hh) order -> Z.of_nat (length buf) = 4 * wh * hh ->
  Forall (fun p => slot wh p <> Z.of_nat j / 4) order ->
  fill pixels W H (Z2F wh) hexHeight order buf !! j = buf !! j.
Proof.
  intros Hord Hbuf Hne. induction order as [|p order IH] using rev_ind; [reflexivity|].
  apply Forall_app in Hord as [Hord Hp]. apply Forall_inv in Hp.
  apply Forall_app in Hne as [Hne Hnp]. apply Forall_inv in Hnp.
  rewrite fill_snoc.
  rewrite writePixel_lookup by (try assumption; rewrite fill_length; assumption).
  destruct (Z.eqb_spec (Z.of_nat j / 4) (slot wh p)); [congruence|]. auto.
Qed.

(** After the loops, a pixel that was visited holds its four bytes, whatever
    the order of the visits. *)
Lemma fill_lookup_visited (order : list (Z * Z)) (buf : list Z) (p : Z * Z) (c : Z) :
  Forall (in_grid wh hh) order -> Z.of_nat (length buf) = 4 * wh * hh ->
  p ∈ order -> 0 <= c <= 3 ->
  fill pixels W H (Z2F wh) hexHeight order buf !! Z.to_nat (slot wh p * 4 + c) =
  Some (hexBytes pixels W H (Z2F wh) hexHeight p c).
Proof.
  intros Hord Hbuf Hin Hc. induction order as [|q order IH] using rev_ind; [inversion Hin|].
  apply Forall_app in Hord as [Hord Hq]. apply Forall_inv in Hq.
  rewrite fill_snoc.
  rewrite writePixel_lookup by (try assumption; rewrite fill_length; assumption).
  rewrite fill_length.
  assert (Hp : in_grid wh hh p).
  { apply elem_of_app in Hin as [Hin|Hin].
    - rewrite Forall_forall in Hord. auto.
    - apply list_elem_of_singleton in Hin. subst. assumption. }
  pose proof (slot_bounds p Hp) as [S0 S1].
  assert (Ediv : Z.of_nat (Z.to_nat (slot wh p * 4 + c)) / 4 = slot wh p).
  { rewrite Z2Nat.id by lia. symmetry. apply Z.div_unique with (r := c); lia. }
  assert (Emod : Z.of_nat (Z.to_nat (slot wh p * 4 + c)) mod 4 = c).
  { rewrite Z2Nat.id by lia. symmetry. apply Z.mod_unique with (q := slot wh p); lia. }
  rewrite Ediv, Emod.
  destruct (Z.eqb_spec (slot wh p) (slot wh q)) as [E|E].
  - apply slot_inj in E; [|assumption|assumption]. subst q.
    destruct (decide (Z.to_nat (slot wh p * 4 + c) < length buf)%nat); [reflexivity|lia].
  - apply elem_of_app in Hin as [Hin|Hin].
    + rewrite IH by assumption. reflexivity.
    + apply list_elem_of_singleton in Hin. congruence.
Qed.
End Writes.

(** * Runs of the conversion *)

Lemma hexDimensions_Z2F (w h : Z) :
  0 <= w < 2 ^ 48 -> 0 <= h < 2 ^ 48 ->
  hexDimensions (Z2F w) (Z2F h) = (Z2F (17 * w / 20), Z2F (9 * h / 10)).
Proof.
  intros Hw Hh. unfold hexDimensions. rewrite Math_floor_085, Math_floor_09 by assumption.
  reflexivity.
Qed.

Lemma hex_dims_range (w h : Z) :
  0 <= w < 2 ^ 48 -> 0 <= h < 2 ^ 48 ->
  0 <= 17 * w / 20 <= w /\ 0 <= 9 * h / 10 <= h /\ 17 * w / 20 < 2 ^ 53 /\ 9 * h / 10 < 2 ^ 53.
Proof.
  intros Hw Hh. change (2 ^ 48) with 281474976710656 in *. change (2 ^ 53) with 9007199254740992.
  assert (0 <= 17 * w / 20) by (apply Z.div_pos; lia).
  assert (0 <= 9 * h / 10) by (apply Z.div_pos; lia).
  assert (17 * w / 20 <= w) by (apply Z.div_le_upper_bound; lia).
  assert (9 * h / 10 <= h) by (apply Z.div_le_upper_bound; lia).
  lia.
Qed.

Lemma convertInOrder_unfold (schedule : list (Z * Z) -> list (Z * Z)) (pixels : list Z) (w h : Z) :
  0 <= w < 2 ^ 48 -> 0 <= h < 2 ^ 48 ->
  let a := 17 * w / 20 in let b := 9 * h / 10 in
  convertInOrder schedule pixels (Z2F w) (Z2F h) =
    if (a <=? 2 ^ 31 - 1) && (b <=? 2 ^ 31 - 1) then
      if (a =? 0) || (b =? 0) then {| calls := []; outcome := Throw IndexSizeError |}
      else if maxByteLength <? 4 * a * b then {| calls := []; outcome := Throw RangeError |}
      else {| calls := schedule (grid (Z2F a) (Z2F b));
              outcome := Normal {| width := a; height := b;
                data := fill pixels (Z2F w) (Z2F h) (Z2F a) (Z2F b)
                          (schedule (grid (Z2F a) (Z2F b)))
                          (replicate (Z.to_nat (4 * a * b)) 0) |} |}
    else {| calls := []; outcome := Throw TypeError |}.
Proof.
  intros Hw Hh a b. pose proof (hex_dims_range w h Hw Hh) as (Ha & Hb & Ha' & Hb').
  unfold convertInOrder. rewrite hexDimensions_Z2F by assumption. fold a b.
  rewrite createImageData_Z2F by (fold a b; lia).
  destruct ((a <=? 2 ^ 31 - 1) && (b <=? 2 ^ 31 - 1)); [|reflexivity].
  destruct ((a =? 0) || (b =? 0)); [reflexivity|].
  destruct (maxByteLength <? 4 * a * b); reflexivity.
Qed.

Lemma convertToHexagonal_InOrder (pixels : list Z) (W H : float) :
  convertToHexagonal pixels W H = convertInOrder (fun l => l) pixels W H.
Proof. reflexivity. Qed.

(** What a run that completes has produced. *)
Lemma run_normal (schedule : list (Z * Z) -> list (Z * Z)) (pixels : list Z) (w h : Z)
    (img : ImageData) :
  0 <= w < 2 ^ 48 -> 0 <= h < 2 ^ 48 -> (forall l, schedule l ≡ₚ l) ->
  outcome (convertInOrder schedule pixels (Z2F w) (Z2F h)) = Normal img ->
  let a := 17 * w / 20 in let b := 9 * h / 10 in
  1 <= a /\ 1 <= b /\ 4 * a * b < 2 ^ 53 /\
  width img = a /\ height img = b /\ Z.of_nat (length (data img)) = 4 * a * b /\
  forall p c, in_grid a b p -> 0 <= c <= 3 ->
    data img !! Z.to_nat (slot a p * 4 + c) =
    Some (hexBytes pixels (Z2F w) (Z2F h) (Z2F a) (Z2F b) p c).
Proof.
  intros Hw Hh Hsched Hrun a b.
  pose proof (hex_dims_range w h Hw Hh) as (Ha & Hb & Ha' & Hb'). fold a b in Ha, Hb, Ha', Hb'.
  rewrite convertInOrder_unfold in Hrun by assumption. fold a b in Hrun.
  destruct ((a <=? 2 ^ 31 - 1) && (b <=? 2 ^ 31 - 1)); [|discriminate].
  destruct (Z.eqb_spec a 0); [discriminate|]. destruct (Z.eqb_spec b 0); [discriminate|].
  cbn [orb] in Hrun. unfold maxByteLength in Hrun.
  destruct (Z.ltb_spec (2 ^ 53 - 1) (4 * a * b)); [discriminate|].
  cbn [outcome] in Hrun. injection Hrun as <-. cbn [width height data].
  assert (Hlen : 4 * a * b < 2 ^ 53) by lia.
  assert (Hab : 0 <= 4 * a * b) by nia.
  assert (Hbuf : Z.of_nat (length (replicate (Z.to_nat (4 * a * b)) 0)) = 4 * a * b)
    by (rewrite length_replicate; lia).
  split; [lia|]. split; [lia|]. split; [exact Hlen|]. split; [reflexivity|]. split; [reflexivity|].
  split; [rewrite fill_length; exact Hbuf|].
  intros p c Hp Hc.
  apply fill_lookup_visited with (hh := b); try assumption; try lia.
  - apply Forall_forall. intros q Hq. rewrite Hsched in Hq.
    apply elem_of_grid in Hq; [assumption|lia|lia].
  - rewrite Hsched. apply elem_of_grid; [lia|lia|assumption].
Qed.

(** Every index of the output buffer belongs to one output pixel. *)
Lemma slot_decompose (a b : Z) (j : nat) :
  1 <= a -> Z.of_nat j < 4 * a * b ->
  let p := ((Z.of_nat j / 4) mod a, (Z.of_nat j / 4) / a) in
  in_grid a b p /\ j = Z.to_nat (slot a p * 4 + Z.of_nat j mod 4) /\ 0 <= Z.of_nat j mod 4 <= 3.
Proof.
  intros Ha Hj p. set (k := Z.of_nat j / 4).
  pose proof (Z.div_mod (Z.of_nat j) 4 ltac:(lia)) as Hdm. fold k in Hdm.
  pose proof (Z.mod_pos_bound (Z.of_nat j) 4 ltac:(lia)) as Hc.
  pose proof (Z.div_mod k a ltac:(lia)) as Hdk.
  pose proof (Z.mod_pos_bound k a ltac:(lia)) as Hx.
  assert (Hk : 0 <= k < a * b) by (unfold k; split; [apply Z.div_pos; lia | apply Z.div_lt_upper_bound; lia]).
  assert (Hy : 0 <= k / a < b).
  { split; [apply Z.div_pos; lia | apply Z.div_lt_upper_bound; lia]. }
  unfold p, in_grid, slot. cbn [fst snd]. fold k. split; [lia|]. split; [|lia]. lia.
Qed.

(** * Values as rationals *)

Lemma Qpow2_nonzero (e : Z) : ~ ((2 # 1) ^ e == 0)%Q.
Proof. apply Qpower_not_0. discriminate. Qed.

Lemma Qpow2_inject (j : Z) : 0 <= j -> (inject_Z (2 ^ j) == (2 # 1) ^ j)%Q.
Proof. intros Hj. rewrite Zpower_Qpower by assumption. reflexivity. Qed.

Lemma F2Q_D2F (z k : Z) :
  small z -> krange k -> (F2Q (D2F z k) == inject_Z z / (2 # 1) ^ k)%Q.
Proof.
  intros Hz Hk. unfold F2Q. rewrite Prim2SF_D2F by assumption.
  destruct (Z.eq_dec z 0) as [->|Hz0].
  - cbn [dyadic binary_normalize]. unfold Qdiv. rewrite Qmult_0_l. reflexivity.
  - rewrite dy_canon by assumption. unfold canon.
    destruct (canon_mantissa (Z.abs z) ltac:(unfold small in Hz; lia)) as [Hm Hd].
    destruct (Zdigits2_pos_bounds (Z.abs z) ltac:(lia)) as [_ Hd1].
    change (2 ^ 52) with 4503599627370496 in Hm.
    rewrite Z2Pos.id by lia. set (j := 53 - Zdigits2 (Z.abs z)) in *.
    assert (Ez : cond_Zopp (z <? 0) (Z.abs z * 2 ^ j) = z * 2 ^ j).
    { rewrite <- (cond_Zopp_abs z) at 3. destruct (z <? 0); cbn [cond_Zopp]; lia. }
    rewrite Ez, inject_Z_mult, Qpow2_inject by (unfold j; lia).
    replace (Zdigits2 (Z.abs z) - 53 - k) with (- j + - k) by (unfold j; lia).
    rewrite Qpower_plus by discriminate.
    rewrite !Qpower_opp. field. split; apply Qpow2_nonzero.
Qed.

Lemma Qfloor_times (W : Z) (n : Z) (d : positive) :
  Qfloor (inject_Z W * (n # d)) = W * n / Zpos d.
Proof. unfold Qfloor, inject_Z, Qmult. cbn [Qnum Qden]. rewrite Pos.mul_1_l. reflexivity. Qed.

(** * The sampler's formula in exact arithmetic *)






(** * Sources that differ only in alpha, and uniform sources *)

Lemma source_ok_shape (pixels : list Z) (w h : Z) : source_ok pixels w h -> source_shape pixels w h.
Proof. intros (H1 & H2 & H3 & H4 & _). repeat split; assumption. Qed.

Lemma sample_same_rgb (p1 p2 : list Z) (w h : Z) (cx cy : float) (vx vy : Z) (t : totals) (d : Z * Z) :
  source_shape p1 w h -> same_rgb p1 p2 ->
  is_center cx vx -> is_center cy vy -> in_window d ->
  sample p1 (Z2F w) (Z2F h) cx cy t d = sample p2 (Z2F w) (Z2F h) cx cy t d.
Proof.
  intros (Hw & Hh & Hlen & _) [_ Hagree] Hcx Hcy [Hdy Hdx]. destruct d as [dy dx].
  cbn [fst snd] in Hdy, Hdx. unfold sample.
  rewrite (pixelIndex_exact w h Hw Hh Hlen cx cy vx vy dx dy) by assumption.
  pose proof (tapIndex_bounds w h Hw Hh vx vy dx dy) as (B0 & B1 & Bm).
  set (i := tapIndex w h vx vy dx dy) in *.
  change (2 ^ 53) with 9007199254740992 in Hlen.
  change 1%float with (Z2F 1). change 2%float with (Z2F 2).
  rewrite !Z2F_add by exact_side.
  rewrite !typed_get_Z2F by (cbn; lia).
  assert (E0 : p1 !! Z.to_nat i = p2 !! Z.to_nat i).
  { apply Hagree. rewrite Z2Nat.id by lia. clear -Bm. Z.div_mod_to_equations. lia. }
  assert (E1 : p1 !! Z.to_nat (i + 1) = p2 !! Z.to_nat (i + 1)).
  { apply Hagree. rewrite Z2Nat.id by lia. clear -Bm. Z.div_mod_to_equations. lia. }
  assert (E2 : p1 !! Z.to_nat (i + 2) = p2 !! Z.to_nat (i + 2)).
  { apply Hagree. rewrite Z2Nat.id by lia. clear -Bm. Z.div_mod_to_equations. lia. }
  rewrite E0, E1, E2. reflexivity.
Qed.

Lemma calculateHexagonalPixel_same_rgb (p1 p2 : list Z) (w h x y wh hh : Z) :
  source_shape p1 w h -> same_rgb p1 p2 ->
  0 <= x < 2 ^ 52 -> 0 <= y < 2 ^ 52 -> 1 <= wh < 2 ^ 53 -> 1 <= hh < 2 ^ 53 ->
  calculateHexagonalPixel p1 (Z2F w) (Z2F h) (Z2F x) (Z2F y) (Z2F wh) (Z2F hh) =
  calculateHexagonalPixel p2 (Z2F w) (Z2F h) (Z2F x) (Z2F y) (Z2F wh) (Z2F hh).
Proof.
  intros Hs Hagree Hx Hy Hwh Hhh.
  pose proof Hs as (Hw & Hh & Hlen & _).
  assert (Hw53 : 0 <= w < 2 ^ 53 /\ 0 <= h < 2 ^ 53).
  { change (2 ^ 53) with 9007199254740992 in *. nia. }
  destruct (centers_exist w h x y wh hh) as [[vx Hcx] [vy Hcy]]; try tauto.
  unfold calculateHexagonalPixel.
  assert (E : sampleWindow p1 (Z2F w) (Z2F h) (centerX (Z2F w) (Z2F x) (Z2F y) (Z2F wh))
                (centerY (Z2F h) (Z2F y) (Z2F hh)) =
              sampleWindow p2 (Z2F w) (Z2F h) (centerX (Z2F w) (Z2F x) (Z2F y) (Z2F wh))
                (centerY (Z2F h) (Z2F y) (Z2F hh))).
  { unfold sampleWindow.
    generalize {| totalR := 0; totalG := 0; totalB := 0; totalWeight := 0 |}.
    pose proof window_in_window as Hwin. revert Hwin.
    generalize window. intros l Hl. induction Hl as [|d l Hd Hl IH]; intros t; [reflexivity|].
    cbn [fold_left]. rewrite (sample_same_rgb p1 p2 w h _ _ vx vy t d) by assumption.
    apply IH. }
  rewrite E. reflexivity.
Qed.

Lemma fill_same_rgb (p1 p2 : list Z) (w h a b : Z) (order : list (Z * Z)) (buf : list Z) :
  source_shape p1 w h -> same_rgb p1 p2 -> 1 <= a < 2 ^ 52 -> 1 <= b < 2 ^ 52 ->
  Forall (in_grid a b) order ->
  fill p1 (Z2F w) (Z2F h) (Z2F a) (Z2F b) order buf =
  fill p2 (Z2F w) (Z2F h) (Z2F a) (Z2F b) order buf.
Proof.
  intros Hs Hagree Ha Hb Hord. revert buf.
  change (2 ^ 52) with 4503599627370496 in *.
  induction Hord as [|[x y] order [Hx Hy] Hord IH]; intros buf; [reflexivity|].
  cbn [fst snd] in Hx, Hy.
  assert (E : writePixel p1 (Z2F w) (Z2F h) (Z2F a) (Z2F b) buf (x, y) =
              writePixel p2 (Z2F w) (Z2F h) (Z2F a) (Z2F b) buf (x, y)).
  { unfold writePixel.
    rewrite (calculateHexagonalPixel_same_rgb p1 p2 w h x y a b) by (try assumption; cbn; lia).
    reflexivity. }
  unfold fill in *. cbn [fold_left].
  exact (eq_trans (f_equal (fold_left _ order) E) (IH _)).
Qed.

Lemma acc16_constant (pixels : list Z) (w h vx vy c C : Z) (l : list (Z * Z)) :
  (forall d, texel pixels (tapIndex w h vx vy (snd d) (fst d) + c) = C) ->
  acc16 pixels w h vx vy c l = C * wsum l.
Proof.
  intros HC. induction l as [|d l IH].
  - unfold acc16, wsum, sumZ. cbn. lia.
  - rewrite acc16_cons, wsum_cons, IH. unfold acc16, wsum, sumZ. cbn [map fold_right].
    rewrite HC. ring.
Qed.

Lemma channel16_uniform (pixels : list Z) (w h R G B vx vy : Z) :
  source_ok pixels w h -> uniform pixels w h R G B ->
  channel16 pixels w h vx vy 0 = R /\ channel16 pixels w h vx vy 1 = G /\
  channel16 pixels w h vx vy 2 = B.
Proof.
  intros Hsrc Hu. pose proof Hsrc as (Hw & Hh & Hlen & _).
  assert (Htap : forall d, exists k, 0 <= k < w * h /\ tapIndex w h vx vy (snd d) (fst d) = 4 * k).
  { intros d. pose proof (tapIndex_bounds w h Hw Hh vx vy (snd d) (fst d)) as (B0 & B1 & _).
    unfold tapIndex in *.
    exists (clampZ 0 (h - 1) (vy + fst d) * w + clampZ 0 (w - 1) (vx + snd d)). lia. }
  assert (Hbyte : forall k c, 0 <= k < w * h -> 0 <= c <= 2 -> 0 <= texel pixels (4 * k + c) <= 255).
  { intros k c Hk Hc. apply (source_read pixels w h (4 * k + c) Hsrc). lia. }
  assert (Hone : forall c C, 0 <= c <= 2 -> (forall k, 0 <= k < w * h -> texel pixels (4 * k + c) = C) ->
                 channel16 pixels w h vx vy c = C).
  { intros c C Hc HC. unfold channel16.
    rewrite (acc16_constant pixels w h vx vy c C window).
    - change (wsum window) with 16.
      assert (0 <= C <= 255).
      { rewrite <- (HC 0) by nia. apply Hbyte; [nia|lia]. }
      replace ((C * 16 + 8) / 16) with C by (apply Z.div_unique with (r := 8); lia).
      unfold clampZ. lia.
    - intros d. destruct (Htap d) as (k & Hk & ->). apply HC, Hk. }
  split; [|split].
  - apply Hone; [lia|]. intros k Hk. rewrite Z.add_0_r. apply (Hu k Hk).
  - apply Hone; [lia|]. intros k Hk. apply (Hu k Hk).
  - apply Hone; [lia|]. intros k Hk. apply (Hu k Hk).
Qed.

(** The total weight does not depend on what is read. *)
Lemma totalWeight_fold (pixels : list Z) (W H cx cy : float) (l : list (Z * Z)) (t : totals) :
  totalWeight (fold_left (sample pixels W H cx cy) l t) =
  fold_left (fun a d => (a + weight d)%float) l (totalWeight t).
Proof.
  revert t. induction l as [|[dy dx] l IH]; intros t; [reflexivity|].
  cbn [fold_left]. rewrite IH. reflexivity.
Qed.

Lemma totalWeight_window (pixels : list Z) (W H cx cy : float) :
  totalWeight (sampleWindow pixels W H cx cy) = 1%float.
Proof. unfold sampleWindow. rewrite totalWeight_fold. reflexivity. Qed.

(** Each pass of the sampler's loop reads the clamped tap and adds it. *)
Lemma sample_accumulate (pixels : list Z) (w h : Z) (cx cy : float) (vx vy : Z)
    (t : totals) (d : Z * Z) :
  1 <= w -> 1 <= h -> 4 * w * h < 2 ^ 53 ->
  is_center cx vx -> is_center cy vy -> in_window d ->
  sample pixels (Z2F w) (Z2F h) cx cy t d = accumulate pixels w h vx vy t d.
Proof.
  intros Hw Hh Hlen Hcx Hcy [Hdy Hdx]. destruct d as [dy dx]. cbn [fst snd] in Hdy, Hdx.
  unfold sample, accumulate, readTap, weight. cbn [fst snd].
  rewrite (pixelIndex_exact w h Hw Hh Hlen cx cy vx vy dx dy) by assumption.
  pose proof (tapIndex_bounds w h Hw Hh vx vy dx dy) as (B0 & B1 & _).
  set (i := tapIndex w h vx vy dx dy) in *.
  change 1%float with (Z2F 1). change 2%float with (Z2F 2).
  rewrite !Z2F_add by (unfold small; lia).
  rewrite !typed_get_Z2F by lia. rewrite Z.add_0_r. reflexivity.
Qed.

Lemma sampleWindow_accumulate (pixels : list Z) (w h : Z) (cx cy : float) (vx vy : Z) :
  1 <= w -> 1 <= h -> 4 * w * h < 2 ^ 53 -> is_center cx vx -> is_center cy vy ->
  sampleWindow pixels (Z2F w) (Z2F h) cx cy =
  fold_left (accumulate pixels w h vx vy) window
    {| totalR := 0; totalG := 0; totalB := 0; totalWeight := 0 |}.
Proof.
  intros Hw Hh Hlen Hcx Hcy. unfold sampleWindow.
  generalize {| totalR := 0; totalG := 0; totalB := 0; totalWeight := 0 |}.
  pose proof window_in_window as Hl. induction Hl as [|d l Hd Hl IH]; intros t; [reflexivity|].
  cbn [fold_left]. rewrite (sample_accumulate pixels w h cx cy vx vy t d) by assumption.
  apply IH.
Qed.

(** * The claims *)

(** C1: for every input width W >= 1 and height H >= 1 (an image dimension, here
    any integer below 2^48), the dimension calculation returns exactly
    (floor (W * 0.85), floor (H * 0.9)), the floors being those of the exact
    rational products; it is a function of the two integers only. *)
Theorem C1_dimensions (W H : Z) :
  1 <= W < 2 ^ 48 -> 1 <= H < 2 ^ 48 ->
  hexDimensions (Z2F W) (Z2F H) =
  (Z2F (Qfloor (inject_Z W * (85 # 100))), Z2F (Qfloor (inject_Z H * (9 # 10)))).
Proof.
  intros HW HH. rewrite hexDimensions_Z2F by lia. rewrite !Qfloor_times.
  replace (W * 85) with (17 * W * 5) by ring. change (Zpos 100) with (20 * 5).
  rewrite Z.div_mul_cancel_r by lia.
  replace (H * 9) with (9 * H) by ring. reflexivity.
Qed.

Lemma C1_dimensions_witness :
  hexDimensions (Z2F 10) (Z2F 10) =
  (Z2F (Qfloor (inject_Z 10 * (85 # 100))), Z2F (Qfloor (inject_Z 10 * (9 # 10)))).
Proof. apply (C1_dimensions 10 10); cbn; lia. Defined.

(** C2 as stated fails: on the third column of a 7-pixel-wide source
    (W = 7, Wh = 5, hexX = 1) the sampling centre before Math.round changes, from
    an even to an odd row, by a value that is not exactly 0.5 * scaleX. *)
Lemma C2_counterexample :
  ~ (F2Q (preCenterX (Z2F 7) (Z2F 1) (Z2F 1) (Z2F 5))
     - F2Q (preCenterX (Z2F 7) (Z2F 1) (Z2F 0) (Z2F 5))
     == (1 # 2) * F2Q (scaleX (Z2F 7) (Z2F 5)))%Q.
Proof. vm_compute. discriminate. Qed.

(** C2 (amended): for every output pixel, centerX is the rounding of the
    binary64 product (hexX + (hexY mod 2) * 0.5) * (W / Wh) and centerY that of
    hexY * (H / Hh), Math.round agreeing there with rounding half away from
    zero; the staggered abscissa hexX + (hexY mod 2) * 0.5 is exact, so the
    parity of hexY moves it by exactly 0.5, and the stagger does not enter
    centerY. *)
Theorem C2_mapper (W H Wh Hh hexX hexY : Z) :
  0 <= W < 2 ^ 53 -> 0 <= H < 2 ^ 53 -> 1 <= Wh < 2 ^ 52 -> 1 <= Hh < 2 ^ 52 ->
  0 <= hexX < Wh -> 0 <= hexY < Hh ->
  let stagger := (Z2F (hexY mod 2) * 0.5)%float in
  preCenterX (Z2F W) (Z2F hexX) (Z2F hexY) (Z2F Wh)
    = ((Z2F hexX + stagger) * (Z2F W / Z2F Wh))%float /\
  centerX (Z2F W) (Z2F hexX) (Z2F hexY) (Z2F Wh)
    = round_half_away ((Z2F hexX + stagger) * (Z2F W / Z2F Wh))%float /\
  centerY (Z2F H) (Z2F hexY) (Z2F Hh)
    = round_half_away (Z2F hexY * (Z2F H / Z2F Hh))%float /\
  (F2Q (Z2F hexX + stagger) == inject_Z hexX + inject_Z (hexY mod 2) * (1 # 2))%Q.
Proof.
  intros HW HH HWh HHh Hx Hy stagger.
  change (2 ^ 52) with 4503599627370496 in *. change (2 ^ 53) with 9007199254740992 in *.
  assert (Eoff : hexOffset (Z2F hexY) = stagger).
  { unfold hexOffset, stagger. rewrite Number_rem_2 by (cbn; lia). reflexivity. }
  assert (Epre : preCenterX (Z2F W) (Z2F hexX) (Z2F hexY) (Z2F Wh)
                 = ((Z2F hexX + stagger) * (Z2F W / Z2F Wh))%float).
  { unfold preCenterX, scaleX. rewrite Eoff. reflexivity. }
  assert (Estag : (Z2F hexX + stagger)%float = D2F (2 * hexX + hexY mod 2) 1).
  { rewrite <- Eoff. apply stagger_exact; cbn; lia. }
  pose proof (Z.mod_pos_bound hexY 2 ltac:(lia)) as Hpar.
  split; [exact Epre|]. split; [|split].
  - unfold centerX. rewrite Epre. apply Math_round_nonneg with (B := 0 + 60 + 54).
    rewrite Estag. apply nonneg_upto_mul; [| apply nonneg_upto_div; cbn; lia | lia].
    apply nonneg_upto_D2F; cbn; lia.
  - unfold centerY, scaleY. apply Math_round_nonneg with (B := 0 + 60 + 54).
    apply nonneg_upto_mul; [| apply nonneg_upto_div; cbn; lia | lia].
    apply nonneg_upto_D2F; cbn; lia.
  - rewrite Estag, F2Q_D2F by exact_side.
    rewrite inject_Z_plus, inject_Z_mult. change ((2 # 1) ^ 1)%Q with (2 # 1)%Q.
    change (inject_Z 2) with (2 # 1)%Q. field.
Qed.

Lemma C2_mapper_witness :
  let stagger := (Z2F (1 mod 2) * 0.5)%float in
  preCenterX (Z2F 7) (Z2F 1) (Z2F 1) (Z2F 5)
    = ((Z2F 1 + stagger) * (Z2F 7 / Z2F 5))%float /\
  centerX (Z2F 7) (Z2F 1) (Z2F 1) (Z2F 5)
    = round_half_away ((Z2F 1 + stagger) * (Z2F 7 / Z2F 5))%float /\
  centerY (Z2F 7) (Z2F 1) (Z2F 6)
    = round_half_away (Z2F 1 * (Z2F 7 / Z2F 6))%float /\
  (F2Q (Z2F 1 + stagger) == inject_Z 1 + inject_Z (1 mod 2) * (1 # 2))%Q.
Proof. apply (C2_mapper 7 7 5 6 1 1); cbn; lia. Defined.

Lemma sample2x2_ok : source_ok sample2x2 2 2.
Proof.
  unfold source_ok. repeat split; try (cbn; lia).
  repeat constructor; lia.
Defined.



(** C4: for every source image with W, H >= 1 and every output coordinate,
    each of the nine sample coordinates is the clamp of centre + offset to
    [0, W-1] (resp. [0, H-1]), the index read is (sampleY * W + sampleX) * 4,
    and the three reads at that index are inside the buffer and yield its bytes:
    no tap is read below 0 or beyond the end, or wrapped. None is skipped
    either: each pass of the sampler's loop adds the bytes of its clamped tap
    to the sums with the tap's weight, the loop makes one pass for each of the
    nine offsets, and the colour the sampler returns is computed from the sums
    of those nine clamped taps. *)
Theorem C4_clamped_reads (pixels : list Z) (W H Wh Hh hexX hexY : Z) :
  source_shape pixels W H ->
  1 <= Wh < 2 ^ 53 -> 1 <= Hh < 2 ^ 53 -> 0 <= hexX < 2 ^ 52 -> 0 <= hexY < 2 ^ 52 ->
  let cx := centerX (Z2F W) (Z2F hexX) (Z2F hexY) (Z2F Wh) in
  let cy := centerY (Z2F H) (Z2F hexY) (Z2F Hh) in
  let zero := {| totalR := 0; totalG := 0; totalB := 0; totalWeight := 0 |} in
  exists vx vy, F2Z cx = Some vx /\ F2Z cy = Some vy /\
    (forall dx dy, -1 <= dx <= 1 -> -1 <= dy <= 1 ->
      let sx := clampZ 0 (W - 1) (vx + dx) in
      let sy := clampZ 0 (H - 1) (vy + dy) in
      let i := pixelIndex (Z2F W) (Z2F H) cx cy dx dy in
      sampleX (Z2F W) cx dx = Z2F sx /\ sampleY (Z2F H) cy dy = Z2F sy /\
      0 <= sx <= W - 1 /\ 0 <= sy <= H - 1 /\
      i = Z2F ((sy * W + sx) * 4) /\
      0 <= (sy * W + sx) * 4 /\ (sy * W + sx) * 4 + 3 < Z.of_nat (length pixels) /\
      typed_get pixels i = pixels !! Z.to_nat ((sy * W + sx) * 4) /\
      typed_get pixels (i + 1)%float = pixels !! Z.to_nat ((sy * W + sx) * 4 + 1) /\
      typed_get pixels (i + 2)%float = pixels !! Z.to_nat ((sy * W + sx) * 4 + 2) /\
      is_Some (typed_get pixels i) /\ is_Some (typed_get pixels (i + 1)%float) /\
      is_Some (typed_get pixels (i + 2)%float) /\
      tapIndex W H vx vy dx dy = (sy * W + sx) * 4 /\
      forall t, sample pixels (Z2F W) (Z2F H) cx cy t (dy, dx) =
                accumulate pixels W H vx vy t (dy, dx)) /\
    window = [(-1, -1); (-1, 0); (-1, 1); (0, -1); (0, 0); (0, 1); (1, -1); (1, 0); (1, 1)] /\
    sampleWindow pixels (Z2F W) (Z2F H) cx cy =
      fold_left (accumulate pixels W H vx vy) window zero /\
    calculateHexagonalPixel pixels (Z2F W) (Z2F H) (Z2F hexX) (Z2F hexY) (Z2F Wh) (Z2F Hh) =
      (let T := fold_left (accumulate pixels W H vx vy) window zero in
       {| r := Math_max 0 (Math_min 255 (Math_round (totalR T / totalWeight T)));
          g := Math_max 0 (Math_min 255 (Math_round (totalG T / totalWeight T)));
          b := Math_max 0 (Math_min 255 (Math_round (totalB T / totalWeight T))) |}).
Proof.
  intros (Hw1 & Hh1 & Hlen & Hlength) HWh HHh Hx Hy cx cy zero.
  assert (Hw53 : 0 <= W < 2 ^ 53 /\ 0 <= H < 2 ^ 53).
  { change (2 ^ 53) with 9007199254740992 in *. nia. }
  destruct (centers_exist W H hexX hexY Wh Hh) as [[vx Hcx] [vy Hcy]]; try tauto.
  fold cx in Hcx. fold cy in Hcy.
  exists vx, vy. split; [apply Hcx|]. split; [apply Hcy|].
  pose proof (sampleWindow_accumulate pixels W H cx cy vx vy Hw1 Hh1 Hlen Hcx Hcy) as HS.
  fold zero in HS.
  split; [|split; [reflexivity|split; [exact HS|]]].
  - intros dx dy Hdx Hdy sx sy i.
    pose proof (tapIndex_bounds W H Hw1 Hh1 vx vy dx dy) as (B0 & B1 & _).
    unfold tapIndex in B0, B1. fold sx sy in B0, B1.
    assert (Ei : i = Z2F ((sy * W + sx) * 4)).
    { unfold i. rewrite (pixelIndex_exact W H Hw1 Hh1 Hlen cx cy vx vy dx dy) by assumption.
      reflexivity. }
    assert (G0 : typed_get pixels i = pixels !! Z.to_nat ((sy * W + sx) * 4)).
    { rewrite Ei. apply typed_get_Z2F. lia. }
    assert (G1 : typed_get pixels (i + 1)%float = pixels !! Z.to_nat ((sy * W + sx) * 4 + 1)).
    { rewrite Ei. change 1%float with (Z2F 1). rewrite Z2F_add by exact_side.
      apply typed_get_Z2F. lia. }
    assert (G2 : typed_get pixels (i + 2)%float = pixels !! Z.to_nat ((sy * W + sx) * 4 + 2)).
    { rewrite Ei. change 2%float with (Z2F 2). rewrite Z2F_add by exact_side.
      apply typed_get_Z2F. lia. }
    split; [apply (sampleX_exact W H Hw1 Hh1 Hlen); assumption|].
    split; [apply (sampleY_exact W H Hw1 Hh1 Hlen); assumption|].
    split; [unfold sx, clampZ; lia|]. split; [unfold sy, clampZ; lia|].
    split; [exact Ei|]. split; [lia|]. split; [lia|].
    split; [exact G0|]. split; [exact G1|]. split; [exact G2|].
    rewrite G0, G1, G2.
    split; [apply lookup_lt_is_Some_2; lia|]. split; [apply lookup_lt_is_Some_2; lia|].
    split; [apply lookup_lt_is_Some_2; lia|]. split; [reflexivity|].
    intros t. apply sample_accumulate; try assumption. split; cbn [fst snd]; assumption.
  - pose proof (totalWeight_window pixels (Z2F W) (Z2F H) cx cy) as Hwt.
    unfold calculateHexagonalPixel. fold cx cy.
    assert (Hpos : (0 <? totalWeight (sampleWindow pixels (Z2F W) (Z2F H) cx cy))%float = true)
      by (rewrite Hwt; reflexivity).
    cbv zeta. rewrite Hpos. cbn [totalR totalG totalB]. rewrite HS. reflexivity.
Qed.

Lemma C4_clamped_reads_witness :
  let cx := centerX (Z2F 2) (Z2F 0) (Z2F 0) (Z2F 1) in
  let cy := centerY (Z2F 2) (Z2F 0) (Z2F 1) in
  let zero := {| totalR := 0; totalG := 0; totalB := 0; totalWeight := 0 |} in
  exists vx vy, F2Z cx = Some vx /\ F2Z cy = Some vy /\
    (forall dx dy, -1 <= dx <= 1 -> -1 <= dy <= 1 ->
      let sx := clampZ 0 (2 - 1) (vx + dx) in
      let sy := clampZ 0 (2 - 1) (vy + dy) in
      let i := pixelIndex (Z2F 2) (Z2F 2) cx cy dx dy in
      sampleX (Z2F 2) cx dx = Z2F sx /\ sampleY (Z2F 2) cy dy = Z2F sy /\
      0 <= sx <= 2 - 1 /\ 0 <= sy <= 2 - 1 /\
      i = Z2F ((sy * 2 + sx) * 4) /\
      0 <= (sy * 2 + sx) * 4 /\ (sy * 2 + sx) * 4 + 3 < Z.of_nat (length sample2x2) /\
      typed_get sample2x2 i = sample2x2 !! Z.to_nat ((sy * 2 + sx) * 4) /\
      typed_get sample2x2 (i + 1)%float = sample2x2 !! Z.to_nat ((sy * 2 + sx) * 4 + 1) /\
      typed_get sample2x2 (i + 2)%float = sample2x2 !! Z.to_nat ((sy * 2 + sx) * 4 + 2) /\
      is_Some (typed_get sample2x2 i) /\ is_Some (typed_get sample2x2 (i + 1)%float) /\
      is_Some (typed_get sample2x2 (i + 2)%float) /\
      tapIndex 2 2 vx vy dx dy = (sy * 2 + sx) * 4 /\
      forall t, sample sample2x2 (Z2F 2) (Z2F 2) cx cy t (dy, dx) =
                accumulate sample2x2 2 2 vx vy t (dy, dx)) /\
    window = [(-1, -1); (-1, 0); (-1, 1); (0, -1); (0, 0); (0, 1); (1, -1); (1, 0); (1, 1)] /\
    sampleWindow sample2x2 (Z2F 2) (Z2F 2) cx cy =
      fold_left (accumulate sample2x2 2 2 vx vy) window zero /\
    calculateHexagonalPixel sample2x2 (Z2F 2) (Z2F 2) (Z2F 0) (Z2F 0) (Z2F 1) (Z2F 1) =
      (let T := fold_left (accumulate sample2x2 2 2 vx vy) window zero in
       {| r := Math_max 0 (Math_min 255 (Math_round (totalR T / totalWeight T)));
          g := Math_max 0 (Math_min 255 (Math_round (totalG T / totalWeight T)));
          b := Math_max 0 (Math_min 255 (Math_round (totalB T / totalWeight T))) |}).
Proof.
  apply (C4_clamped_reads sample2x2 2 2 1 1 0 0 (source_ok_shape _ _ _ sample2x2_ok)); cbn; lia.
Defined.

(** The bytes stored for an output pixel, on a well-formed source. *)
Lemma hexBytes_exact (pixels : list Z) (W H wh hh : Z) (p : Z * Z) :
  source_ok pixels W H -> 1 <= wh < 2 ^ 52 -> 1 <= hh < 2 ^ 52 -> in_grid wh hh p ->
  exists vx vy,
    hexBytes pixels (Z2F W) (Z2F H) (Z2F wh) (Z2F hh) p 0 = channel16 pixels W H vx vy 0 /\
    hexBytes pixels (Z2F W) (Z2F H) (Z2F wh) (Z2F hh) p 1 = channel16 pixels W H vx vy 1 /\
    hexBytes pixels (Z2F W) (Z2F H) (Z2F wh) (Z2F hh) p 2 = channel16 pixels W H vx vy 2.
Proof.
  intros Hsrc Ha Hb [Hx Hy]. pose proof Hsrc as (Hw1 & Hh1 & Hlen & _).
  change (2 ^ 52) with 4503599627370496 in *.
  assert (Hw53 : 0 <= W < 2 ^ 53 /\ 0 <= H < 2 ^ 53).
  { change (2 ^ 53) with 9007199254740992 in *. nia. }
  destruct (centers_exist W H (fst p) (snd p) wh hh) as [[vx Hcx] [vy Hcy]];
    try tauto; try (cbn; lia).
  exists vx, vy. unfold hexBytes.
  rewrite (calculateHexagonalPixel_exact pixels W H (fst p) (snd p) wh hh vx vy) by assumption.
  cbn [r g b].
  assert (Hch : forall c, 0 <= channel16 pixels W H vx vy c <= 255)
    by (intros c; unfold channel16, clampZ; lia).
  rewrite !ToUint8Clamp_Z2F by apply Hch. repeat split.
Qed.

(** C5: if every pixel of the source has the same colour (R, G, B), every
    pixel of the output is (R, G, B, 255); a 10x10 solid red source gives an
    8x9 target whose pixels are all (255, 0, 0, 255). *)
Theorem C5_uniform_color :
  (forall (pixels : list Z) (W H R G B : Z) (img : ImageData) (k : Z),
     source_ok pixels W H -> W < 2 ^ 48 -> H < 2 ^ 48 -> uniform pixels W H R G B ->
     outcome (convertToHexagonal pixels (Z2F W) (Z2F H)) = Normal img ->
     0 <= k < width img * height img ->
     data img !! Z.to_nat (4 * k) = Some R /\ data img !! Z.to_nat (4 * k + 1) = Some G /\
     data img !! Z.to_nat (4 * k + 2) = Some B /\ data img !! Z.to_nat (4 * k + 3) = Some 255) /\
  outcome (convertToHexagonal (concat (replicate 100 [255; 0; 0; 255])) (Z2F 10) (Z2F 10)) =
    Normal {| width := 8; height := 9; data := concat (replicate 72 [255; 0; 0; 255]) |}.
Proof.
  split; [|vm_compute; reflexivity].
  intros pixels W H R G B img k Hsrc HW HH Hu Hrun Hk.
  pose proof Hsrc as (Hw1 & Hh1 & Hlen & _).
  rewrite convertToHexagonal_InOrder in Hrun.
  destruct (run_normal (fun l => l) pixels W H img ltac:(lia) ltac:(lia) ltac:(reflexivity) Hrun)
    as (Ha & Hb & Hab & Ew & Eh & El & Hdata).
  rewrite Ew, Eh in Hk.
  set (a := 17 * W / 20) in *. set (b := 9 * H / 10) in *.
  pose proof (hex_dims_range W H ltac:(lia) ltac:(lia)) as (Ra & Rb & _). fold a b in Ra, Rb.
  assert (Ha52 : a < 2 ^ 52 /\ b < 2 ^ 52).
  { change (2 ^ 48) with 281474976710656 in *. change (2 ^ 52) with 4503599627370496. lia. }
  set (p := (k mod a, k / a)).
  assert (Hp : in_grid a b p).
  { unfold p, in_grid. cbn [fst snd]. pose proof (Z.mod_pos_bound k a ltac:(lia)).
    split; [lia|]. split; [apply Z.div_pos; lia | apply Z.div_lt_upper_bound; lia]. }
  assert (Hs : slot a p = k).
  { unfold slot, p. cbn [fst snd]. pose proof (Z.div_mod k a ltac:(lia)). lia. }
  destruct (hexBytes_exact pixels W H a b p Hsrc ltac:(lia) ltac:(lia) Hp) as (vx & vy & E0 & E1 & E2).
  destruct (channel16_uniform pixels W H R G B vx vy Hsrc Hu) as (C0 & C1 & C2).
  pose proof (Hdata p 0 Hp ltac:(lia)) as D0. pose proof (Hdata p 1 Hp ltac:(lia)) as D1.
  pose proof (Hdata p 2 Hp ltac:(lia)) as D2. pose proof (Hdata p 3 Hp ltac:(lia)) as D3.
  rewrite Hs in D0, D1, D2, D3. rewrite Z.add_0_r in D0.
  replace (k * 4) with (4 * k) in D0, D1, D2, D3 by ring.
  rewrite D0, D1, D2, D3, E0, E1, E2, C0, C1, C2. repeat split.
Qed.

Lemma C5_uniform_color_witness :
  data {| width := 8; height := 9; data := concat (replicate 72 [255; 0; 0; 255]) |}
    !! Z.to_nat (4 * 71) = Some 255 /\
  data {| width := 8; height := 9; data := concat (replicate 72 [255; 0; 0; 255]) |}
    !! Z.to_nat (4 * 71 + 1) = Some 0 /\
  data {| width := 8; height := 9; data := concat (replicate 72 [255; 0; 0; 255]) |}
    !! Z.to_nat (4 * 71 + 2) = Some 0 /\
  data {| width := 8; height := 9; data := concat (replicate 72 [255; 0; 0; 255]) |}
    !! Z.to_nat (4 * 71 + 3) = Some 255.
Proof.
  apply (proj1 C5_uniform_color (concat (replicate 100 [255; 0; 0; 255])) 10 10 255 0 0).
  - unfold source_ok. repeat split; try (cbn; lia).
    apply Forall_forall. intros v Hv. vm_compute in Hv.
    repeat (apply elem_of_cons in Hv as [->|Hv]; [lia|]). inversion Hv.
  - cbn; lia.
  - cbn; lia.
  - intros k Hk. assert (Hk' : 0 <= k < 100) by lia.
    assert (Hall : forallb (fun k => (texel (concat (replicate 100 [255; 0; 0; 255])) (4 * k) =? 255)
                     && (texel (concat (replicate 100 [255; 0; 0; 255])) (4 * k + 1) =? 0)
                     && (texel (concat (replicate 100 [255; 0; 0; 255])) (4 * k + 2) =? 0))
                   (seqZ 0 100) = true) by (vm_compute; reflexivity).
    rewrite forallb_forall in Hall.
    specialize (Hall k ltac:(apply list_elem_of_In, elem_of_seqZ; lia)).
    apply andb_prop in Hall as [Hall H2]. apply andb_prop in Hall as [H0 H1].
    apply Z.eqb_eq in H0, H1, H2. auto.
  - exact (proj2 C5_uniform_color).
  - cbn; lia.
Defined.

(** The output pixel stored at pixel index [k]. *)
Lemma pixel_of_index (wh hh k : Z) :
  1 <= wh -> 0 <= k < wh * hh ->
  in_grid wh hh (k mod wh, k / wh) /\ slot wh (k mod wh, k / wh) = k.
Proof.
  intros Hwh Hk. unfold in_grid, slot. cbn [fst snd].
  pose proof (Z.mod_pos_bound k wh ltac:(lia)). pose proof (Z.div_mod k wh ltac:(lia)).
  repeat split; try lia; [apply Z.div_pos; lia | apply Z.div_lt_upper_bound; lia].
Qed.

(** C6: for every source buffer and every output pixel, the alpha byte of the
    target buffer is exactly 255, whatever the alpha bytes of the source. *)
Theorem C6_alpha_opaque (pixels : list Z) (W H : Z) (img : ImageData) (k : Z) :
  0 <= W < 2 ^ 48 -> 0 <= H < 2 ^ 48 ->
  outcome (convertToHexagonal pixels (Z2F W) (Z2F H)) = Normal img ->
  0 <= k < width img * height img ->
  data img !! Z.to_nat (4 * k + 3) = Some 255.
Proof.
  intros HW HH Hrun Hk. rewrite convertToHexagonal_InOrder in Hrun.
  destruct (run_normal (fun l => l) pixels W H img HW HH ltac:(reflexivity) Hrun)
    as (Ha & Hb & Hab & Ew & Eh & El & Hdata).
  rewrite Ew, Eh in Hk.
  destruct (pixel_of_index _ _ k Ha Hk) as [Hp Hs].
  pose proof (Hdata _ 3 Hp ltac:(lia)) as D3. rewrite Hs in D3.
  replace (4 * k + 3) with (k * 4 + 3) by ring. exact D3.
Qed.

Lemma C6_alpha_opaque_witness :
  data {| width := 1; height := 1; data := [27; 37; 47; 255] |} !! Z.to_nat (4 * 0 + 3) = Some 255.
Proof.
  apply (C6_alpha_opaque sample2x2 2 2 _ 0); [cbn; lia | cbn; lia | vm_compute; reflexivity | cbn; lia].
Defined.

(** Two visiting orders that both cover the grid fill the buffer alike. *)
Lemma fill_any_order (pixels : list Z) (W H hexHeight : float) (wh hh : Z)
    (order1 order2 : list (Z * Z)) (buf : list Z) :
  1 <= wh -> 1 <= hh -> 4 * wh * hh < 2 ^ 53 -> Z.of_nat (length buf) = 4 * wh * hh ->
  (forall p, p ∈ order1 <-> in_grid wh hh p) -> (forall p, p ∈ order2 <-> in_grid wh hh p) ->
  fill pixels W H (Z2F wh) hexHeight order1 buf = fill pixels W H (Z2F wh) hexHeight order2 buf.
Proof.
  intros Hwh Hhh Hlen Hbuf H1 H2. apply list_eq. intros j.
  destruct (decide (Z.of_nat j < 4 * wh * hh)) as [Hj|Hj].
  - destruct (slot_decompose wh hh j Hwh Hj) as (Hp & Ej & Hc).
    set (p := ((Z.of_nat j / 4) mod wh, Z.of_nat j / 4 / wh)) in *.
    rewrite Ej.
    rewrite (fill_lookup_visited pixels W H hexHeight wh hh) with (order := order1);
      try assumption; try lia;
      [| apply Forall_forall; intros q Hq; apply H1, Hq | apply H1, Hp].
    rewrite (fill_lookup_visited pixels W H hexHeight wh hh) with (order := order2);
      try assumption; try lia;
      [| apply Forall_forall; intros q Hq; apply H2, Hq | apply H2, Hp].
    reflexivity.
  - rewrite !(proj2 (lookup_ge_None _ _)); [reflexivity| |]; rewrite fill_length; lia.
Qed.

(** C7: the output buffer does not depend on the order in which the output
    pixels are processed: whatever order [schedule] puts the grid in (row-major,
    by rows handed to workers, reversed, ...), the run ends as the row-major
    run does; and the four bytes of an output pixel are [hexBytes], a function
    of the source and of that pixel's coordinates only. The transform being a
    function of the source buffer and its dimensions, two runs on identical
    inputs give identical outputs. *)
Theorem C7_order_independent (schedule : list (Z * Z) -> list (Z * Z)) (pixels : list Z) (W H : Z) :
  0 <= W < 2 ^ 48 -> 0 <= H < 2 ^ 48 -> (forall l, schedule l ≡ₚ l) ->
  outcome (convertInOrder schedule pixels (Z2F W) (Z2F H)) =
    outcome (convertToHexagonal pixels (Z2F W) (Z2F H)) /\
  forall img, outcome (convertInOrder schedule pixels (Z2F W) (Z2F H)) = Normal img ->
    forall p c, in_grid (width img) (height img) p -> 0 <= c <= 3 ->
      data img !! Z.to_nat (slot (width img) p * 4 + c) =
      Some (hexBytes pixels (Z2F W) (Z2F H) (Z2F (width img)) (Z2F (height img)) p c).
Proof.
  intros HW HH Hsched. split.
  - rewrite convertToHexagonal_InOrder, !convertInOrder_unfold by assumption.
    pose proof (hex_dims_range W H HW HH) as (Ha & Hb & Ha' & Hb').
    set (a := 17 * W / 20) in *. set (b := 9 * H / 10) in *.
    destruct ((a <=? 2 ^ 31 - 1) && (b <=? 2 ^ 31 - 1)); [|reflexivity].
    destruct (Z.eqb_spec a 0); [reflexivity|]. destruct (Z.eqb_spec b 0); [reflexivity|].
    cbn [orb]. unfold maxByteLength.
    destruct (Z.ltb_spec (2 ^ 53 - 1) (4 * a * b)); [reflexivity|].
    cbn [outcome]. do 2 f_equal.
    assert (0 <= 4 * a * b) by nia.
    apply fill_any_order with (hh := b); try lia.
    + rewrite length_replicate. lia.
    + intros p. rewrite Hsched. apply elem_of_grid; lia.
    + intros p. apply elem_of_grid; lia.
  - intros img Hrun p c Hp Hc.
    destruct (run_normal schedule pixels W H img HW HH Hsched Hrun)
      as (_ & _ & _ & Ew & Eh & _ & Hdata).
    rewrite Ew, Eh in *. apply Hdata; assumption.
Qed.

Lemma C7_order_independent_witness :
  outcome (convertInOrder reverse sample2x2 (Z2F 3) (Z2F 3)) =
    outcome (convertToHexagonal sample2x2 (Z2F 3) (Z2F 3)) /\
  forall img, outcome (convertInOrder reverse sample2x2 (Z2F 3) (Z2F 3)) = Normal img ->
    forall p c, in_grid (width img) (height img) p -> 0 <= c <= 3 ->
      data img !! Z.to_nat (slot (width img) p * 4 + c) =
      Some (hexBytes sample2x2 (Z2F 3) (Z2F 3) (Z2F (width img)) (Z2F (height img)) p c).
Proof.
  apply (C7_order_independent reverse sample2x2 3 3); [cbn; lia | cbn; lia |].
  intros l. apply reverse_Permutation.
Defined.

(** How a run on non-negative dimensions ends is decided by the dimensions. *)
Lemma run_throws (pixels : list Z) (W H : Z) (e : exn) :
  0 <= W < 2 ^ 48 -> 0 <= H < 2 ^ 48 ->
  outcome (convertToHexagonal pixels (Z2F W) (Z2F H)) = Throw e ->
  calls (convertToHexagonal pixels (Z2F W) (Z2F H)) = [] /\
  forall pixels', convertToHexagonal pixels' (Z2F W) (Z2F H) = {| calls := []; outcome := Throw e |}.
Proof.
  intros HW HH. rewrite convertToHexagonal_InOrder, convertInOrder_unfold by assumption.
  intros Hrun.
  assert (Hall : forall pixels', convertToHexagonal pixels' (Z2F W) (Z2F H) =
                                 {| calls := []; outcome := Throw e |}).
  { intros pixels'. rewrite convertToHexagonal_InOrder, convertInOrder_unfold by assumption.
    revert Hrun. cbv zeta.
    repeat match goal with |- context [if ?c then _ else _] => destruct c end;
      cbn [outcome]; intros Hrun; try discriminate; injection Hrun as <-; reflexivity. }
  split; [|exact Hall].
  revert Hrun. cbv zeta.
  repeat match goal with |- context [if ?c then _ else _] => destruct c end;
    cbn [outcome calls]; intros Hrun; try discriminate; reflexivity.
Qed.

Lemma run_zero_size (pixels : list Z) (W H : Z) :
  0 <= W < 2 ^ 31 -> 0 <= H < 2 ^ 31 -> 17 * W / 20 = 0 \/ 9 * H / 10 = 0 ->
  convertToHexagonal pixels (Z2F W) (Z2F H) = {| calls := []; outcome := Throw IndexSizeError |}.
Proof.
  intros HW HH Hz. change (2 ^ 31) with 2147483648 in *.
  rewrite convertToHexagonal_InOrder, convertInOrder_unfold
    by (change (2 ^ 48) with 281474976710656; lia).
  cbv zeta. change (2 ^ 31 - 1) with 2147483647.
  assert (17 * W / 20 <= W) by (apply Z.div_le_upper_bound; lia).
  assert (9 * H / 10 <= H) by (apply Z.div_le_upper_bound; lia).
  destruct (Z.leb_spec (17 * W / 20) 2147483647); [|lia].
  destruct (Z.leb_spec (9 * H / 10) 2147483647); [|lia]. cbn [andb].
  destruct (Z.eqb_spec (17 * W / 20) 0), (Z.eqb_spec (9 * H / 10) 0); cbn [orb]; try reflexivity.
  lia.
Qed.

(** C8 as stated fails: the converter validates nothing. Given an empty
    buffer for a 2x2 source it neither fails nor skips the sampler. *)
Lemma C8_counterexample :
  ~ (Z.of_nat (length (@nil Z)) <> 2 * 2 * 4 ->
     exists e, convertToHexagonal [] (Z2F 2) (Z2F 2) = {| calls := []; outcome := Throw e |}).
Proof.
  intros Hclaim. destruct Hclaim as [e He]; [cbn; lia|].
  vm_compute in He. discriminate He.
Qed.

(** C8, amended: the converter has no input validation and no error kind of
    its own. With a source dimension of 0 the run ends in the IndexSizeError
    that createImageData raises for the zero-size target, before any sampling
    and with no partial result. Whenever a run fails, it has sampled nothing,
    and the same failure occurs for every source buffer, of whatever length:
    a buffer of the wrong length is never a reason to fail. *)
Theorem C8_failure_before_sampling (pixels : list Z) (W H : Z) :
  0 <= W < 2 ^ 31 -> 0 <= H < 2 ^ 31 ->
  (W = 0 \/ H = 0 ->
   convertToHexagonal pixels (Z2F W) (Z2F H) = {| calls := []; outcome := Throw IndexSizeError |}) /\
  (forall e, outcome (convertToHexagonal pixels (Z2F W) (Z2F H)) = Throw e ->
     calls (convertToHexagonal pixels (Z2F W) (Z2F H)) = [] /\
     forall pixels', convertToHexagonal pixels' (Z2F W) (Z2F H) = {| calls := []; outcome := Throw e |}).
Proof.
  intros HW HH. split.
  - intros Hz. apply run_zero_size; try assumption.
    destruct Hz as [-> | ->]; [left | right]; reflexivity.
  - intros e. apply run_throws; change (2 ^ 31) with 2147483648 in *;
      change (2 ^ 48) with 281474976710656; lia.
Qed.

Lemma C8_failure_before_sampling_witness :
  (0 = 0 \/ 5 = 0 ->
   convertToHexagonal sample2x2 (Z2F 0) (Z2F 5) = {| calls := []; outcome := Throw IndexSizeError |}) /\
  (forall e, outcome (convertToHexagonal sample2x2 (Z2F 0) (Z2F 5)) = Throw e ->
     calls (convertToHexagonal sample2x2 (Z2F 0) (Z2F 5)) = [] /\
     forall pixels', convertToHexagonal pixels' (Z2F 0) (Z2F 5) = {| calls := []; outcome := Throw e |}).
Proof. apply (C8_failure_before_sampling sample2x2 0 5); cbn; lia. Defined.

(** C9 as stated fails: on a 1x1 source floor(1 * 0.85) = 0, and the run does
    not complete with an empty buffer. *)
Lemma C9_counterexample :
  Qfloor (inject_Z 1 * (85 # 100)) = 0 /\
  ~ exists img, outcome (convertToHexagonal sample1x1 (Z2F 1) (Z2F 1)) = Normal img.
Proof.
  split; [reflexivity|]. intros [img Himg]. vm_compute in Himg. discriminate Himg.
Qed.

(** C9, amended: for every input with 1 <= W, H (below 2^31) where
    floor(W*0.85) = 0 or floor(H*0.9) = 0, the converter does not guard the
    degenerate case itself; createImageData rejects the zero dimension, so the
    run ends in IndexSizeError, with zero sampler invocations and no target
    buffer. *)
Theorem C9_degenerate_throws (pixels : list Z) (W H : Z) :
  1 <= W < 2 ^ 31 -> 1 <= H < 2 ^ 31 ->
  Qfloor (inject_Z W * (85 # 100)) = 0 \/ Qfloor (inject_Z H * (9 # 10)) = 0 ->
  convertToHexagonal pixels (Z2F W) (Z2F H) = {| calls := []; outcome := Throw IndexSizeError |}.
Proof.
  intros HW HH Hz. apply run_zero_size; [lia | lia |].
  rewrite !Qfloor_times in Hz.
  replace (W * 85) with (17 * W * 5) in Hz by ring. change (Zpos 100) with (20 * 5) in Hz.
  rewrite Z.div_mul_cancel_r in Hz by lia.
  replace (H * 9) with (9 * H) in Hz by ring. exact Hz.
Qed.

Lemma C9_degenerate_throws_witness :
  convertToHexagonal sample1x1 (Z2F 1) (Z2F 1) = {| calls := []; outcome := Throw IndexSizeError |}.
Proof.
  apply (C9_degenerate_throws sample1x1 1 1); [cbn; lia | cbn; lia | left; reflexivity].
Defined.

(** C10: two source images of the same dimensions whose buffers agree on
    every red, green and blue byte, whatever their alpha bytes, give the same
    run: the same sampler invocations and byte-identical output. *)
Theorem C10_alpha_independent (p1 p2 : list Z) (W H : Z) :
  source_shape p1 W H -> same_rgb p1 p2 -> W < 2 ^ 48 -> H < 2 ^ 48 ->
  convertToHexagonal p1 (Z2F W) (Z2F H) = convertToHexagonal p2 (Z2F W) (Z2F H).
Proof.
  intros Hs Hagree HW HH. pose proof Hs as (Hw1 & Hh1 & _).
  rewrite (convertToHexagonal_InOrder p1), (convertToHexagonal_InOrder p2).
  rewrite (convertInOrder_unfold _ p1), (convertInOrder_unfold _ p2) by lia. cbv zeta.
  pose proof (hex_dims_range W H ltac:(lia) ltac:(lia)) as (Ha & Hb & Ha' & Hb').
  set (a := 17 * W / 20) in *. set (b := 9 * H / 10) in *.
  destruct ((a <=? 2 ^ 31 - 1) && (b <=? 2 ^ 31 - 1)); [|reflexivity].
  destruct (Z.eqb_spec a 0); [cbn [orb]; reflexivity|].
  destruct (Z.eqb_spec b 0); [cbn [orb]; reflexivity|].
  cbn [orb]. destruct (maxByteLength <? 4 * a * b); [reflexivity|].
  rewrite (fill_same_rgb p1 p2 W H a b (grid (Z2F a) (Z2F b)) _ Hs Hagree); [reflexivity | | |].
  - change (2 ^ 48) with 281474976710656 in *. change (2 ^ 52) with 4503599627370496. lia.
  - change (2 ^ 48) with 281474976710656 in *. change (2 ^ 52) with 4503599627370496. lia.
  - apply Forall_forall. intros q Hq. apply elem_of_grid in Hq; [assumption | lia | lia].
Qed.

Lemma C10_alpha_independent_witness :
  convertToHexagonal sample2x2 (Z2F 2) (Z2F 2) = convertToHexagonal sample2x2_alpha (Z2F 2) (Z2F 2).
Proof.
  apply (C10_alpha_independent sample2x2 sample2x2_alpha 2 2).
  - apply source_ok_shape, sample2x2_ok.
  - split; [reflexivity|]. intros i Hi.
    do 16 (destruct i as [|i]; [first [reflexivity | exfalso; apply Hi; reflexivity]|]).
    reflexivity.
  - cbn; lia.
  - cbn; lia.
Defined.

(** * Further properties of the converter *)

(** X1: the shape of the result: the width and height are the floors of 17W/20
    and 9H/10, both at least 1 and smaller than the source's, and the buffer
    has four bytes per output pixel. *)
Theorem output_shape (pixels : list Z) (W H : Z) (img : ImageData) :
  0 <= W < 2 ^ 48 -> 0 <= H < 2 ^ 48 ->
  outcome (convertToHexagonal pixels (Z2F W) (Z2F H)) = Normal img ->
  width img = 17 * W / 20 /\ height img = 9 * H / 10 /\
  1 <= width img < W /\ 1 <= height img < H /\
  Z.of_nat (length (data img)) = 4 * width img * height img.
Proof.
  intros HW HH Hrun. rewrite convertToHexagonal_InOrder in Hrun.
  destruct (run_normal (fun l => l) pixels W H img HW HH ltac:(reflexivity) Hrun)
    as (Ha & Hb & _ & Ew & Eh & El & _).
  rewrite Ew, Eh. repeat split; try assumption.
  - pose proof (hex_dims_range W H HW HH). apply Z.div_lt_upper_bound; lia.
  - pose proof (hex_dims_range W H HW HH). apply Z.div_lt_upper_bound; lia.
Qed.

Lemma output_shape_witness :
  width {| width := 1; height := 1; data := [27; 37; 47; 255] |} = 17 * 2 / 20 /\
  height {| width := 1; height := 1; data := [27; 37; 47; 255] |} = 9 * 2 / 10 /\
  1 <= width {| width := 1; height := 1; data := [27; 37; 47; 255] |} < 2 /\
  1 <= height {| width := 1; height := 1; data := [27; 37; 47; 255] |} < 2 /\
  Z.of_nat (length (data {| width := 1; height := 1; data := [27; 37; 47; 255] |})) =
    4 * width {| width := 1; height := 1; data := [27; 37; 47; 255] |}
      * height {| width := 1; height := 1; data := [27; 37; 47; 255] |}.
Proof.
  apply (output_shape sample2x2 2 2); [cbn; lia | cbn; lia | vm_compute; reflexivity].
Defined.

(** X2: the hexagonal grid has at most 76.5% of the pixels of the source. *)
Theorem fewer_pixels (pixels : list Z) (W H : Z) (img : ImageData) :
  0 <= W < 2 ^ 48 -> 0 <= H < 2 ^ 48 ->
  outcome (convertToHexagonal pixels (Z2F W) (Z2F H)) = Normal img ->
  200 * (width img * height img) <= 153 * (W * H).
Proof.
  intros HW HH Hrun. rewrite convertToHexagonal_InOrder in Hrun.
  destruct (run_normal (fun l => l) pixels W H img HW HH ltac:(reflexivity) Hrun)
    as (Ha & Hb & _ & Ew & Eh & _ & _).
  rewrite Ew, Eh in *.
  assert (20 * (17 * W / 20) <= 17 * W) by (apply Z.mul_div_le; lia).
  assert (10 * (9 * H / 10) <= 9 * H) by (apply Z.mul_div_le; lia).
  replace (200 * (17 * W / 20 * (9 * H / 10))) with ((20 * (17 * W / 20)) * (10 * (9 * H / 10))) by ring.
  replace (153 * (W * H)) with ((17 * W) * (9 * H)) by ring.
  apply Z.mul_le_mono_nonneg; lia.
Qed.

Lemma fewer_pixels_witness :
  200 * (width {| width := 1; height := 1; data := [27; 37; 47; 255] |}
         * height {| width := 1; height := 1; data := [27; 37; 47; 255] |}) <= 153 * (2 * 2).
Proof.
  apply (fewer_pixels sample2x2 2 2); [cbn; lia | cbn; lia | vm_compute; reflexivity].
Defined.

(** A [Uint8ClampedArray] holds bytes, whatever Number is stored. *)
Lemma ToUint8Clamp_range (x : float) : 0 <= ToUint8Clamp x <= 255.
Proof.
  unfold ToUint8Clamp. destruct (Prim2SF x) as [s|s| |s m e]; try lia.
  - destruct s; lia.
  - destruct s; [lia|]. destruct (Z.leb_spec 0 e) as [He|He].
    + pose proof (Z.pow_pos_nonneg 2 e ltac:(lia) He). nia.
    + pose proof (Z.pow_pos_nonneg 2 (- e) ltac:(lia) ltac:(lia)) as P.
      pose proof (Z.div_pos (Zpos m) (2 ^ (- e)) ltac:(lia) P).
      assert (0 <= rne (Zpos m) (- e)).
      { unfold rne. destruct (_ ?= _); [destruct (Z.even _)|..]; lia. }
      lia.
Qed.

Lemma typed_set_range (a : list Z) (i v : float) :
  Forall (fun u => 0 <= u <= 255) a -> Forall (fun u => 0 <= u <= 255) (typed_set a i v).
Proof.
  intros Ha. unfold typed_set. destruct (F2Z i) as [n|]; [|assumption].
  destruct (0 <=? n); [|assumption].
  apply Forall_insert; [assumption | apply ToUint8Clamp_range].
Qed.

Lemma fill_range (pixels : list Z) (W H hexWidth hexHeight : float) (order : list (Z * Z)) (buf : list Z) :
  Forall (fun u => 0 <= u <= 255) buf ->
  Forall (fun u => 0 <= u <= 255) (fill pixels W H hexWidth hexHeight order buf).
Proof.
  revert buf. induction order as [|[hexX hexY] order IH]; intros buf Hbuf; [assumption|].
  cbn [fill fold_left]. apply IH. unfold writePixel. repeat apply typed_set_range. assumption.
Qed.

(** X3: whatever the source buffer and the dimensions are, every byte of the
    output buffer is in [0, 255]. *)
Theorem output_bytes (pixels : list Z) (W H : float) (img : ImageData) :
  outcome (convertToHexagonal pixels W H) = Normal img ->
  Forall (fun u => 0 <= u <= 255) (data img).
Proof.
  unfold convertToHexagonal. destruct (hexDimensions W H) as [hexWidth hexHeight].
  destruct (createImageData hexWidth hexHeight) as [hexImageData|e] eqn:Ec; [|discriminate].
  cbn [outcome]. intros [= <-]. cbn [data]. apply fill_range.
  unfold createImageData in Ec.
  destruct (EnforceRange_long hexWidth) as [w|]; [|discriminate].
  destruct (EnforceRange_long hexHeight) as [h|]; [|discriminate].
  destruct ((w =? 0) || (h =? 0)); [discriminate|].
  destruct (maxByteLength <? 4 * Z.abs w * Z.abs h); [discriminate|].
  injection Ec as <-. cbn [data]. apply Forall_replicate. lia.
Qed.

Lemma output_bytes_witness :
  Forall (fun u => 0 <= u <= 255) (data {| width := 1; height := 1; data := [27; 37; 47; 255] |}).
Proof. apply (output_bytes sample2x2 (Z2F 2) (Z2F 2)). vm_compute. reflexivity. Defined.




(** ** Reads outside the source buffer *)

Lemma nan_add (t : float) : (nan + t)%float = nan.
Proof. apply Prim2SF_inj. rewrite add_spec. reflexivity. Qed.

Lemma nan_mul (w : float) : (nan * w)%float = nan.
Proof. apply Prim2SF_inj. rewrite mul_spec. reflexivity. Qed.

Lemma add_nan (t : float) : (t + nan)%float = nan.
Proof.
  apply Prim2SF_inj. rewrite add_spec. change (Prim2SF nan) with S754_nan.
  destruct (Prim2SF t) as [s|s| |s m e]; try reflexivity; destruct s; reflexivity.
Qed.

Lemma sample_nan_stays (pixels : list Z) (W H cx cy : float) (l : list (Z * Z)) (t : totals) :
  all_nan t -> all_nan (fold_left (sample pixels W H cx cy) l t).
Proof.
  revert t. induction l as [|[dy dx] l IH]; intros t Ht; [exact Ht|].
  cbn [fold_left]. apply IH. destruct Ht as (Hr & Hg & Hb).
  unfold all_nan, sample. cbn [totalR totalG totalB]. rewrite Hr, Hg, Hb, !nan_add. auto.
Qed.

Section ShortBuffer.
Variables (pixels : list Z) (w h : Z).
Hypothesis Hw : 1 <= w.
Hypothesis Hh : 1 <= h.
Hypothesis Hlen : 4 * w * h < 2 ^ 53.
Variables (cx cy : float) (vx vy : Z).
Hypothesis Hcx : is_center cx vx.
Hypothesis Hcy : is_center cy vy.

Lemma sample_beyond (t : totals) (d : Z * Z) :
  in_window d -> beyond pixels w h vx vy d -> all_nan (sample pixels (Z2F w) (Z2F h) cx cy t d).
Proof.
  destruct d as [dy dx]. intros [Hdy Hdx] Hd. unfold beyond in Hd. cbn [fst snd] in *.
  unfold sample. rewrite (pixelIndex_exact w h Hw Hh Hlen cx cy vx vy dx dy) by assumption.
  pose proof (tapIndex_bounds w h Hw Hh vx vy dx dy) as (B0 & B1 & _).
  set (i := tapIndex w h vx vy dx dy) in *.
  change 1%float with (Z2F 1). change 2%float with (Z2F 2).
  rewrite !Z2F_add by (unfold small; lia).
  rewrite !typed_get_Z2F by lia.
  rewrite !(proj2 (lookup_ge_None _ _)) by lia.
  unfold all_nan. cbn [ToNumber totalR totalG totalB]. rewrite !nan_mul, !add_nan. auto.
Qed.

Lemma fold_beyond (l : list (Z * Z)) (t : totals) :
  Forall in_window l -> Exists (beyond pixels w h vx vy) l ->
  all_nan (fold_left (sample pixels (Z2F w) (Z2F h) cx cy) l t).
Proof.
  intros Hl Hex. revert t. induction Hex as [d l Hd | d l Hex IH]; intros t.
  - cbn [fold_left]. apply sample_nan_stays, sample_beyond; [|assumption].
    exact (Forall_inv Hl).
  - cbn [fold_left]. apply IH. exact (Forall_inv_tail Hl).
Qed.

Lemma sampleWindow_beyond :
  Exists (beyond pixels w h vx vy) window ->
  sampleWindow pixels (Z2F w) (Z2F h) cx cy =
  {| totalR := nan; totalG := nan; totalB := nan; totalWeight := 1 |}.
Proof.
  intros Hex.
  pose proof (fold_beyond window {| totalR := 0; totalG := 0; totalB := 0; totalWeight := 0 |}
                window_in_window Hex) as (Hr & Hg & Hb).
  pose proof (totalWeight_window pixels (Z2F w) (Z2F h) cx cy) as Hwt.
  fold (sampleWindow pixels (Z2F w) (Z2F h) cx cy) in Hr, Hg, Hb.
  destruct (sampleWindow pixels (Z2F w) (Z2F h) cx cy) as [tr tg tb tw].
  cbn [totalR totalG totalB totalWeight] in *. congruence.
Qed.
End ShortBuffer.

(** X5: reads past the end of the source buffer give [undefined] and no error:
    when one of the nine taps of an output pixel lies beyond the buffer, the
    three sums become NaN, the sampler returns NaN for each channel, and the
    writer stores the pixel as opaque black. *)
Theorem short_buffer_black (pixels : list Z) (W H x y wh hh : Z) :
  1 <= W -> 1 <= H -> 4 * W * H < 2 ^ 53 ->
  0 <= x < 2 ^ 52 -> 0 <= y < 2 ^ 52 -> 1 <= wh < 2 ^ 53 -> 1 <= hh < 2 ^ 53 ->
  exists vx vy,
    is_center (centerX (Z2F W) (Z2F x) (Z2F y) (Z2F wh)) vx /\
    is_center (centerY (Z2F H) (Z2F y) (Z2F hh)) vy /\
    (Exists (beyond pixels W H vx vy) window ->
     calculateHexagonalPixel pixels (Z2F W) (Z2F H) (Z2F x) (Z2F y) (Z2F wh) (Z2F hh) =
       {| r := nan; g := nan; b := nan |} /\
     forall c, 0 <= c <= 3 ->
       hexBytes pixels (Z2F W) (Z2F H) (Z2F wh) (Z2F hh) (x, y) c = if c =? 3 then 255 else 0).
Proof.
  intros Hw Hh Hlen Hx Hy Hwh Hhh.
  assert (Hw53 : 0 <= W < 2 ^ 53 /\ 0 <= H < 2 ^ 53).
  { change (2 ^ 53) with 9007199254740992 in *. nia. }
  destruct (centers_exist W H x y wh hh) as [[vx Hcx] [vy Hcy]]; try tauto.
  exists vx, vy. split; [assumption|]. split; [assumption|]. intros Hex.
  assert (E : calculateHexagonalPixel pixels (Z2F W) (Z2F H) (Z2F x) (Z2F y) (Z2F wh) (Z2F hh) =
              {| r := nan; g := nan; b := nan |}).
  { unfold calculateHexagonalPixel.
    rewrite (sampleWindow_beyond pixels W H Hw Hh Hlen _ _ vx vy Hcx Hcy Hex). reflexivity. }
  split; [exact E|]. intros c Hc. unfold hexBytes. cbn [fst snd]. rewrite E.
  assert (c = 0 \/ c = 1 \/ c = 2 \/ c = 3) as [->|[->|[->| ->]]] by lia; reflexivity.
Qed.

Lemma short_buffer_black_witness :
  exists vx vy,
    is_center (centerX (Z2F 2) (Z2F 0) (Z2F 0) (Z2F 1)) vx /\
    is_center (centerY (Z2F 2) (Z2F 0) (Z2F 1)) vy /\
    (Exists (beyond [10; 20; 30; 255] 2 2 vx vy) window ->
     calculateHexagonalPixel [10; 20; 30; 255] (Z2F 2) (Z2F 2) (Z2F 0) (Z2F 0) (Z2F 1) (Z2F 1) =
       {| r := nan; g := nan; b := nan |} /\
     forall c, 0 <= c <= 3 ->
       hexBytes [10; 20; 30; 255] (Z2F 2) (Z2F 2) (Z2F 1) (Z2F 1) (0, 0) c = if c =? 3 then 255 else 0).
Proof. apply (short_buffer_black [10; 20; 30; 255] 2 2 0 0 1 1); cbn; lia. Defined.

(** ** The sampler as an average *)

Lemma acc16_between (pixels : list Z) (w h vx vy c lo hi : Z) (l : list (Z * Z)) :
  (forall d, lo <= texel pixels (tapIndex w h vx vy (snd d) (fst d) + c) <= hi) ->
  lo * wsum l <= acc16 pixels w h vx vy c l <= hi * wsum l.
Proof.
  intros Hb. induction l as [|d l IH].
  - unfold acc16, wsum, sumZ. cbn. lia.
  - rewrite acc16_cons, wsum_cons. unfold acc16 at 1 3, wsum at 1 3, sumZ. cbn [map fold_right].
    pose proof (weight16_range d). specialize (Hb d). nia.
Qed.

Lemma acc16_ext (p1 p2 : list Z) (w h vx vy c : Z) (l : list (Z * Z)) :
  Forall in_window l ->
  (forall d, in_window d ->
     texel p1 (tapIndex w h vx vy (snd d) (fst d) + c) =
     texel p2 (tapIndex w h vx vy (snd d) (fst d) + c)) ->
  acc16 p1 w h vx vy c l = acc16 p2 w h vx vy c l.
Proof.
  intros Hl He. induction Hl as [|d l Hd Hl IH]; [reflexivity|].
  rewrite (acc16_cons p1), (acc16_cons p2), IH. f_equal.
  unfold acc16, sumZ. cbn [map fold_right]. rewrite (He d Hd). reflexivity.
Qed.

(** X6: every output channel lies between the smallest and the largest value
    that channel has in the source: the sampler never overshoots. *)
Theorem channel_between_extremes (pixels : list Z) (W H c lo hi : Z) (img : ImageData) (k : Z) :
  source_ok pixels W H -> W < 2 ^ 48 -> H < 2 ^ 48 -> 0 <= c <= 2 ->
  (forall j, 0 <= j < W * H -> lo <= texel pixels (4 * j + c) <= hi) ->
  outcome (convertToHexagonal pixels (Z2F W) (Z2F H)) = Normal img ->
  0 <= k < width img * height img ->
  exists v, data img !! Z.to_nat (4 * k + c) = Some v /\ lo <= v <= hi.
Proof.
  intros Hsrc HW HH Hc Hrange Hrun Hk.
  pose proof Hsrc as (Hw1 & Hh1 & Hlen & _).
  rewrite convertToHexagonal_InOrder in Hrun.
  destruct (run_normal (fun l => l) pixels W H img ltac:(lia) ltac:(lia) ltac:(reflexivity) Hrun)
    as (Ha & Hb & Hab & Ew & Eh & El & Hdata).
  rewrite Ew, Eh in Hk.
  pose proof (hex_dims_range W H ltac:(lia) ltac:(lia)) as (Ra & Rb & _).
  set (a := 17 * W / 20) in *. set (b := 9 * H / 10) in *.
  assert (Ha52 : a < 2 ^ 52 /\ b < 2 ^ 52).
  { change (2 ^ 48) with 281474976710656 in *. change (2 ^ 52) with 4503599627370496. lia. }
  destruct (pixel_of_index a b k Ha Hk) as [Hp Hs].
  set (p := (k mod a, k / a)) in *.
  destruct (hexBytes_exact pixels W H a b p Hsrc ltac:(lia) ltac:(lia) Hp) as (vx & vy & E0 & E1 & E2).
  pose proof (Hdata p c Hp ltac:(lia)) as D. rewrite Hs in D.
  replace (k * 4 + c) with (4 * k + c) in D by ring.
  eexists. split; [exact D|].
  assert (E : hexBytes pixels (Z2F W) (Z2F H) (Z2F a) (Z2F b) p c = channel16 pixels W H vx vy c).
  { assert (c = 0 \/ c = 1 \/ c = 2) as [->|[->| ->]] by lia; assumption. }
  rewrite E. unfold channel16.
  assert (Htap : forall d, lo <= texel pixels (tapIndex W H vx vy (snd d) (fst d) + c) <= hi).
  { intros d. pose proof (tapIndex_bounds W H Hw1 Hh1 vx vy (snd d) (fst d)) as (B0 & B1 & _).
    unfold tapIndex in *.
    set (j := clampZ 0 (H - 1) (vy + fst d) * W + clampZ 0 (W - 1) (vx + snd d)) in *.
    replace (j * 4 + c) with (4 * j + c) by ring. apply Hrange. lia. }
  pose proof (acc16_between pixels W H vx vy c lo hi window Htap) as Hacc.
  change (wsum window) with 16 in Hacc.
  destruct (source_read pixels W H (4 * 0 + c) Hsrc ltac:(lia)) as [_ Hbyte].
  pose proof (Hrange 0 ltac:(nia)) as H0.
  set (S := acc16 pixels W H vx vy c window) in *.
  assert (lo <= (S + 8) / 16) by (apply Z.div_le_lower_bound; lia).
  assert ((S + 8) / 16 < hi + 1) by (apply Z.div_lt_upper_bound; lia).
  unfold clampZ. lia.
Qed.

Lemma channel_between_extremes_witness :
  exists v, data {| width := 1; height := 1; data := [27; 37; 47; 255] |} !! Z.to_nat (4 * 0 + 0)
            = Some v /\ 10 <= v <= 100.
Proof.
  apply (channel_between_extremes sample2x2 2 2 0 10 100 _ 0 sample2x2_ok);
    [cbn; lia | cbn; lia | lia | | vm_compute; reflexivity | cbn; lia].
  intros j Hj. assert (j = 0 \/ j = 1 \/ j = 2 \/ j = 3) as [->|[->|[->| ->]]] by lia;
    vm_compute; split; discriminate.
Defined.

(** X7: the colour of an output pixel depends on the source only through the
    red, green and blue bytes of its nine clamped taps. *)
Theorem sampler_local (p1 p2 : list Z) (W H x y wh hh : Z) :
  source_ok p1 W H -> source_ok p2 W H ->
  0 <= x < 2 ^ 52 -> 0 <= y < 2 ^ 52 -> 1 <= wh < 2 ^ 53 -> 1 <= hh < 2 ^ 53 ->
  exists vx vy,
    is_center (centerX (Z2F W) (Z2F x) (Z2F y) (Z2F wh)) vx /\
    is_center (centerY (Z2F H) (Z2F y) (Z2F hh)) vy /\
    ((forall d c, in_window d -> 0 <= c <= 2 ->
        texel p1 (tapIndex W H vx vy (snd d) (fst d) + c) =
        texel p2 (tapIndex W H vx vy (snd d) (fst d) + c)) ->
     calculateHexagonalPixel p1 (Z2F W) (Z2F H) (Z2F x) (Z2F y) (Z2F wh) (Z2F hh) =
     calculateHexagonalPixel p2 (Z2F W) (Z2F H) (Z2F x) (Z2F y) (Z2F wh) (Z2F hh)).
Proof.
  intros Hs1 Hs2 Hx Hy Hwh Hhh. pose proof Hs1 as (Hw1 & Hh1 & Hlen & _).
  assert (Hw53 : 0 <= W < 2 ^ 53 /\ 0 <= H < 2 ^ 53).
  { change (2 ^ 53) with 9007199254740992 in *. nia. }
  destruct (centers_exist W H x y wh hh) as [[vx Hcx] [vy Hcy]]; try tauto.
  exists vx, vy. split; [assumption|]. split; [assumption|]. intros Hagree.
  rewrite (calculateHexagonalPixel_exact p1 W H x y wh hh vx vy) by assumption.
  rewrite (calculateHexagonalPixel_exact p2 W H x y wh hh vx vy) by assumption.
  unfold channel16.
  rewrite (acc16_ext p1 p2 W H vx vy 0 window), (acc16_ext p1 p2 W H vx vy 1 window),
    (acc16_ext p1 p2 W H vx vy 2 window);
    try apply window_in_window; try (intros d Hd; apply Hagree; [assumption|lia]).
  reflexivity.
Qed.

Lemma sample2x2_alpha_ok : source_ok sample2x2_alpha 2 2.
Proof.
  unfold source_ok. repeat split; try (cbn; lia).
  repeat constructor; lia.
Defined.

Lemma sampler_local_witness :
  exists vx vy,
    is_center (centerX (Z2F 2) (Z2F 0) (Z2F 0) (Z2F 1)) vx /\
    is_center (centerY (Z2F 2) (Z2F 0) (Z2F 1)) vy /\
    ((forall d c, in_window d -> 0 <= c <= 2 ->
        texel sample2x2 (tapIndex 2 2 vx vy (snd d) (fst d) + c) =
        texel sample2x2_alpha (tapIndex 2 2 vx vy (snd d) (fst d) + c)) ->
     calculateHexagonalPixel sample2x2 (Z2F 2) (Z2F 2) (Z2F 0) (Z2F 0) (Z2F 1) (Z2F 1) =
     calculateHexagonalPixel sample2x2_alpha (Z2F 2) (Z2F 2) (Z2F 0) (Z2F 0) (Z2F 1) (Z2F 1)).
Proof.
  apply (sampler_local sample2x2 sample2x2_alpha 2 2 0 0 1 1 sample2x2_ok sample2x2_alpha_ok);
    cbn; lia.
Defined.

(** ** The writer *)

(** X8: storing an output pixel changes the four bytes of that pixel and nothing
    else: no other byte of the buffer, and not its length. *)
Theorem writePixel_frame (pixels : list Z) (W H hexHeight : float) (wh hh : Z)
    (buf : list Z) (p : Z * Z) :
  0 <= wh -> 0 <= hh -> 4 * wh * hh < 2 ^ 53 ->
  in_grid wh hh p -> Z.of_nat (length buf) = 4 * wh * hh ->
  length (writePixel pixels W H (Z2F wh) hexHeight buf p) = length buf /\
  forall j : nat, Z.of_nat j / 4 <> slot wh p ->
    writePixel pixels W H (Z2F wh) hexHeight buf p !! j = buf !! j.
Proof.
  intros Hwh Hhh Hlen Hp Hbuf. split; [apply writePixel_length|].
  intros j Hj. rewrite (writePixel_lookup pixels W H hexHeight wh hh) by assumption.
  destruct (Z.eqb_spec (Z.of_nat j / 4) (slot wh p)); [contradiction|reflexivity].
Qed.

Lemma writePixel_frame_witness :
  length (writePixel sample2x2 (Z2F 2) (Z2F 2) (Z2F 2) (Z2F 1) [1; 2; 3; 4; 5; 6; 7; 8] (1, 0)) =
    length [1; 2; 3; 4; 5; 6; 7; 8] /\
  forall j : nat, Z.of_nat j / 4 <> slot 2 (1, 0) ->
    writePixel sample2x2 (Z2F 2) (Z2F 2) (Z2F 2) (Z2F 1) [1; 2; 3; 4; 5; 6; 7; 8] (1, 0) !! j =
    [1; 2; 3; 4; 5; 6; 7; 8] !! j.
Proof.
  apply (writePixel_frame sample2x2 (Z2F 2) (Z2F 2) (Z2F 1) 2 1);
    [lia | lia | cbn; lia | unfold in_grid; cbn; lia | reflexivity].
Defined.

(** ** Away from the border, and back from the buffer *)

(** X9: away from the border nothing is clamped: the taps of a centre [(vx, vy)]
    with 1 <= vx <= w - 2 and 1 <= vy <= h - 2 are the nine pixels around it,
    all different. *)
Theorem interior_taps (w h : Z) (cx cy : float) (vx vy : Z) :
  1 <= w -> 1 <= h -> 4 * w * h < 2 ^ 53 ->
  is_center cx vx -> is_center cy vy -> 1 <= vx <= w - 2 -> 1 <= vy <= h - 2 ->
  (forall dx dy, -1 <= dx <= 1 -> -1 <= dy <= 1 ->
     pixelIndex (Z2F w) (Z2F h) cx cy dx dy = Z2F (((vy + dy) * w + (vx + dx)) * 4)) /\
  (forall d d', in_window d -> in_window d' ->
     tapIndex w h vx vy (snd d) (fst d) = tapIndex w h vx vy (snd d') (fst d') -> d = d').
Proof.
  intros Hw Hh Hlen Hcx Hcy Hvx Hvy. split.
  - intros dx dy Hdx Hdy. rewrite (pixelIndex_exact w h Hw Hh Hlen cx cy vx vy dx dy) by assumption.
    f_equal. unfold tapIndex, clampZ. rewrite !Z.min_r, !Z.max_r by lia. reflexivity.
  - intros [dy dx] [dy' dx'] [Hdy Hdx] [Hdy' Hdx'] E. cbn [fst snd] in *.
    unfold tapIndex, clampZ in E.
    rewrite !Z.min_r, !Z.max_r in E by lia.
    assert (dy = dy') by nia. subst. f_equal. lia.
Qed.

Lemma interior_taps_witness :
  (forall dx dy, -1 <= dx <= 1 -> -1 <= dy <= 1 ->
     pixelIndex (Z2F 3) (Z2F 3) (Z2F 1) (Z2F 1) dx dy = Z2F (((1 + dy) * 3 + (1 + dx)) * 4)) /\
  (forall d d', in_window d -> in_window d' ->
     tapIndex 3 3 1 1 (snd d) (fst d) = tapIndex 3 3 1 1 (snd d') (fst d') -> d = d').
Proof.
  apply (interior_taps 3 3 (Z2F 1) (Z2F 1) 1 1); try (cbn; lia).
  - split; [lia|]. split; [reflexivity|]. left. split; [cbn; lia|reflexivity].
  - split; [lia|]. split; [reflexivity|]. left. split; [cbn; lia|reflexivity].
Defined.

(** X10: reading the output buffer back gives the sampler's values: on a decoded
    source the three channels are integers between 0 and 255, so storing them
    in the byte array changes nothing. *)
Theorem stored_channels (pixels : list Z) (W H : Z) (img : ImageData) (k : Z) :
  source_ok pixels W H -> W < 2 ^ 48 -> H < 2 ^ 48 ->
  outcome (convertToHexagonal pixels (Z2F W) (Z2F H)) = Normal img ->
  0 <= k < width img * height img ->
  let hexColor := calculateHexagonalPixel pixels (Z2F W) (Z2F H)
                    (Z2F (k mod width img)) (Z2F (k / width img))
                    (Z2F (width img)) (Z2F (height img)) in
  ToNumber (typed_get (data img) (Z2F (4 * k))) = r hexColor /\
  ToNumber (typed_get (data img) (Z2F (4 * k + 1))) = g hexColor /\
  ToNumber (typed_get (data img) (Z2F (4 * k + 2))) = b hexColor.
Proof.
  intros Hsrc HW HH Hrun Hk. pose proof Hsrc as (Hw1 & Hh1 & Hlen & _).
  rewrite convertToHexagonal_InOrder in Hrun.
  destruct (run_normal (fun l => l) pixels W H img ltac:(lia) ltac:(lia) ltac:(reflexivity) Hrun)
    as (Ha & Hb & Hab & Ew & Eh & El & Hdata).
  rewrite Ew, Eh in *.
  pose proof (hex_dims_range W H ltac:(lia) ltac:(lia)) as (Ra & Rb & _).
  set (wh := 17 * W / 20) in *. set (hh := 9 * H / 10) in *.
  assert (Ha52 : wh < 2 ^ 52 /\ hh < 2 ^ 52).
  { change (2 ^ 48) with 281474976710656 in *. change (2 ^ 52) with 4503599627370496. lia. }
  destruct (pixel_of_index wh hh k Ha Hk) as [Hp Hs].
  set (p := (k mod wh, k / wh)) in *.
  assert (Hw53 : 0 <= W < 2 ^ 53 /\ 0 <= H < 2 ^ 53).
  { change (2 ^ 53) with 9007199254740992 in *. nia. }
  pose proof Hp as [Hx Hy]. unfold p in Hx, Hy. cbn [fst snd] in Hx, Hy.
  assert (Hx52 : 0 <= k mod wh < 2 ^ 52 /\ 0 <= k / wh < 2 ^ 52) by lia.
  assert (Ha53 : 1 <= wh < 2 ^ 53 /\ 1 <= hh < 2 ^ 53).
  { change (2 ^ 52) with 4503599627370496 in *. change (2 ^ 53) with 9007199254740992. lia. }
  destruct (centers_exist W H (k mod wh) (k / wh) wh hh) as [[vx Hcx] [vy Hcy]]; try tauto.
  cbv zeta.
  rewrite (calculateHexagonalPixel_exact pixels W H (k mod wh) (k / wh) wh hh vx vy) by assumption.
  cbn [r g b].
  assert (Hch : forall c, 0 <= channel16 pixels W H vx vy c <= 255)
    by (intros c; unfold channel16, clampZ; lia).
  assert (Hk4 : 0 <= 4 * k /\ 4 * k + 3 < 2 ^ 53) by nia.
  assert (Hget : forall c, 0 <= c <= 2 ->
            typed_get (data img) (Z2F (4 * k + c)) = Some (channel16 pixels W H vx vy c)).
  { intros c Hc. rewrite typed_get_Z2F by lia.
    pose proof (Hdata p c Hp ltac:(lia)) as D. rewrite Hs in D.
    replace (k * 4 + c) with (4 * k + c) in D by ring. rewrite D. f_equal.
    unfold hexBytes, p. cbn [fst snd].
    rewrite (calculateHexagonalPixel_exact pixels W H (k mod wh) (k / wh) wh hh vx vy) by assumption.
    cbn [r g b].
    assert (c = 0 \/ c = 1 \/ c = 2) as [->|[->| ->]] by lia;
      apply ToUint8Clamp_Z2F, Hch. }
  pose proof (Hget 0 ltac:(lia)) as G0. rewrite Z.add_0_r in G0.
  rewrite G0, (Hget 1), (Hget 2) by lia. repeat split.
Qed.

Lemma stored_channels_witness :
  let img := {| width := 1; height := 1; data := [27; 37; 47; 255] |} in
  let hexColor := calculateHexagonalPixel sample2x2 (Z2F 2) (Z2F 2)
                    (Z2F (0 mod width img)) (Z2F (0 / width img))
                    (Z2F (width img)) (Z2F (height img)) in
  ToNumber (typed_get (data img) (Z2F (4 * 0))) = r hexColor /\
  ToNumber (typed_get (data img) (Z2F (4 * 0 + 1))) = g hexColor /\
  ToNumber (typed_get (data img) (Z2F (4 * 0 + 2))) = b hexColor.
Proof.
  apply (stored_channels sample2x2 2 2 _ 0 sample2x2_ok);
    [cbn; lia | cbn; lia | vm_compute; reflexivity | cbn; lia].
Defined.

(** * The order on Numbers *)

Lemma SFcompare_antisym (x y : spec_float) :
  SFcompare y x = option_map CompOpp (SFcompare x y).
Proof.
  destruct x as [sx|sx| |sx mx ex], y as [sy|sy| |sy my ey]; cbn [SFcompare option_map];
    try reflexivity; try (destruct sx; reflexivity); try (destruct sy; reflexivity);
    try (destruct sx, sy; reflexivity).
  destruct sx, sy; try reflexivity; f_equal;
    rewrite (Z.compare_antisym ex ey); destruct (ex ?= ey); cbn [CompOpp]; try reflexivity;
    rewrite (Pos.compare_cont_antisym mx my Eq); reflexivity.
Qed.

Lemma is_nan_Prim2SF (x : float) : is_nan x = false <-> Prim2SF x <> S754_nan.
Proof.
  unfold is_nan. rewrite FloatAxioms.eqb_spec. unfold SFeqb.
  destruct (Prim2SF x) as [s|s| |s m e].
  - split; [discriminate|reflexivity].
  - split; [discriminate|]. destruct s; reflexivity.
  - split; [discriminate|congruence].
  - split; [discriminate|]. intros _. rewrite SFcompare_refl_finite. reflexivity.
Qed.

Lemma SFcompare_defined (x y : spec_float) :
  x <> S754_nan -> y <> S754_nan -> exists c, SFcompare x y = Some c.
Proof.
  intros Hx Hy. destruct x as [sx|sx| |sx mx ex], y as [sy|sy| |sy my ey]; try congruence;
    cbn [SFcompare]; eexists; reflexivity.
Qed.

Lemma ltb_leb (x y : float) : (x <? y)%float = true -> (x <=? y)%float = true.
Proof.
  rewrite FloatAxioms.ltb_spec, FloatAxioms.leb_spec. unfold SFltb, SFleb.
  destruct (SFcompare _ _) as [[]|]; congruence.
Qed.

(** Two Numbers, neither NaN and neither below the other, are equal in the order. *)
Lemma not_ltb_leb (x y : float) :
  is_nan x = false -> is_nan y = false ->
  (x <? y)%float = false -> (y <? x)%float = false -> (x <=? y)%float = true.
Proof.
  rewrite !is_nan_Prim2SF, !FloatAxioms.ltb_spec, FloatAxioms.leb_spec. unfold SFltb, SFleb.
  intros Hx Hy. rewrite (SFcompare_antisym (Prim2SF x) (Prim2SF y)).
  destruct (SFcompare_defined _ _ Hx Hy) as [c ->]. destruct c; cbn; congruence.
Qed.

Lemma ltb_not_nan (x y : float) : (x <? y)%float = true -> is_nan x = false /\ is_nan y = false.
Proof.
  rewrite !is_nan_Prim2SF, FloatAxioms.ltb_spec. unfold SFltb.
  destruct (Prim2SF x), (Prim2SF y); cbn [SFcompare]; intros; split; congruence.
Qed.

Lemma leb_not_nan (x y : float) : (x <=? y)%float = true -> is_nan x = false /\ is_nan y = false.
Proof.
  rewrite !is_nan_Prim2SF, FloatAxioms.leb_spec. unfold SFleb.
  destruct (Prim2SF x), (Prim2SF y); cbn [SFcompare]; intros; split; congruence.
Qed.

Lemma leb_refl (x : float) : is_nan x = false -> (x <=? x)%float = true.
Proof.
  intros Hx. apply not_ltb_leb; try assumption;
    rewrite FloatAxioms.ltb_spec; unfold SFltb;
    apply is_nan_Prim2SF in Hx; destruct (Prim2SF x) as [s|s| |s m e];
    try congruence; try (destruct s; reflexivity);
    rewrite SFcompare_refl_finite; reflexivity.
Qed.

(** [Math.max(lo, Math.min(hi, v))] lies between [lo] and [hi] unless [v] is NaN. *)
Lemma clamp_between (lo hi v : float) :
  (lo <=? hi)%float = true -> get_sign lo = false -> get_sign hi = false ->
  is_nan v = false ->
  (lo <=? Math_max lo (Math_min hi v))%float = true /\
  (Math_max lo (Math_min hi v) <=? hi)%float = true.
Proof.
  intros Hlh Slo Shi Hv. destruct (leb_not_nan _ _ Hlh) as [Nlo Nhi].
  pose proof (leb_refl lo Nlo) as Hll. pose proof (leb_refl hi Nhi) as Hhh.
  assert (Hm : is_nan (Math_min hi v) = false /\ (Math_min hi v <=? hi)%float = true).
  { unfold Math_min. rewrite Nhi, Hv. cbn [orb].
    destruct (hi <? v)%float eqn:E1; [split; assumption|].
    destruct (v <? hi)%float eqn:E2; [split; [assumption | apply ltb_leb, E2]|].
    rewrite Shi. split; [assumption|]. apply not_ltb_leb; assumption. }
  destruct Hm as [Nm Hm]. set (m := Math_min hi v) in *.
  unfold Math_max. rewrite Nlo, Nm. cbn [orb].
  destruct (lo <? m)%float eqn:E1; [split; [apply ltb_leb, E1 | assumption]|].
  destruct (m <? lo)%float eqn:E2; [split; assumption|].
  rewrite Slo. split; assumption.
Qed.

(** A NaN goes through the clamp. *)
Lemma clamp_nan (lo hi v : float) :
  is_nan v = true -> Math_max lo (Math_min hi v) = nan.
Proof.
  intros Hv. unfold Math_min. rewrite Hv, orb_true_r. unfold Math_max.
  change (is_nan nan) with true. rewrite orb_true_r. reflexivity.
Qed.

Module ViewFacts.
Import View.

(** ** What the handlers change *)

Lemma pan_active (e : MouseEvent) (type : string) (this : HexaImageConverter) (last : point) :
  get_isPanning type this = true -> get_lastPanPoint type this = Some last ->
  pan e type this =
    set_lastPanPoint type (Some {| x := clientX e; y := clientY e |})
      (set_panY type (get_panY type this + (clientY e - y last))
        (set_panX type (get_panX type this + (clientX e - x last)) this)).
Proof.
  intros H1 H2. unfold pan. rewrite H1, H2.
  unfold get_panY, set_panX. destruct (is_original type); reflexivity.
Qed.

Lemma pan_cases (e : MouseEvent) (type : string) (this : HexaImageConverter) :
  pan e type this = this \/
  exists last,
    pan e type this =
      set_lastPanPoint type (Some {| x := clientX e; y := clientY e |})
        (set_panY type (get_panY type this + (clientY e - y last))
          (set_panX type (get_panX type this + (clientX e - x last)) this)).
Proof.
  destruct (get_isPanning type this) eqn:H1; [|left; unfold pan; rewrite H1; reflexivity].
  destruct (get_lastPanPoint type this) as [last|] eqn:H2;
    [|left; unfold pan; rewrite H1, H2; reflexivity].
  right. exists last. apply pan_active; assumption.
Qed.

(** [pan] leaves both zoom levels as they are. *)
Lemma pan_zoom (e : MouseEvent) (type : string) (this : HexaImageConverter) :
  originalZoom (pan e type this) = originalZoom this /\
  hexZoom (pan e type this) = hexZoom this.
Proof.
  destruct (pan_cases e type this) as [->|(last & ->)]; [split; reflexivity|].
  unfold set_lastPanPoint, set_panY, set_panX. destruct (is_original type); split; reflexivity.
Qed.

Lemma handleTouchMove_zoom (touches : list MouseEvent) (type : string) (this : HexaImageConverter) :
  originalZoom (handleTouchMove touches type this) = originalZoom this /\
  hexZoom (handleTouchMove touches type this) = hexZoom this.
Proof.
  destruct touches as [|t [|]]; cbn [handleTouchMove]; try (split; reflexivity).
  destruct (get_isPanning type this); [apply pan_zoom | split; reflexivity].
Qed.

(** ** Zooming *)

Lemma zoom_ok_finite (zoom : float) : zoom_ok zoom -> nonneg_upto (-50) zoom.
Proof.
  intros [Hlo Hhi]. unfold nonneg_upto.
  rewrite FloatAxioms.leb_spec in Hlo, Hhi. unfold SFleb in Hlo, Hhi.
  change (Prim2SF 5) with (S754_finite false 5629499534213120 (-50)) in Hhi.
  change (Prim2SF 0.1) with (S754_finite false 7205759403792794 (-56)) in Hlo.
  destruct (Prim2SF zoom) as [s|s| |s m e]; cbn [SFcompare finite_upto] in *.
  - discriminate.
  - destruct s; discriminate.
  - discriminate.
  - destruct s; [discriminate|]. split; [reflexivity|].
    destruct (Z.compare_spec e (-50)); [lia | lia | discriminate].
Qed.

Lemma zoom_times (zoom factor : float) :
  zoom_ok zoom -> nonneg_upto 0 factor -> is_nan (zoom * factor) = false.
Proof.
  intros Hz Hf. apply is_nan_Prim2SF.
  pose proof (nonneg_upto_mul zoom factor (-50) 0 (zoom_ok_finite zoom Hz) Hf ltac:(lia)) as H.
  unfold nonneg_upto in H. destruct (Prim2SF (zoom * factor)); try discriminate. contradiction.
Qed.

Lemma clamp_zoom_ok (v : float) : is_nan v = false -> zoom_ok (Math_max 0.1 (Math_min 5 v)).
Proof. intros Hv. apply clamp_between; [reflexivity..|assumption]. Qed.

(** X11: zooming keeps the zoom level between 0.1 and 5, unless the product of the
    level and the factor is NaN, which is then stored. *)
Theorem zoom_clamped (factor : float) (this : HexaImageConverter) :
  (is_nan (originalZoom this * factor) = false -> zoom_ok (originalZoom (zoomOriginal factor this))) /\
  (is_nan (hexZoom this * factor) = false -> zoom_ok (hexZoom (zoomHex factor this))) /\
  (is_nan (originalZoom this * factor) = true -> originalZoom (zoomOriginal factor this) = nan) /\
  (is_nan (hexZoom this * factor) = true -> hexZoom (zoomHex factor this) = nan).
Proof.
  split; [|split; [|split]]; intros Hv; cbn;
    first [apply clamp_zoom_ok | apply clamp_nan]; assumption.
Qed.

Lemma zoom_clamped_witness :
  zoom_ok (originalZoom (zoomOriginal 1.2 constructor)) /\
  zoom_ok (hexZoom (zoomHex 1.2 constructor)).
Proof.
  split.
  - apply (proj1 (zoom_clamped 1.2 constructor)). reflexivity.
  - apply (proj1 (proj2 (zoom_clamped 1.2 constructor))). reflexivity.
Defined.

Lemma zoomOriginal_ok (factor : float) (this : HexaImageConverter) :
  nonneg_upto 0 factor -> zooms_ok this -> zooms_ok (zoomOriginal factor this).
Proof.
  intros Hf [Ho Hh]. split; [|exact Hh]. cbn. apply clamp_zoom_ok, zoom_times; assumption.
Qed.

Lemma zoomHex_ok (factor : float) (this : HexaImageConverter) :
  nonneg_upto 0 factor -> zooms_ok this -> zooms_ok (zoomHex factor this).
Proof.
  intros Hf [Ho Hh]. split; [exact Ho|]. cbn. apply clamp_zoom_ok, zoom_times; assumption.
Qed.

Lemma factor_finite (f : float) :
  f = 1.2%float \/ f = 0.8%float \/ f = 0.9%float \/ f = 1.1%float -> nonneg_upto 0 f.
Proof. intros [->|[->|[->| ->]]]; (vm_compute; split; [reflexivity|discriminate]). Qed.

Lemma zoom_ok_1 : zoom_ok 1.
Proof. split; reflexivity. Qed.

Lemma dispatch_zooms_ok (this : HexaImageConverter) (ev : event) :
  zooms_ok this -> zooms_ok (dispatch this ev).
Proof.
  intros Hok. pose proof Hok as [Ho Hh]. unfold zooms_ok.
  destruct ev as [c|c|c| |c e|c e|c|c|c deltaY|c touches|c touches|c]; cbn [dispatch].
  - destruct c; [apply zoomOriginal_ok | apply zoomHex_ok]; auto using factor_finite.
  - destruct c; [apply zoomOriginal_ok | apply zoomHex_ok]; auto using factor_finite.
  - destruct c; split; cbn; auto using zoom_ok_1.
  - split; cbn; apply zoom_ok_1.
  - destruct c; exact Hok.
  - destruct (pan_zoom e (type_of c) this) as [-> ->]. exact Hok.
  - destruct c; exact Hok.
  - destruct c; exact Hok.
  - unfold handleWheel. destruct (0 <? deltaY)%float, c; cbn [type_of is_original String.eqb];
      first [apply zoomOriginal_ok | apply zoomHex_ok]; auto using factor_finite.
  - destruct c, touches as [|t [|]]; exact Hok.
  - destruct (handleTouchMove_zoom touches (type_of c) this) as [-> ->]. exact Hok.
  - destruct c; exact Hok.
Qed.

(** X12: whatever the user does, both zoom levels stay between 0.1 and 5. *)
Theorem zoom_invariant (evs : list event) :
  zoom_ok (originalZoom (after evs)) /\ zoom_ok (hexZoom (after evs)).
Proof.
  unfold after. induction evs as [|ev evs IH] using rev_ind.
  - split; apply zoom_ok_1.
  - rewrite fold_left_app. cbn [fold_left]. apply dispatch_zooms_ok, IH.
Qed.

(** ** Panning *)

Lemma startPan_pan_state_ok (e : MouseEvent) (type : string) (this : HexaImageConverter) :
  pan_state_ok this -> pan_state_ok (startPan e type this).
Proof.
  intros [Ho Hh]. unfold startPan, set_lastPanPoint, set_isPanning.
  destruct (is_original type); split; cbn; try assumption; split; congruence.
Qed.

Lemma endPan_pan_state_ok (type : string) (this : HexaImageConverter) :
  pan_state_ok this -> pan_state_ok (endPan type this).
Proof.
  intros [Ho Hh]. unfold endPan, set_lastPanPoint, set_isPanning.
  destruct (is_original type); split; cbn; try assumption; split; congruence.
Qed.

Lemma pan_pan_state_ok (e : MouseEvent) (type : string) (this : HexaImageConverter) :
  pan_state_ok this -> pan_state_ok (pan e type this).
Proof.
  intros Hok. destruct (get_isPanning type this) eqn:E1; [|unfold pan; rewrite E1; exact Hok].
  destruct (get_lastPanPoint type this) as [last|] eqn:E2;
    [|unfold pan; rewrite E1, E2; exact Hok].
  rewrite (pan_active e type this last E1 E2). destruct Hok as [Ho Hh].
  unfold get_isPanning in E1. unfold set_lastPanPoint, set_panY, set_panX.
  destruct (is_original type); split; cbn; try assumption; split; congruence.
Qed.

Lemma dispatch_pan_state_ok (this : HexaImageConverter) (ev : event) :
  pan_state_ok this -> pan_state_ok (dispatch this ev).
Proof.
  intros Hok.
  destruct ev as [c|c|c| |c e|c e|c|c|c deltaY|c touches|c touches|c]; cbn [dispatch];
    try (apply startPan_pan_state_ok, Hok); try (apply endPan_pan_state_ok, Hok);
    try (apply pan_pan_state_ok, Hok).
  - destruct c; exact Hok.
  - destruct c; exact Hok.
  - destruct c; exact Hok.
  - exact Hok.
  - unfold handleWheel. destruct (0 <? deltaY)%float, c; exact Hok.
  - destruct touches as [|t [|]]; cbn [handleTouchStart]; try exact Hok.
    apply startPan_pan_state_ok, Hok.
  - destruct touches as [|t [|]]; cbn [handleTouchMove]; try exact Hok.
    destruct (get_isPanning (type_of c) this); [apply pan_pan_state_ok, Hok | exact Hok].
Qed.

(** X13: in every state the user can reach, a canvas is being panned exactly when
    its last pan point is set: [pan] never finds one without the other. *)
Theorem panning_invariant (evs : list event) :
  (originalIsPanning (after evs) = true <-> originalLastPanPoint (after evs) <> None) /\
  (hexIsPanning (after evs) = true <-> hexLastPanPoint (after evs) <> None).
Proof.
  unfold after. induction evs as [|ev evs IH] using rev_ind.
  - split; cbn; split; congruence.
  - rewrite fold_left_app. cbn [fold_left]. apply dispatch_pan_state_ok, IH.
Qed.

(** X14: an event on one canvas leaves the zoom, the pan offsets and the panning
    state of the other canvas as they are. *)
Theorem other_canvas_unchanged (this : HexaImageConverter) (ev : event) (c c' : canvas) :
  canvas_of ev = Some c -> c' <> c -> view_of c' (dispatch this ev) = view_of c' this.
Proof.
  intros Hev Hne.
  destruct ev as [d|d|d| |d e|d e|d|d|d deltaY|d touches|d touches|d]; cbn [canvas_of] in Hev;
    try discriminate; injection Hev as ->; cbn [dispatch].
  1-4, 6-9, 11: destruct c, c'; try contradiction; try reflexivity;
    try (unfold handleWheel; destruct (0 <? deltaY)%float; reflexivity);
    try (destruct touches as [|t [|]]; reflexivity).
  - destruct (pan_cases e (type_of c) this) as [->|(last & ->)]; [reflexivity|].
    destruct c, c'; try contradiction; reflexivity.
  - destruct touches as [|t [|]]; cbn [handleTouchMove]; try reflexivity.
    destruct (get_isPanning (type_of c) this); [|reflexivity].
    destruct (pan_cases {| clientX := clientX t; clientY := clientY t |} (type_of c) this)
      as [->|(last & ->)]; [reflexivity|].
    destruct c, c'; try contradiction; reflexivity.
Qed.

Lemma other_canvas_unchanged_witness :
  view_of hexCanvas (dispatch constructor (wheel originalCanvas 3)) = view_of hexCanvas constructor.
Proof.
  apply (other_canvas_unchanged constructor (wheel originalCanvas 3) originalCanvas hexCanvas);
    [reflexivity | discriminate].
Defined.

(** X15: mouse and touch moves on a canvas that is not being panned change nothing. *)
Theorem moves_without_drag (c : canvas) (evs : list event) (this : HexaImageConverter) :
  get_isPanning (type_of c) this = false -> Forall (is_move c) evs ->
  fold_left dispatch evs this = this.
Proof.
  intros Hidle Hevs. induction Hevs as [|ev evs Hev _ IH]; [reflexivity|].
  cbn [fold_left]. 
  assert (E : dispatch this ev = this).
  { destruct ev; cbn [is_move] in Hev; try contradiction; subst; cbn [dispatch].
    - unfold pan. rewrite Hidle. reflexivity.
    - destruct touches as [|t [|]]; cbn [handleTouchMove]; try reflexivity.
      rewrite Hidle. reflexivity. }
  rewrite E. exact IH.
Qed.

Lemma moves_without_drag_witness :
  fold_left dispatch [mousemove hexCanvas {| clientX := 3; clientY := 4 |};
                      touchmove hexCanvas [{| clientX := 5; clientY := 6 |}]]
    (dispatch constructor (mouseup hexCanvas)) = dispatch constructor (mouseup hexCanvas).
Proof.
  apply (moves_without_drag hexCanvas); [reflexivity|].
  repeat constructor.
Defined.

(** ** A drag *)

Lemma Z2F_sub (a b : Z) : small a -> small b -> small (a - b) -> (Z2F a - Z2F b)%float = Z2F (a - b).
Proof. intros; unfold Z2F; apply D2F_sub; auto using krange_0. Qed.

Lemma last_cons {A : Type} (a : A) (l : list A) (d : A) : List.last (a :: l) d = List.last l a.
Proof.
  revert a d. induction l as [|b l IH]; intros a d; [reflexivity|].
  change (List.last (a :: b :: l) d) with (List.last (b :: l) d).
  rewrite (IH b d), (IH b a). reflexivity.
Qed.

Lemma drag_steps (c : canvas) (moves : list (Z * Z)) (start : Z * Z) (px py : Z)
    (this : HexaImageConverter) :
  near (2 ^ 50) start -> Forall (near (2 ^ 50)) moves ->
  Z.abs (px - fst start) <= 2 ^ 50 -> Z.abs (py - snd start) <= 2 ^ 50 ->
  get_isPanning (type_of c) this = true ->
  get_lastPanPoint (type_of c) this = Some {| x := Z2F (fst start); y := Z2F (snd start) |} ->
  get_panX (type_of c) this = Z2F px -> get_panY (type_of c) this = Z2F py ->
  let final := fold_left dispatch (map (fun p => mousemove c (at_point p)) moves) this in
  let stop := List.last moves start in
  get_panX (type_of c) final = Z2F (px + (fst stop - fst start)) /\
  get_panY (type_of c) final = Z2F (py + (snd stop - snd start)) /\
  get_isPanning (type_of c) final = true /\
  get_lastPanPoint (type_of c) final = Some {| x := Z2F (fst stop); y := Z2F (snd stop) |}.
Proof.
  intros Hs Hm. revert start px py this Hs.
  induction Hm as [|p moves Hp Hm IH]; intros start px py this Hs Hpx Hpy Hpan Hlast HX HY.
  - cbn. rewrite HX, HY, !Z.sub_diag, !Z.add_0_r. auto.
  - cbn [map fold_left dispatch].
    assert (Hstep : let this' := pan (at_point p) (type_of c) this in
              get_isPanning (type_of c) this' = true /\
              get_lastPanPoint (type_of c) this' = Some {| x := Z2F (fst p); y := Z2F (snd p) |} /\
              get_panX (type_of c) this' = Z2F (px + (fst p - fst start)) /\
              get_panY (type_of c) this' = Z2F (py + (snd p - snd start))).
    { rewrite (pan_active _ _ _ _ Hpan Hlast). cbn [x y at_point clientX clientY].
      destruct Hs as [Hs1 Hs2], Hp as [Hp1 Hp2].
      change (2 ^ 50) with 1125899906842624 in *.
      rewrite HX, HY, !Z2F_sub, !Z2F_add
        by (unfold small; change (2 ^ 53) with 9007199254740992; lia).
      destruct c; cbn; auto. }
    destruct Hstep as (S1 & S2 & S3 & S4).
    destruct Hs as [Hs1 Hs2]. pose proof Hp as [Hp1 Hp2].
    change (2 ^ 50) with 1125899906842624 in *.
    specialize (IH p (px + (fst p - fst start)) (py + (snd p - snd start))
                  (pan (at_point p) (type_of c) this) Hp ltac:(lia) ltac:(lia) S1 S2 S3 S4).
    cbv zeta in IH.
    rewrite last_cons.
    replace (px + (fst (List.last moves p) - fst start))
      with (px + (fst p - fst start) + (fst (List.last moves p) - fst p)) by ring.
    replace (py + (snd (List.last moves p) - snd start))
      with (py + (snd p - snd start) + (snd (List.last moves p) - snd p)) by ring.
    exact IH.
Qed.

(** X16: a drag moves the image by the vector from where the mouse went down to its
    last position, however the mouse got there and whatever happened before:
    with integer pan offsets and mouse positions (up to 2^49 in size) the
    single moves add up without rounding. *)
Theorem drag_displacement (c : canvas) (px py : Z) (start : Z * Z) (moves : list (Z * Z))
    (evs : list event) :
  near (2 ^ 49) (px, py) -> near (2 ^ 49) start -> Forall (near (2 ^ 49)) moves ->
  get_panX (type_of c) (after evs) = Z2F px -> get_panY (type_of c) (after evs) = Z2F py ->
  let final := after (evs ++ mousedown c (at_point start)
                          :: map (fun p => mousemove c (at_point p)) moves) in
  let stop := List.last moves start in
  get_panX (type_of c) final = Z2F (px + (fst stop - fst start)) /\
  get_panY (type_of c) final = Z2F (py + (snd stop - snd start)).
Proof.
  intros [Hpx Hpy] [Hs1 Hs2] Hm HX HY final stop. unfold final, after.
  cbn [fst snd] in Hpx, Hpy.
  rewrite fold_left_app. cbn [fold_left]. fold (after evs).
  set (this := dispatch (after evs) (mousedown c (at_point start))).
  assert (H : get_isPanning (type_of c) this = true /\
              get_lastPanPoint (type_of c) this = Some {| x := Z2F (fst start); y := Z2F (snd start) |} /\
              get_panX (type_of c) this = Z2F px /\ get_panY (type_of c) this = Z2F py).
  { unfold this. cbn [dispatch]. destruct c; cbn in *; auto. }
  destruct H as (H1 & H2 & H3 & H4).
  change (2 ^ 49) with 562949953421312 in *.
  assert (Hm' : Forall (near (2 ^ 50)) moves).
  { eapply Forall_impl; [exact Hm|]. intros p [Hp1 Hp2]. unfold near.
    change (2 ^ 50) with 1125899906842624. lia. }
  destruct (drag_steps c moves start px py this
              ltac:(unfold near; change (2 ^ 50) with 1125899906842624; lia) Hm'
              ltac:(change (2 ^ 50) with 1125899906842624; lia)
              ltac:(change (2 ^ 50) with 1125899906842624; lia) H1 H2 H3 H4)
    as (R1 & R2 & _).
  split; assumption.
Qed.

Lemma drag_displacement_witness :
  get_panX (type_of hexCanvas)
    (after ([] ++ mousedown hexCanvas (at_point (10, 20))
               :: map (fun p => mousemove hexCanvas (at_point p)) [(12, 25); (7, 30)])) =
    Z2F (0 + (fst (List.last [(12, 25); (7, 30)] (10, 20)) - fst (10, 20))) /\
  get_panY (type_of hexCanvas)
    (after ([] ++ mousedown hexCanvas (at_point (10, 20))
               :: map (fun p => mousemove hexCanvas (at_point p)) [(12, 25); (7, 30)])) =
    Z2F (0 + (snd (List.last [(12, 25); (7, 30)] (10, 20)) - snd (10, 20))).
Proof.
  apply (drag_displacement hexCanvas 0 0 (10, 20) [(12, 25); (7, 30)] []).
  - split; cbn; lia.
  - split; cbn; lia.
  - repeat constructor; cbn; lia.
  - reflexivity.
  - reflexivity.
Defined.

End ViewFacts.
